(** * Spheron MCP plugin: parameter extraction, conversation merge and
      deployment-document rendering

    A shallow embedding of the TypeScript sources
      - natural-language-processor/template-processor.ts
      - natural-language-processor/claude-processor.ts
      - natural-language-processor/index.ts
      - conversation/state-manager.ts
      - yaml-generator/generator.ts
      - the [natural_to_yaml] handler, [compareVersions] and
        [getTokenDecimals] of index.ts
      - scripts/check-node-version.js
      - utils/logger.ts
    together with the properties the specification states about them
    and further properties read off the code.

    Conventions of the embedding.
      - A JavaScript string is a [string] (a sequence of one-byte code
        units); case conversion acts on the letters A-Z / a-z.
      - A JavaScript number is a [number]: [NaN], an infinity or a
        double whose value is an integer.
      - An optional property of an object is an [option]; [None] is the
        absent property ([undefined]).
      - An exception is the [Throw] case of [completion]; [try]/[catch]
        is a match on it.
      - The platform pieces the sources call but do not define (the YAML
        codec, [JSON.parse], the remote model, [Number] on a version
        piece, the clock) are Section variables. *)

From Stdlib Require Import Bool Ascii String List ZArith NArith Lia.
From Stdlib Require Import Numbers.DecimalString Numbers.DecimalZ Numbers.DecimalN.
From Stdlib Require Import Numbers.DecimalFacts.
From Ceres Require CeresS CeresFormat CeresParser.
Import ListNotations.
Local Open Scope string_scope.
Local Open Scope bool_scope.
Local Set Warnings "-register-all".

(* ================================================================== *)
(** * JavaScript strings *)
(* ================================================================== *)

Module JsString.

Definition is_upper (c : ascii) : bool :=
  let n := nat_of_ascii c in (65 <=? n)%nat && (n <=? 90)%nat.

Definition is_lower (c : ascii) : bool :=
  let n := nat_of_ascii c in (97 <=? n)%nat && (n <=? 122)%nat.

Definition is_digit (c : ascii) : bool :=
  let n := nat_of_ascii c in (48 <=? n)%nat && (n <=? 57)%nat.

(** [\s]: tab, line feed, vertical tab, form feed, carriage return,
    space and the no-break space. *)
Definition is_space (c : ascii) : bool :=
  let n := nat_of_ascii c in
  ((9 <=? n)%nat && (n <=? 13)%nat) || (n =? 32)%nat || (n =? 160)%nat.

(** [\w]: letters, digits and the underscore. *)
Definition is_word (c : ascii) : bool :=
  is_upper c || is_lower c || is_digit c || (nat_of_ascii c =? 95)%nat.

(** [[\s\S]]: every character. *)
Definition is_any (_ : ascii) : bool := true.

Definition lower_char (c : ascii) : ascii :=
  if is_upper c then ascii_of_nat (nat_of_ascii c + 32) else c.

Definition upper_char (c : ascii) : ascii :=
  if is_lower c then ascii_of_nat (nat_of_ascii c - 32) else c.

Fixpoint map_chars (f : ascii -> ascii) (s : string) : string :=
  match s with
  | EmptyString => EmptyString
  | String c s' => String (f c) (map_chars f s')
  end.

Definition toLowerCase : string -> string := map_chars lower_char.
Definition toUpperCase : string -> string := map_chars upper_char.

(** [s.startsWith(p)] *)
Definition startsWith (s p : string) : bool := String.prefix p s.

(** [s.includes(p)] *)
Fixpoint includes (s p : string) : bool :=
  String.prefix p s ||
  match s with
  | EmptyString => false
  | String _ s' => includes s' p
  end.

(** The longest prefix of [s] made of characters satisfying [p]. *)
Fixpoint take_while (p : ascii -> bool) (s : string) : string :=
  match s with
  | EmptyString => EmptyString
  | String c s' => if p c then String c (take_while p s') else EmptyString
  end.

Fixpoint drop_while (p : ascii -> bool) (s : string) : string :=
  match s with
  | EmptyString => EmptyString
  | String c s' => if p c then drop_while p s' else s
  end.

Fixpoint all_chars (p : ascii -> bool) (s : string) : bool :=
  match s with
  | EmptyString => true
  | String c s' => p c && all_chars p s'
  end.

(** The 256 character codes. *)
Definition all_ascii : list ascii := map ascii_of_nat (seq 0 256).

(** [s.trimEnd()] and [s.trim()] *)
Fixpoint trimEnd (s : string) : string :=
  match s with
  | EmptyString => EmptyString
  | String c s' =>
      let t := trimEnd s' in
      if is_space c && String.eqb t "" then EmptyString else String c t
  end.

Definition trim (s : string) : string := trimEnd (drop_while is_space s).

(** [xs.join(sep)] *)
Fixpoint join (sep : string) (xs : list string) : string :=
  match xs with
  | [] => ""
  | [x] => x
  | x :: rest => x ++ sep ++ join sep rest
  end.

End JsString.
Import JsString.

(* ================================================================== *)
(** * JavaScript numbers *)
(* ================================================================== *)

(** A number is a double.  The numbers the program computes with are
    the results of [parseInt] on digit strings and products of those
    with integer constants, so they are integers or infinite: [Int z]
    stands for the double whose value is the integer [z] (a double
    holds every integer up to 2^53 in magnitude, and beyond that only
    those with 53 significant bits), [Infinity] for the two infinite
    doubles. *)
Inductive number : Type :=
| NaN
| Int (z : Z)
| Infinity (negative : bool).

Module JsNumber.

(** The integer nearest to [z >= 0] among those with at most 53
    significant bits, a tie going to the even significand. *)
Definition round53 (z : Z) : Z :=
  let k := Z.log2 z in
  if (k <? 53)%Z then z
  else
    let shift := (k - 52)%Z in
    let q := Z.shiftr z shift in
    let r := (z - Z.shiftl q shift)%Z in
    let half := Z.shiftl 1 (shift - 1) in
    let q :=
      if (half <? r)%Z || ((r =? half)%Z && Z.odd q) then (q + 1)%Z else q in
    Z.shiftl q shift.

(** The double nearest to the integer [z]; past the largest double the
    result is infinite. *)
Definition ofZ (z : Z) : number :=
  let m := round53 (Z.abs z) in
  if (2 ^ 1024 <=? m)%Z then Infinity (z <? 0)%Z
  else Int (Z.sgn z * m).

Definition eqb (a b : number) : bool :=
  match a, b with
  | Int x, Int y => Z.eqb x y
  | Infinity s, Infinity t => Bool.eqb s t
  | _, _ => false
  end.

(** ToBoolean on a number: [0] and [NaN] are falsy. *)
Definition truthy (a : number) : bool :=
  match a with
  | NaN => false
  | Int z => negb (Z.eqb z 0)
  | Infinity _ => true
  end.

(** [a * b]: the exact product, rounded to a double. *)
Definition mul (a b : number) : number :=
  match a, b with
  | Int x, Int y => ofZ (x * y)
  | Infinity s, Int y | Int y, Infinity s =>
      if (y =? 0)%Z then NaN else Infinity (xorb s (y <? 0)%Z)
  | Infinity s, Infinity t => Infinity (xorb s t)
  | _, _ => NaN
  end.

(** The decimal numeral of an integer.  It is what [String(n)] gives
    for every integer up to 2^53 in magnitude; [numberToString] below
    covers every number. *)
Definition toString (a : number) : string :=
  match a with
  | NaN => "NaN"
  | Int z => NilEmpty.string_of_int (Z.to_int z)
  | Infinity s => if s then "-Infinity" else "Infinity"
  end.

(** Number::toString on an integer [x] above 2^53: the digits are those
    of the shortest [s] (with [k] digits) such that [s * 10^(n-k)]
    rounds to [x], the closest to [x] among these, an even [s] on a
    tie. *)
Definition digitCount (x : Z) : Z :=
  Z.of_nat (String.length (toString (Int x))).

Definition candidates (x k : Z) : list (Z * Z) :=
  flat_map (fun n =>
    let e := (n - k)%Z in
    if (e <? 0)%Z then []
    else
      let s := (x / 10 ^ e)%Z in
      filter (fun sn =>
                (10 ^ (k - 1) <=? fst sn)%Z && (fst sn <? 10 ^ k)%Z
                && eqb (ofZ (fst sn * 10 ^ e)) (Int x))
             [(s, n); ((s + 1)%Z, n)])
    [digitCount x; (digitCount x + 1)%Z].

Definition closer (x k : Z) (a b : Z * Z) : Z * Z :=
  let da := Z.abs (fst a * 10 ^ (snd a - k) - x) in
  let db := Z.abs (fst b * 10 ^ (snd b - k) - x) in
  if (db <? da)%Z then b
  else if (db =? da)%Z && Z.even (fst b) then b
  else a.

Fixpoint shortest (x k : Z) (fuel : nat) : Z * Z * Z :=
  match fuel with
  | O => (x, digitCount x, digitCount x)
  | S fuel' =>
      match candidates x k with
      | [] => shortest x (k + 1) fuel'
      | c :: cs =>
          let best := fold_left (closer x k) cs c in
          (fst best, k, snd best)
      end
  end.

Fixpoint zeros (n : nat) : string :=
  match n with
  | O => ""
  | S n' => String "0" (zeros n')
  end.

(** Below 10^21 the digits are followed by zeros; from 10^21 on the
    exponent form is used. *)
Definition digitsToString (x : Z) : string :=
  let '(s, k, n) := shortest x 1 (Z.to_nat (digitCount x)) in
  let ds := toString (Int s) in
  if (n <=? 21)%Z then ds ++ zeros (Z.to_nat (n - k))
  else
    match ds with
    | String c EmptyString => String c ("e+" ++ toString (Int (n - 1)))
    | String c rest => String c ("." ++ rest ++ "e+" ++ toString (Int (n - 1)))
    | EmptyString => ""
    end.

(** [String(n)] / template interpolation of a number. *)
Definition numberToString (a : number) : string :=
  match a with
  | Int z =>
      if (Z.abs z <=? 2 ^ 53)%Z then toString a
      else (if (z <? 0)%Z then "-" else "") ++ digitsToString (Z.abs z)
  | _ => toString a
  end.

(** [parseInt(s, 10)]: leading white space and an optional sign are
    skipped, then the longest run of decimal digits is read, and the
    result is the double nearest to the integer read; no digit gives
    [NaN]. *)
Definition parseInt (s : string) : number :=
  let s := drop_while is_space s in
  let '(neg, s) :=
    match s with
    | String "-" s' => (true, s')
    | String "+" s' => (false, s')
    | _ => (false, s)
    end in
  match take_while is_digit s with
  | EmptyString => NaN
  | ds =>
      match NilEmpty.uint_of_string ds with
      | Some d => ofZ (if neg then - Z.of_uint d else Z.of_uint d)
      | None => NaN
      end
  end.

End JsNumber.
Import JsNumber.

Infix "*'" := JsNumber.mul (at level 40, left associativity).

(* ================================================================== *)
(** * Regular expressions *)
(* ================================================================== *)

(** The fragment of the regular expression language the sources use:
    literals, character classes, sequence, ordered alternation, greedy
    repetition of a class and numbered capture groups.  [r?] is
    [Alt r Eps]; [c+] is [Seq (Cls c) (StarC c)]. *)
Inductive regex : Type :=
| Eps
| Chr (c : ascii)
| Cls (p : ascii -> bool)
| Seq (r1 r2 : regex)
| Alt (r1 r2 : regex)
| StarC (p : ascii -> bool)
| Grp (i : nat) (r : regex).

(** The result of [String.prototype.match] with a non-global pattern:
    the matched text and the numbered captures. *)
Record RegExpMatch : Type := mkMatch {
  matched : string;
  captures : list (nat * string)
}.

Module RegExp.

Fixpoint lit (s : string) : regex :=
  match s with
  | EmptyString => Eps
  | String c EmptyString => Chr c
  | String c s' => Seq (Chr c) (lit s')
  end.

Definition opt (r : regex) : regex := Alt r Eps.
Definition plus (p : ascii -> bool) : regex := Seq (Cls p) (StarC p).

Fixpoint seqs (rs : list regex) : regex :=
  match rs with
  | [] => Eps
  | [r] => r
  | r :: rest => Seq r (seqs rest)
  end.

Fixpoint alts (rs : list regex) : regex :=
  match rs with
  | [] => Eps
  | [r] => r
  | r :: rest => Alt r (alts rest)
  end.

(** The text consumed between the input [s] and its suffix [rest]. *)
Definition consumed (s rest : string) : string :=
  substring 0 (String.length s - String.length rest) s.

Fixpoint lookup (i : nat) (caps : list (nat * string)) : option string :=
  match caps with
  | [] => None
  | (j, s) :: rest => if Nat.eqb i j then Some s else lookup i rest
  end.

(** [m[i]]; a group that did not take part in the match reads as the
    empty string here (the sources only read groups that always do). *)
Definition group (m : RegExpMatch) (i : nat) : string :=
  match lookup i (captures m) with
  | Some s => s
  | None => ""
  end.

Section Matcher.
(** The [i] flag. *)
Variable ignoreCase : bool.

Definition char_matches (c x : ascii) : bool :=
  if ignoreCase then Ascii.eqb (upper_char c) (upper_char x)
  else Ascii.eqb c x.

Definition class_matches (p : ascii -> bool) (x : ascii) : bool :=
  p x || (ignoreCase && (p (lower_char x) || p (upper_char x))).

(** Greedy repetition of a class: take the character and go on when
    that leads to a match, otherwise stop here. *)
Fixpoint star {R : Type} (p : ascii -> bool) (k : string -> option R)
         (t : string) : option R :=
  match t with
  | String x t' =>
      if class_matches p x then
        match star p k t' with
        | Some res => Some res
        | None => k t
        end
      else k t
  | EmptyString => k t
  end.

(** Backtracking matcher in continuation-passing style: [k] receives
    the rest of the input and the captures so far; [None] makes the
    matcher try its next choice, in the priority order of the
    ECMAScript semantics (left alternative first, longest
    repetition first). *)
Fixpoint rmatch {R : Type} (r : regex) (s : string)
         (caps : list (nat * string))
         (k : string -> list (nat * string) -> option R) : option R :=
  match r with
  | Eps => k s caps
  | Chr c =>
      match s with
      | String x s' => if char_matches c x then k s' caps else None
      | EmptyString => None
      end
  | Cls p =>
      match s with
      | String x s' => if class_matches p x then k s' caps else None
      | EmptyString => None
      end
  | Seq r1 r2 =>
      rmatch r1 s caps (fun s' caps' => rmatch r2 s' caps' k)
  | Alt r1 r2 =>
      match rmatch r1 s caps k with
      | Some res => Some res
      | None => rmatch r2 s caps k
      end
  | StarC p => star p (fun t => k t caps) s
  | Grp i r1 =>
      rmatch r1 s caps
             (fun s' caps' => k s' ((i, consumed s s') :: caps'))
  end.

(** A match anchored at the start of [s]. *)
Definition match_here (r : regex) (s : string) : option RegExpMatch :=
  rmatch r s [] (fun rest caps => Some (mkMatch (consumed s rest) caps)).

(** [s.match(r)]: the leftmost match. *)
Fixpoint exec (r : regex) (s : string) : option RegExpMatch :=
  match match_here r s with
  | Some m => Some m
  | None =>
      match s with
      | EmptyString => None
      | String _ s' => exec r s'
      end
  end.
End Matcher.

End RegExp.
Import RegExp.

(* ================================================================== *)
(** * template-processor.ts *)
(* ================================================================== *)

Inductive PullPolicy : Type := Always | IfNotPresent | Never.
Inductive Mode : Type := provider | fizz.

Record Port : Type := mkPort {
  port : number;
  as_ : option number;
  global : option bool
}.

Record Gpu : Type := mkGpu {
  units : option number;
  model : option string
}.

(** [Record<string, string>]: the own properties in insertion order,
    which is the order JavaScript lists them in when no name is an array
    index ([JUPYTER_TOKEN] and the like). *)
Definition Env : Type := list (string * string).

(** [interface ExtractedParams]: every property is optional. *)
Record ExtractedParams : Type := mkParams {
  image : option string;
  pullPolicy : option PullPolicy;
  ports : option (list Port);
  env : option Env;
  cpu : option number;
  memory : option string;
  storage : option string;
  gpu : option Gpu;
  name : option string;
  duration : option string;
  mode : option Mode;
  region : option string;
  amount : option number;
  count : option number
}.

(** The object literal [{}]. *)
Definition emptyParams : ExtractedParams :=
  mkParams None None None None None None None None None None None None None None.

Definition emptyGpu : Gpu := mkGpu None None.

  (** Property assignments [params.f = v]. *)
Definition set_image (p : ExtractedParams) (v : string) : ExtractedParams :=
  mkParams (Some v) (pullPolicy p) (ports p) (env p) (cpu p) (memory p)
           (storage p) (gpu p) (name p) (duration p) (mode p) (region p)
           (amount p) (count p).
Definition set_ports (p : ExtractedParams) (v : list Port) : ExtractedParams :=
  mkParams (image p) (pullPolicy p) (Some v) (env p) (cpu p) (memory p)
           (storage p) (gpu p) (name p) (duration p) (mode p) (region p)
           (amount p) (count p).
Definition set_env (p : ExtractedParams) (v : Env) : ExtractedParams :=
  mkParams (image p) (pullPolicy p) (ports p) (Some v) (cpu p) (memory p)
           (storage p) (gpu p) (name p) (duration p) (mode p) (region p)
           (amount p) (count p).
Definition set_cpu (p : ExtractedParams) (v : number) : ExtractedParams :=
  mkParams (image p) (pullPolicy p) (ports p) (env p) (Some v) (memory p)
           (storage p) (gpu p) (name p) (duration p) (mode p) (region p)
           (amount p) (count p).
Definition set_memory (p : ExtractedParams) (v : string) : ExtractedParams :=
  mkParams (image p) (pullPolicy p) (ports p) (env p) (cpu p) (Some v)
           (storage p) (gpu p) (name p) (duration p) (mode p) (region p)
           (amount p) (count p).
Definition set_storage (p : ExtractedParams) (v : string) : ExtractedParams :=
  mkParams (image p) (pullPolicy p) (ports p) (env p) (cpu p) (memory p)
           (Some v) (gpu p) (name p) (duration p) (mode p) (region p)
           (amount p) (count p).
Definition set_gpu (p : ExtractedParams) (v : Gpu) : ExtractedParams :=
  mkParams (image p) (pullPolicy p) (ports p) (env p) (cpu p) (memory p)
           (storage p) (Some v) (name p) (duration p) (mode p) (region p)
           (amount p) (count p).
Definition set_name (p : ExtractedParams) (v : string) : ExtractedParams :=
  mkParams (image p) (pullPolicy p) (ports p) (env p) (cpu p) (memory p)
           (storage p) (gpu p) (Some v) (duration p) (mode p) (region p)
           (amount p) (count p).
Definition set_duration (p : ExtractedParams) (v : string) : ExtractedParams :=
  mkParams (image p) (pullPolicy p) (ports p) (env p) (cpu p) (memory p)
           (storage p) (gpu p) (name p) (Some v) (mode p) (region p)
           (amount p) (count p).
Definition set_region (p : ExtractedParams) (v : string) : ExtractedParams :=
  mkParams (image p) (pullPolicy p) (ports p) (env p) (cpu p) (memory p)
           (storage p) (gpu p) (name p) (duration p) (mode p) (Some v)
           (amount p) (count p).
Definition set_amount (p : ExtractedParams) (v : option number) : ExtractedParams :=
  mkParams (image p) (pullPolicy p) (ports p) (env p) (cpu p) (memory p)
           (storage p) (gpu p) (name p) (duration p) (mode p) (region p)
           v (count p).
(** [g.units = v] and [g.model = v] on the GPU sub-object. *)
Definition set_units (g : Gpu) (v : number) : Gpu := mkGpu (Some v) (model g).
Definition set_model (g : Gpu) (v : string) : Gpu := mkGpu (units g) (Some v).

(** ToBoolean on optional strings and numbers ([if (x)], [!x], [x || d]). *)
Definition truthy_str (s : option string) : bool :=
  match s with
  | Some s => negb (String.eqb s "")
  | None => false
  end.

Definition truthy_num (n : option number) : bool :=
  match n with
  | Some n => JsNumber.truthy n
  | None => false
  end.

Definition isSome {A : Type} (o : option A) : bool :=
  match o with Some _ => true | None => false end.

(** [a || d] *)
Definition or_str (s : option string) (d : string) : string :=
  match s with
  | Some s => if String.eqb s "" then d else s
  | None => d
  end.

Definition or_num (n : option number) (d : number) : number :=
  match n with
  | Some n => if JsNumber.truthy n then n else d
  | None => d
  end.

Definition or_else {A : Type} (o : option A) (d : A) : A :=
  match o with Some a => a | None => d end.

Definition jupyterImage : string :=
  "spheronnetwork/jupyter-notebook:pytorch-2.4.1-cuda-enabled".

Definition jupyterPorts : list Port :=
  [ mkPort (Int 8888) (Some (Int 8888)) (Some true);
    mkPort (Int 3000) (Some (Int 3000)) (Some true) ].

Definition jupyterEnv : Env := [("JUPYTER_TOKEN", "test")].

Definition DEFAULT_PARAMS : ExtractedParams := {|
  image := Some jupyterImage;
  pullPolicy := Some IfNotPresent;
  ports := Some jupyterPorts;
  env := Some jupyterEnv;
  cpu := Some (Int 16);
  memory := Some "64Gi";
  storage := Some "500Gi";
  gpu := Some (mkGpu (Some (Int 1)) (Some "rtx6000-ada"));
  name := Some "py-cuda";
  duration := Some "2h";
  mode := Some provider;
  region := Some "westcoast";
  amount := Some (Int 6);
  count := Some (Int 1)
|}.

(** ** The patterns *)

Definition digits1 : regex := plus is_digit.
Definition spaces : regex := StarC is_space.
Definition word_s (w : string) : regex := Seq (lit w) (opt (Chr "s")).

(** [/(\d+)\s*(cores?|cpus?|processors?)/i] *)
Definition CPU_REGEX : regex :=
  seqs [Grp 1 digits1; spaces;
        Grp 2 (alts [word_s "core"; word_s "cpu"; word_s "processor"])].

(** [/(\d+)\s*(GB|GiB|G|MB|MiB|M)\s*(RAM|memory)/i] *)
Definition MEMORY_REGEX : regex :=
  seqs [Grp 1 digits1; spaces;
        Grp 2 (alts [lit "GB"; lit "GiB"; lit "G"; lit "MB"; lit "MiB"; lit "M"]);
        spaces;
        Grp 3 (alts [lit "RAM"; lit "memory"])].

(** [/(\d+)\s*(GB|GiB|G|TB|TiB|T)\s*(storage|disk|space)/i] *)
Definition STORAGE_REGEX : regex :=
  seqs [Grp 1 digits1; spaces;
        Grp 2 (alts [lit "GB"; lit "GiB"; lit "G"; lit "TB"; lit "TiB"; lit "T"]);
        spaces;
        Grp 3 (alts [lit "storage"; lit "disk"; lit "space"])].

Definition digit4 : regex :=
  seqs [Cls is_digit; Cls is_digit; Cls is_digit; Cls is_digit].

(** [/(nvidia|rtx|gtx|a100|h100|t4|v100|rtx\s*\d{4}|rtx\s*\d{4}\s*\w+)/i] *)
Definition GPU_REGEX : regex :=
  Grp 1 (alts [lit "nvidia"; lit "rtx"; lit "gtx"; lit "a100"; lit "h100";
               lit "t4"; lit "v100";
               seqs [lit "rtx"; spaces; digit4];
               seqs [lit "rtx"; spaces; digit4; spaces; plus is_word]]).

(** [/(\d+)\s*gpus?/i] *)
Definition GPU_COUNT_REGEX : regex :=
  seqs [Grp 1 digits1; spaces; word_s "gpu"].

(** [/(\d+)\s*(hours?|hrs?|days?|weeks?|months?)/i] *)
Definition DURATION_REGEX : regex :=
  seqs [Grp 1 digits1; spaces;
        Grp 2 (alts [word_s "hour"; word_s "hr"; word_s "day";
                     word_s "week"; word_s "month"])].

(** [/(us-east|us-west|eu-west|eu-central|ap-southeast|ap-northeast|westcoast|eastcoast)/i] *)
Definition REGION_REGEX : regex :=
  Grp 1 (alts [lit "us-east"; lit "us-west"; lit "eu-west"; lit "eu-central";
               lit "ap-southeast"; lit "ap-northeast"; lit "westcoast";
               lit "eastcoast"]).

(** [/(\d+)([a-z]+)/i], the pattern [calculateAmount] reads a duration with. *)
Definition AMOUNT_DURATION_REGEX : regex :=
  seqs [Grp 1 digits1; Grp 2 (plus is_lower)].

(** ** calculateAmount *)

Definition calculateAmount (params : ExtractedParams) : number :=
  (* Default to 2 hours if duration is not specified *)
  if negb (truthy_str (duration params)) then Int 6
  else
    match exec true AMOUNT_DURATION_REGEX (or_else (duration params) "") with
    | None => Int 6 (* Default to 2 hours if format is invalid *)
    | Some durationMatch =>
        let value := parseInt (group durationMatch 1) in
        let unit := toLowerCase (group durationMatch 2) in
        if String.eqb unit "h" then value *' Int 3
        else if String.eqb unit "d" then value *' Int 24 *' Int 3
        else if String.eqb unit "mon" then value *' Int 30 *' Int 24 *' Int 3
        else Int 6
    end.

(** ** extractFromDescription, one block of the function per definition *)

Definition extractCpu (description : string) (params : ExtractedParams)
  : ExtractedParams :=
  match exec true CPU_REGEX description with
  | Some cpuMatch => set_cpu params (parseInt (group cpuMatch 1))
  | None => params
  end.

Definition extractMemory (description : string) (params : ExtractedParams)
  : ExtractedParams :=
  match exec true MEMORY_REGEX description with
  | Some memoryMatch =>
      let memoryValue := parseInt (group memoryMatch 1) in
      let memoryUnit := toUpperCase (group memoryMatch 2) in
      let memoryUnit :=
        if String.eqb memoryUnit "G" || String.eqb memoryUnit "GB" then "Gi"
        else if String.eqb memoryUnit "M" || String.eqb memoryUnit "MB" then "Mi"
        else memoryUnit in
      set_memory params (numberToString memoryValue ++ memoryUnit)
  | None => params
  end.

Definition extractStorage (description : string) (params : ExtractedParams)
  : ExtractedParams :=
  match exec true STORAGE_REGEX description with
  | Some storageMatch =>
      let storageValue := parseInt (group storageMatch 1) in
      let storageUnit := toUpperCase (group storageMatch 2) in
      let storageUnit :=
        if String.eqb storageUnit "G" || String.eqb storageUnit "GB" then "Gi"
        else if String.eqb storageUnit "T" || String.eqb storageUnit "TB" then "Ti"
        else storageUnit in
      set_storage params (numberToString storageValue ++ storageUnit)
  | None => params
  end.

Definition normalizeGpuModel (gpuModel : string) : string :=
  if includes gpuModel "rtx" && includes gpuModel "4090" then "rtx4090"
  else if includes gpuModel "rtx" && includes gpuModel "6000"
          && includes gpuModel "ada" then "rtx6000-ada"
  else if String.eqb gpuModel "a100" then "a100"
  else if String.eqb gpuModel "h100" then "h100"
  else if String.eqb gpuModel "t4" then "t4"
  else if String.eqb gpuModel "v100" then "v100"
  else "rtx6000-ada" (* Default to rtx6000-ada if model is unclear *).

Definition extractGpuModel (description : string) (params : ExtractedParams)
  : ExtractedParams :=
  match exec true GPU_REGEX description with
  | Some gpuMatch =>
      let g := or_else (gpu params) emptyGpu in
      let gpuModel := toLowerCase (group gpuMatch 1) in
      set_gpu params (set_model g (normalizeGpuModel gpuModel))
  | None => params
  end.

Definition extractGpuCount (description : string) (params : ExtractedParams)
  : ExtractedParams :=
  match exec true GPU_COUNT_REGEX description with
  | Some gpuCountMatch =>
      let g := or_else (gpu params) emptyGpu in
      set_gpu params (set_units g (parseInt (group gpuCountMatch 1)))
  | None =>
      match gpu params with
      | Some g =>
          (* Default to 1 GPU if model is specified but count isn't *)
          set_gpu params (set_units g (Int 1))
      | None => params
      end
  end.

Definition extractDuration (description : string) (params : ExtractedParams)
  : ExtractedParams :=
  match exec true DURATION_REGEX description with
  | Some durationMatch =>
      let value := parseInt (group durationMatch 1) in
      let unit := toLowerCase (group durationMatch 2) in
      if startsWith unit "hour" || startsWith unit "hr" then
        set_duration params (numberToString value ++ "h")
      else if startsWith unit "day" then
        set_duration params (numberToString value ++ "d")
      else if startsWith unit "week" then
        set_duration params (numberToString (value *' Int 7) ++ "d")
      else if startsWith unit "month" then
        set_duration params (numberToString value ++ "mon")
      else params
  | None => params
  end.

Definition normalizeRegion (region : string) : string :=
  if String.eqb region "westcoast" || String.eqb region "us-west" then "westcoast"
  else if String.eqb region "eastcoast" || String.eqb region "us-east" then "eastcoast"
  else "westcoast" (* Default to westcoast if region is unclear *).

Definition extractRegion (description : string) (params : ExtractedParams)
  : ExtractedParams :=
  match exec true REGION_REGEX description with
  | Some regionMatch =>
      let region := toLowerCase (group regionMatch 1) in
      set_region params (normalizeRegion region)
  | None => params
  end.

Definition extractJupyter (description : string) (params : ExtractedParams)
  : ExtractedParams :=
  if includes (toLowerCase description) "jupyter"
     || includes (toLowerCase description) "notebook" then
    let params := set_image params jupyterImage in
    let params := set_env params jupyterEnv in
    set_ports params jupyterPorts
  else params.

Definition extractName (params : ExtractedParams) : ExtractedParams :=
  if truthy_str (image params) && includes (or_else (image params) "") "jupyter"
  then set_name params "py-cuda"
  else params.

Definition extractFromDescription (description : string) : ExtractedParams :=
  let params := emptyParams in
  let params := extractCpu description params in
  let params := extractMemory description params in
  let params := extractStorage description params in
  let params := extractGpuModel description params in
  let params := extractGpuCount description params in
  let params := extractDuration description params in
  let params := extractRegion description params in
  let params := extractJupyter description params in
  let params := extractName params in
  set_amount params (Some (calculateAmount params)).

(** ** identifyMissingParams *)

Definition isGpuWorkload (params : ExtractedParams) : bool :=
  truthy_str (image params)
  && (includes (or_else (image params) "") "cuda"
      || includes (or_else (image params) "") "pytorch"
      || includes (or_else (image params) "") "tensorflow").

(** [if (c) missingParams.push(label)] *)
Definition push_if (c : bool) (label : string) (xs : list string) : list string :=
  if c then (xs ++ [label])%list else xs.

Definition identifyMissingParams (params : ExtractedParams) : list string :=
  let missingParams := [] in
  let missingParams := push_if (negb (truthy_num (cpu params))) "CPU cores" missingParams in
  let missingParams := push_if (negb (truthy_str (memory params))) "memory (RAM)" missingParams in
  let missingParams := push_if (negb (truthy_str (storage params))) "storage" missingParams in
  let missingParams := push_if (negb (truthy_str (duration params))) "duration" missingParams in
  let missingParams :=
    if isGpuWorkload params
    then push_if (negb (isSome (gpu params))) "GPU model" missingParams
    else missingParams in
  missingParams.

(** ** mergeWithDefaults *)

(** Object spread [{...a, ...b}] on an optional property: [b]'s value when
    [b] has the property, otherwise [a]'s. *)
Definition spread_field {A : Type} (a b : option A) : option A :=
  match b with
  | Some v => Some v
  | None => a
  end.

(** [{...a, ...b}] on the top-level properties of two parameter sets. *)
Definition spreadParams (a b : ExtractedParams) : ExtractedParams := {|
  image := spread_field (image a) (image b);
  pullPolicy := spread_field (pullPolicy a) (pullPolicy b);
  ports := spread_field (ports a) (ports b);
  env := spread_field (env a) (env b);
  cpu := spread_field (cpu a) (cpu b);
  memory := spread_field (memory a) (memory b);
  storage := spread_field (storage a) (storage b);
  gpu := spread_field (gpu a) (gpu b);
  name := spread_field (name a) (name b);
  duration := spread_field (duration a) (duration b);
  mode := spread_field (mode a) (mode b);
  region := spread_field (region a) (region b);
  amount := spread_field (amount a) (amount b);
  count := spread_field (count a) (count b)
|}.

(** [{...a, ...b}] on two optional GPU objects (spreading [undefined]
    adds nothing). *)
Definition spreadGpu (a b : option Gpu) : Gpu :=
  let a := or_else a emptyGpu in
  let b := or_else b emptyGpu in
  mkGpu (spread_field (units a) (units b)) (spread_field (model a) (model b)).

Fixpoint env_lookup (k : string) (e : Env) : option string :=
  match e with
  | [] => None
  | (k', v) :: rest => if String.eqb k k' then Some v else env_lookup k rest
  end.

Fixpoint env_set (k v : string) (e : Env) : Env :=
  match e with
  | [] => [(k, v)]
  | (k', v') :: rest =>
      if String.eqb k k' then (k', v) :: rest else (k', v') :: env_set k v rest
  end.

(** [{...a, ...b}] on two optional environments: [b]'s entries are
    assigned one by one onto a copy of [a]. *)
Definition spreadEnv (a b : option Env) : Env :=
  fold_left (fun acc kv => env_set (fst kv) (snd kv) acc)
            (or_else b []) (or_else a []).

Definition mergeWithDefaults (params : ExtractedParams) : ExtractedParams :=
  let merged := spreadParams DEFAULT_PARAMS params in
  {| image := image merged;
     pullPolicy := pullPolicy merged;
     ports := ports merged;
     env := Some (spreadEnv (env DEFAULT_PARAMS) (env params));
     cpu := cpu merged;
     memory := memory merged;
     storage := storage merged;
     gpu := Some (spreadGpu (gpu DEFAULT_PARAMS) (gpu params));
     name := name merged;
     duration := duration merged;
     mode := mode merged;
     region := region merged;
     amount := amount merged;
     count := count merged |}.

(* ================================================================== *)
(** * JavaScript values and exceptions *)
(* ================================================================== *)

(** The plain data a YAML document parses to, and the object the
    generator builds before dumping it.  An object keeps its own
    properties in the order [Object.keys] lists them. *)
Inductive value : Type :=
| VUndef
| VNull
| VBool (b : bool)
| VNum (n : number)
| VStr (s : string)
| VArr (items : list value)
| VObj (fields : list (string * value)).

(** The outcome of evaluating a piece of code: a value or a thrown
    exception (with its message). *)
Inductive completion (A : Type) : Type :=
| Normal (a : A)
| Throw (message : string).
Arguments Normal {A} a.
Arguments Throw {A} message.

Definition bind {A B : Type} (c : completion A) (f : A -> completion B)
  : completion B :=
  match c with
  | Normal a => f a
  | Throw m => Throw m
  end.

Notation "x <- c ;; k" := (bind c (fun x => k))
  (at level 61, c at next level, right associativity).

Module Js.

(** ToBoolean *)
Definition truthy (v : value) : bool :=
  match v with
  | VUndef | VNull => false
  | VBool b => b
  | VNum n => JsNumber.truthy n
  | VStr s => negb (String.eqb s "")
  | VArr _ | VObj _ => true
  end.

Fixpoint assoc (k : string) (fs : list (string * value)) : option value :=
  match fs with
  | [] => None
  | (k', v) :: rest => if String.eqb k k' then Some v else assoc k rest
  end.

(** The canonical array-index property name of position [i]. *)
Definition index_key (i : nat) : string := toString (Int (Z.of_nat i)).

Fixpoint index_keys (from n : nat) : list string :=
  match n with
  | O => []
  | S n' => index_key from :: index_keys (S from) n'
  end.

Fixpoint item_at (k : string) (from : nat) (xs : list value) : option value :=
  match xs with
  | [] => None
  | x :: rest => if String.eqb k (index_key from) then Some x
                 else item_at k (S from) rest
  end.

Fixpoint char_at (k : string) (from : nat) (s : string) : option value :=
  match s with
  | EmptyString => None
  | String c rest => if String.eqb k (index_key from)
                     then Some (VStr (String c EmptyString))
                     else char_at k (S from) rest
  end.

Definition type_error (what key : string) : string :=
  "Cannot read properties of " ++ what ++ " (reading '" ++ key ++ "')".

(** Property read [v[k]] / [v.k].  Reading a property of [undefined]
    or [null] throws a TypeError; the only properties of arrays and
    strings are their indices and [length]. *)
Definition get (v : value) (k : string) : completion value :=
  match v with
  | VUndef => Throw (type_error "undefined" k)
  | VNull => Throw (type_error "null" k)
  | VBool _ | VNum _ => Normal VUndef
  | VStr s =>
      if String.eqb k "length" then Normal (VNum (Int (Z.of_nat (String.length s))))
      else Normal (or_else (char_at k 0 s) VUndef)
  | VArr xs =>
      if String.eqb k "length" then Normal (VNum (Int (Z.of_nat (List.length xs))))
      else Normal (or_else (item_at k 0 xs) VUndef)
  | VObj fs => Normal (or_else (assoc k fs) VUndef)
  end.

(** [Object.keys(v)] *)
Definition keys (v : value) : completion (list string) :=
  match v with
  | VUndef | VNull => Throw "Cannot convert undefined or null to object"
  | VBool _ | VNum _ => Normal []
  | VStr s => Normal (index_keys 0 (String.length s))
  | VArr xs => Normal (index_keys 0 (List.length xs))
  | VObj fs => Normal (map fst fs)
  end.

(** [ks[0]] used as a property name: an empty key list gives
    [undefined], which names the property "undefined". *)
Definition first_key (ks : list string) : string :=
  match ks with
  | k :: _ => k
  | [] => "undefined"
  end.

Fixpoint put (k : string) (x : value) (fs : list (string * value))
  : list (string * value) :=
  match fs with
  | [] => [(k, x)]
  | (k', v) :: rest =>
      if String.eqb k k' then (k', x) :: rest else (k', v) :: put k x rest
  end.

(** Property assignment [v.k = x] in strict mode, for a property name
    that is neither an index nor [length] (the generator only assigns
    fixed names).  Assigning to a property of [undefined], [null] or
    a primitive throws; a named property put on an array is not part
    of the data a dump shows, so the array is unchanged. *)
Definition assign (v : value) (k : string) (x : value) : completion value :=
  match v with
  | VUndef => Throw ("Cannot set properties of undefined (setting '" ++ k ++ "')")
  | VNull => Throw ("Cannot set properties of null (setting '" ++ k ++ "')")
  | VBool _ | VNum _ | VStr _ => Throw ("Cannot create property '" ++ k ++ "'")
  | VArr xs => Normal (VArr xs)
  | VObj fs => Normal (VObj (put k x fs))
  end.

Fixpoint replace_item (k : string) (from : nat) (x : value) (xs : list value)
  : list value :=
  match xs with
  | [] => []
  | y :: rest => if String.eqb k (index_key from) then x :: rest
                 else y :: replace_item k (S from) x rest
  end.

Fixpoint replace_field (k : string) (x : value) (fs : list (string * value))
  : list (string * value) :=
  match fs with
  | [] => []
  | (k', v) :: rest =>
      if String.eqb k k' then (k', x) :: rest
      else (k', v) :: replace_field k x rest
  end.

(** The parent [v] seen after its child [v[k]] was mutated into [x]. *)
Definition with_child (v : value) (k : string) (x : value) : value :=
  match v with
  | VObj fs => VObj (replace_field k x fs)
  | VArr xs => VArr (replace_item k 0 x xs)
  | _ => v
  end.

(** The child [v[k]] of a value that is known not to be nullish. *)
Definition child (v : value) (k : string) : value :=
  match get v k with
  | Normal c => c
  | Throw _ => VUndef
  end.

(** In-place mutation through a reference: with [o] the object reached
    from [root] along [path], perform [o.k = x] and return the root as
    it is seen afterwards.  A [value] is a tree, so [o] is reached along
    [path] only: this is the document of a text without YAML aliases,
    such as every text the dumper writes ([noRefs: true]). *)
Fixpoint assign_in (path : list string) (k : string) (x : value)
         (root : value) : completion value :=
  match path with
  | [] => assign root k x
  | p :: rest =>
      c <- assign_in rest k x (child root p) ;;
      Normal (with_child root p c)
  end.

(** Reading along a path of property names. *)
Fixpoint get_path (path : list string) (v : value) : completion value :=
  match path with
  | [] => Normal v
  | p :: rest => c <- get v p ;; get_path rest c
  end.

End Js.

(* ================================================================== *)
(** * yaml-generator/generator.ts *)
(* ================================================================== *)

Definition PullPolicy_str (p : PullPolicy) : string :=
  match p with
  | Always => "Always"
  | IfNotPresent => "IfNotPresent"
  | Never => "Never"
  end.

Definition Mode_str (m : Mode) : string :=
  match m with
  | provider => "provider"
  | fizz => "fizz"
  end.

Definition exposeEntry (p a : number) (g : bool) : value :=
  VObj [("port", VNum p); ("as", VNum a);
        ("to", VArr [VObj [("global", VBool g)]])].

Definition generateExposeConfig (params : ExtractedParams) : value :=
  match ports params with
  | Some ((_ :: _) as ps) =>
      VArr (map (fun p => exposeEntry (port p) (or_num (as_ p) (port p))
                                      (or_else (global p) true)) ps)
  | _ =>
      (* Default ports for Jupyter notebook *)
      VArr [exposeEntry (Int 8888) (Int 8888) true;
            exposeEntry (Int 3000) (Int 3000) true]
  end.

Definition generateEnvConfig (params : ExtractedParams) : value :=
  match env params with
  | Some e => VArr (map (fun kv => VStr (fst kv ++ "=" ++ snd kv)) e)
  | None => VArr [VStr "JUPYTER_TOKEN=test"]
  end.

Definition gpuResource (g : Gpu) : value :=
  VObj [("units", VNum (or_num (units g) (Int 1)));
        ("attributes",
          VObj [("vendor",
            VObj [("nvidia",
              VArr [VObj [("model", VStr (or_str (model g) "rtx6000-ada"))]])])])].

Definition generateResourcesConfig (params : ExtractedParams) : value :=
  let resources :=
    [("cpu", VObj [("units", VNum (or_num (cpu params) (Int 16)))]);
     ("memory", VObj [("size", VStr (or_str (memory params) "64Gi"))])] in
  (* Add storage *)
  let resources :=
    if truthy_str (storage params)
    then Js.put "storage" (VArr [VObj [("size", VStr (or_else (storage params) ""))]]) resources
    else Js.put "storage" (VArr [VObj [("size", VStr "500Gi")]]) resources in
  (* Add GPU if specified *)
  let resources :=
    match gpu params with
    | Some g => Js.put "gpu" (gpuResource g) resources
    | None => resources
    end in
  VObj resources.

(** The object [generateYaml] builds ([yamlConfig]). *)
Definition generateYamlConfig (params : ExtractedParams) : value :=
  let name_ := or_str (name params) "py-cuda" in
  let region_ := or_str (region params) "westcoast" in
  VObj [
    ("version", VStr "1.0");
    ("services", VObj [
      (name_, VObj [
        ("image", VStr (or_str (image params) jupyterImage));
        ("pull_policy", VStr (PullPolicy_str (or_else (pullPolicy params) IfNotPresent)));
        ("expose", generateExposeConfig params);
        ("env", generateEnvConfig params)])]);
    ("profiles", VObj [
      ("name", VStr name_);
      ("duration", VStr (or_str (duration params) "2h"));
      ("mode", VStr (Mode_str (or_else (mode params) provider)));
      ("compute", VObj [
        (name_, VObj [("resources", generateResourcesConfig params)])]);
      ("placement", VObj [
        (region_, VObj [
          ("pricing", VObj [
            (name_, VObj [
              ("token", VStr "CST");
              ("amount", VNum (or_num (amount params) (Int 15)))])])])])]);
    ("deployment", VObj [
      (name_, VObj [
        (region_, VObj [
          ("profile", VStr name_);
          ("count", VNum (or_num (count params) (Int 1)))])])])
  ].

(** Validation result [{ valid, errors }]. *)
Record Validation : Type := mkValidation {
  valid : bool;
  errors : list string
}.

Module Validate.
(** The body of the [try] block of [validateYaml] runs with the
    [errors] array as state; an exception leaves the errors pushed so
    far in place. *)
Definition M (A : Type) : Type := list string -> completion A * list string.

Definition ret {A : Type} (a : A) : M A := fun errs => (Normal a, errs).

Definition mbind {A B : Type} (m : M A) (f : A -> M B) : M B :=
  fun errs =>
    match m errs with
    | (Normal a, errs') => f a errs'
    | (Throw msg, errs') => (Throw msg, errs')
    end.

Definition lift {A : Type} (c : completion A) : M A := fun errs => (c, errs).

(** [errors.push(msg)] *)
Definition push (msg : string) : M unit := fun errs => (Normal tt, (errs ++ [msg])%list).

Definition when (b : bool) (m : M unit) : M unit := if b then m else ret tt.

(** [for (const x of xs) body(x)] *)
Fixpoint for_each {A : Type} (xs : list A) (body : A -> M unit) : M unit :=
  match xs with
  | [] => ret tt
  | x :: rest => mbind (body x) (fun _ => for_each rest body)
  end.
End Validate.

Notation "x <~ c ;; k" := (Validate.mbind c (fun x => k))
  (at level 61, c at next level, right associativity).
Notation "c ;;; k" := (Validate.mbind c (fun _ => k))
  (at level 61, right associativity).

Definition quote : string := String (ascii_of_nat 34) EmptyString.

Definition version_error : string :=
  "Version must be " ++ quote ++ "1.0" ++ quote.

Definition pricing_error (region : string) : string :=
  "Pricing must be defined for region " ++ quote ++ region ++ quote.

Definition token_error (profile region : string) : string :=
  "Token must be " ++ quote ++ "CST" ++ quote ++ " for profile " ++ quote
  ++ profile ++ quote ++ " in region " ++ quote ++ region ++ quote.

(** [!v || Object.keys(v).length === 0] *)
Definition missing_or_empty (v : value) : completion bool :=
  if negb (Js.truthy v) then Normal true
  else ks <- Js.keys v ;; Normal (Nat.eqb (List.length ks) 0).

(** [v !== s] for a string literal [s]. *)
Definition not_strict_eq_str (v : value) (s : string) : bool :=
  match v with
  | VStr t => negb (String.eqb t s)
  | _ => true
  end.

Import Validate.

Definition checkPricing (region : string) (placement : value) : M unit :=
  pricing <~ lift (Js.get placement "pricing") ;;
  empty <~ lift (missing_or_empty pricing) ;;
  if empty then push (pricing_error region)
  else
    profiles <~ lift (Js.keys pricing) ;;
    for_each profiles (fun profile =>
      entry <~ lift (Js.get pricing profile) ;;
      token <~ lift (Js.get entry "token") ;;
      when (not_strict_eq_str token "CST") (push (token_error profile region))).

Definition checkProfiles (profiles : value) : M unit :=
  if negb (Js.truthy profiles) then push "Profiles must be defined"
  else
    duration_ <~ lift (Js.get profiles "duration") ;;
    when (negb (Js.truthy duration_)) (push "Duration must be specified") ;;;
    mode_ <~ lift (Js.get profiles "mode") ;;
    when (negb (Js.truthy mode_)) (push "Mode must be specified") ;;;
    compute <~ lift (Js.get profiles "compute") ;;
    noCompute <~ lift (missing_or_empty compute) ;;
    when noCompute (push "Compute resources must be defined") ;;;
    placement <~ lift (Js.get profiles "placement") ;;
    noPlacement <~ lift (missing_or_empty placement) ;;
    if noPlacement then push "Placement must be defined"
    else
      regions <~ lift (Js.keys placement) ;;
      for_each regions (fun region =>
        p <~ lift (Js.get placement region) ;;
        checkPricing region p).

(** The statements of the [try] block after the document was parsed. *)
Definition validateConfig (config : value) : M unit :=
  (* Check version *)
  version <~ lift (Js.get config "version") ;;
  when (not_strict_eq_str version "1.0") (push version_error) ;;;
  (* Check services *)
  services <~ lift (Js.get config "services") ;;
  noServices <~ lift (missing_or_empty services) ;;
  when noServices (push "At least one service must be defined") ;;;
  (* Check profiles *)
  profiles <~ lift (Js.get config "profiles") ;;
  checkProfiles profiles ;;;
  (* Check deployment *)
  deployment <~ lift (Js.get config "deployment") ;;
  noDeployment <~ lift (missing_or_empty deployment) ;;
  when noDeployment (push "Deployment must be defined").

Section Yaml.
(** The js-yaml codec: [yaml.dump] on plain data and [yaml.load],
    which throws on text that is not YAML. *)
Variable yaml_dump : value -> string.
Variable yaml_load : string -> completion value.

Definition generateYaml (params : ExtractedParams) : string :=
  yaml_dump (generateYamlConfig params).

Definition validateYaml (yamlConfig : string) : Validation :=
  let '(outcome, errors) :=
    (config <~ lift (yaml_load yamlConfig) ;; validateConfig config) [] in
  let errors :=
    match outcome with
    | Normal _ => errors
    | Throw message => (errors ++ [("Invalid YAML: " ++ message)%string])%list
    end in
  mkValidation (Nat.eqb (List.length errors) 0) errors.

(** [if (c) root.path.k = x] *)
Definition assign_when (c : bool) (path : list string) (k : string)
           (x : value) (config : value) : completion value :=
  if c then Js.assign_in path k x config else Normal config.

Definition updateServices (params : ExtractedParams) (config : value)
  : completion value :=
  services <- Js.get config "services" ;;
  if Js.truthy services then
    ks <- Js.keys services ;;
    let serviceName := Js.first_key ks in
    let service := ["services"; serviceName] in
    config <- assign_when (truthy_str (image params)) service "image"
                (VStr (or_else (image params) "")) config ;;
    config <- assign_when (isSome (pullPolicy params)) service "pull_policy"
                (VStr (PullPolicy_str (or_else (pullPolicy params) IfNotPresent)))
                config ;;
    config <- assign_when (isSome (ports params)) service "expose"
                (generateExposeConfig params) config ;;
    assign_when (isSome (env params)) service "env"
                (generateEnvConfig params) config
  else Normal config.

Definition updateCompute (params : ExtractedParams) (config : value)
  : completion value :=
  computeAll <- Js.get_path ["profiles"; "compute"] config ;;
  if Js.truthy computeAll then
    ks <- Js.keys computeAll ;;
    let computeName := Js.first_key ks in
    compute <- Js.get computeAll computeName ;;
    resources <- Js.get compute "resources" ;;
    if Js.truthy resources then
      let path := ["profiles"; "compute"; computeName; "resources"] in
      config <- assign_when (truthy_num (cpu params)) path "cpu"
                  (VObj [("units", VNum (or_else (cpu params) NaN))]) config ;;
      config <- assign_when (truthy_str (memory params)) path "memory"
                  (VObj [("size", VStr (or_else (memory params) ""))]) config ;;
      config <- assign_when (truthy_str (storage params)) path "storage"
                  (VArr [VObj [("size", VStr (or_else (storage params) ""))]])
                  config ;;
      assign_when (isSome (gpu params)) path "gpu"
                  (gpuResource (or_else (gpu params) emptyGpu)) config
    else Normal config
  else Normal config.

Definition updatePlacement (params : ExtractedParams) (config : value)
  : completion value :=
  placementAll <- Js.get_path ["profiles"; "placement"] config ;;
  if Js.truthy placementAll then
    ks <- Js.keys placementAll ;;
    let regionName := Js.first_key ks in
    placement <- Js.get placementAll regionName ;;
    pricingAll <- Js.get placement "pricing" ;;
    if Js.truthy pricingAll then
      ks <- Js.keys pricingAll ;;
      let pricingName := Js.first_key ks in
      let pricing := ["profiles"; "placement"; regionName; "pricing"; pricingName] in
      (* Always set token to CST *)
      config <- Js.assign_in pricing "token" (VStr "CST") config ;;
      assign_when (truthy_num (amount params)) pricing "amount"
                  (VNum (or_else (amount params) NaN)) config
    else Normal config
  else Normal config.

Definition updateProfiles (params : ExtractedParams) (config : value)
  : completion value :=
  profiles <- Js.get config "profiles" ;;
  if Js.truthy profiles then
    config <- assign_when (truthy_str (name params)) ["profiles"] "name"
                (VStr (or_else (name params) "")) config ;;
    config <- assign_when (truthy_str (duration params)) ["profiles"] "duration"
                (VStr (or_else (duration params) "")) config ;;
    config <- assign_when (isSome (mode params)) ["profiles"] "mode"
                (VStr (Mode_str (or_else (mode params) provider))) config ;;
    (* Update compute resources *)
    config <- updateCompute params config ;;
    (* Update placement *)
    updatePlacement params config
  else Normal config.

Definition updateDeployment (params : ExtractedParams) (config : value)
  : completion value :=
  deploymentAll <- Js.get config "deployment" ;;
  if Js.truthy deploymentAll then
    ks <- Js.keys deploymentAll ;;
    let deploymentName := Js.first_key ks in
    deployment <- Js.get deploymentAll deploymentName ;;
    ks <- Js.keys deployment ;;
    let regionName := Js.first_key ks in
    let region := ["deployment"; deploymentName; regionName] in
    config <- assign_when (truthy_str (name params)) region "profile"
                (VStr (or_else (name params) "")) config ;;
    assign_when (truthy_num (count params)) region "count"
                (VNum (or_else (count params) NaN)) config
  else Normal config.

(** The statements of the [try] block of [updateYaml] between the
    parse and the dump. *)
Definition updateConfig (params : ExtractedParams) (config : value)
  : completion value :=
  config <- updateServices params config ;;
  config <- updateProfiles params config ;;
  updateDeployment params config.

Definition updateYaml (existingYaml : string) (params : ExtractedParams)
  : string :=
  match (config <- yaml_load existingYaml ;; updateConfig params config) with
  | Normal config => yaml_dump config
  | Throw _ =>
      (* If updating fails, generate a new YAML *)
      generateYaml params
  end.
End Yaml.

(* ================================================================== *)
(** * natural-language-processor: claude-processor.ts and index.ts *)
(* ================================================================== *)

(** A block of [response.content]; only text blocks carry a [text]. *)
Inductive ContentBlock : Type :=
| TextBlock (text : string)
| OtherBlock.

(** The pattern [/\{[\s\S]*\}/] (no flags). *)
Definition JSON_OBJECT_REGEX : regex :=
  seqs [Chr "{"; StarC is_any; Chr "}"].

Record Processed : Type := mkProcessed {
  params : ExtractedParams;
  missingParams : list string
}.

Definition fallbackQuestion (missing : list string) : string :=
  "I need some additional information to complete your deployment. "
  ++ "Could you please provide: " ++ join ", " missing ++ "?".

Section Claude.
(** [JSON.parse] read at the type [ExtractedParams]; a syntax error
    is a thrown exception. *)
Variable JSON_parse : string -> completion ExtractedParams.
(** [client.messages.create] for the enhancement prompt built from the
    description and the extracted parameters: the [content] of the
    reply, or the rejection of the request. *)
Variable enhance_request :
  string -> ExtractedParams -> completion (list ContentBlock).
(** The same call for the follow-up prompt built from the missing
    labels and the description. *)
Variable followup_request :
  list string -> string -> completion (list ContentBlock).

Definition parseClaudeResponse (response : string)
           (originalParams : ExtractedParams) : ExtractedParams :=
  match exec false JSON_OBJECT_REGEX response with
  | Some jsonMatch =>
      match JSON_parse (matched jsonMatch) with
      | Normal enhancedParams =>
          if negb (isSome (amount enhancedParams)) then
            set_amount enhancedParams
                       (Some (or_num (amount originalParams) (Int 15)))
          else enhancedParams
      | Throw _ => originalParams
      end
  | None => originalParams
  end.

(** [const content = response.content[0];
     const text = 'text' in content ? content.text : '';]
    An empty [content] makes the [in] test throw. *)
Definition firstText (content : list ContentBlock) : completion string :=
  match content with
  | [] => Throw "Cannot use 'in' operator to search for 'text' in undefined"
  | TextBlock text :: _ => Normal text
  | OtherBlock :: _ => Normal ""
  end.

Definition enhanceWithClaude (description : string)
           (extractedParams : ExtractedParams) : ExtractedParams :=
  match (content <- enhance_request description extractedParams ;;
         text <- firstText content ;;
         Normal (parseClaudeResponse text extractedParams)) with
  | Normal enhancedParams => enhancedParams
  | Throw _ =>
      (* Return original params if Claude API fails *)
      extractedParams
  end.

Definition processDescription (description : string)
           (claudeApiKey : option string) : Processed :=
  let params := extractFromDescription description in
  let params :=
    if truthy_str claudeApiKey
    then enhanceWithClaude description params
    else params in
  let missingParams := identifyMissingParams params in
  let params :=
    if Nat.eqb (List.length missingParams) 0
    then mergeWithDefaults params
    else params in
  mkProcessed params missingParams.

Definition generateFollowUpQuestion (missingParams : list string)
           (description : string) : string :=
  if Nat.eqb (List.length missingParams) 0 then ""
  else
    match (content <- followup_request missingParams description ;;
           firstText content) with
    | Normal text => trim text
    | Throw _ => fallbackQuestion missingParams
    end.

Definition generateQuestion (missingParams : list string)
           (description : string) (claudeApiKey : option string) : string :=
  if Nat.eqb (List.length missingParams) 0 then ""
  else if truthy_str claudeApiKey
  then generateFollowUpQuestion missingParams description
  else fallbackQuestion missingParams.
End Claude.

(* ================================================================== *)
(** * conversation/state-manager.ts *)
(* ================================================================== *)

Record ConversationState : Type := mkConversation {
  id : string;
  originalDescription : string;
  currentParams : ExtractedParams;
  missing : list string;
  history : list (string * string);
  complete : bool
}.

(** The module-level [Map<string, ConversationState>]. *)
Definition Store : Type := list (string * ConversationState).

Module Conversation.

Fixpoint store_get (k : string) (st : Store) : option ConversationState :=
  match st with
  | [] => None
  | (k', c) :: rest => if String.eqb k k' then Some c else store_get k rest
  end.

Fixpoint store_set (k : string) (c : ConversationState) (st : Store) : Store :=
  match st with
  | [] => [(k, c)]
  | (k', c') :: rest =>
      if String.eqb k k' then (k', c) :: rest
      else (k', c') :: store_set k c rest
  end.

Fixpoint store_delete (k : string) (st : Store) : Store :=
  match st with
  | [] => []
  | (k', c') :: rest =>
      if String.eqb k k' then rest else (k', c') :: store_delete k rest
  end.

(** [createConversation]; the generated identifier is an argument. *)
Definition createConversation (freshId description : string)
           (params : ExtractedParams) (missingParams : list string)
           (st : Store) : ConversationState * Store :=
  let state :=
    mkConversation freshId description params missingParams []
                   (Nat.eqb (List.length missingParams) 0) in
  (state, store_set freshId state st).

Definition getConversation (conversationId : string) (st : Store)
  : option ConversationState := store_get conversationId st.

Definition updateConversation (conversationId question answer : string)
           (updatedParams : ExtractedParams) (missingParams : list string)
           (st : Store) : option ConversationState * Store :=
  match store_get conversationId st with
  | None => (None, st)
  | Some state =>
      let state :=
        mkConversation (id state)
                       (originalDescription state)
                       updatedParams missingParams
                       (history state ++ [(question, answer)])%list
                       (Nat.eqb (List.length missingParams) 0) in
      (Some state, store_set conversationId state st)
  end.

Definition completeConversation (conversationId : string) (st : Store)
  : option ConversationState * Store :=
  match store_get conversationId st with
  | None => (None, st)
  | Some state =>
      let state :=
        mkConversation (id state)
                       (originalDescription state) (currentParams state)
                       (missing state) (history state) true in
      (Some state, store_set conversationId state st)
  end.

Definition deleteConversation (conversationId : string) (st : Store) : bool * Store :=
  (isSome (store_get conversationId st), store_delete conversationId st).

End Conversation.
Import Conversation.

(* ================================================================== *)
(** * index.ts: the [natural_to_yaml] operation *)
(* ================================================================== *)

(** The two shapes of a successful reply. *)
Inductive ToolResponse : Type :=
| AskQuestion (conversation_id question : string) (missing_params : list string)
| Document (conversation_id yaml : string) (valid_ : bool) (errors_ : list string).

Section Handler.
Variable yaml_dump : value -> string.
Variable yaml_load : string -> completion value.
Variable JSON_parse : string -> completion ExtractedParams.
Variable enhance_request :
  string -> ExtractedParams -> completion (list ContentBlock).
Variable followup_request :
  list string -> string -> completion (list ContentBlock).
(** [process.env.CLAUDE_API_KEY] *)
Variable CLAUDE_API_KEY : option string.

Let process := processDescription JSON_parse enhance_request.
Let ask := generateQuestion followup_request.

(** [`${conversation.originalDescription} ${answer}`] *)
Definition combinedDescription (conversation : ConversationState)
           (answer : string) : string :=
  originalDescription conversation ++ " " ++ answer.

(** [{ ...conversation.currentParams, ...params }] *)
Definition updatedParams (conversation : ConversationState)
           (answer : string) : ExtractedParams :=
  spreadParams (currentParams conversation)
               (params (process (combinedDescription conversation answer)
                                CLAUDE_API_KEY)).

Definition renderDocument (existingYaml : option string)
           (params : ExtractedParams) : string :=
  if truthy_str existingYaml
  then updateYaml yaml_dump yaml_load (or_else existingYaml "") params
  else generateYaml yaml_dump params.

(** The branch [if (conversationId && answer)]. *)
Definition answerTurn (conversationId answer : string)
           (existingYaml : option string) (st : Store)
  : completion (ToolResponse * Store) :=
  match getConversation conversationId st with
  | None => Throw ("Conversation not found: " ++ conversationId)
  | Some conversation =>
      (* Process the answer to update parameters *)
      let combined := combinedDescription conversation answer in
      let r := process combined CLAUDE_API_KEY in
      (* Merge with current parameters *)
      let updated := updatedParams conversation answer in
      (* Update conversation state *)
      let lastQuestion :=
        match rev (history conversation) with
        | (question, _) :: _ => question
        | [] => ""
        end in
      let st :=
        snd (updateConversation conversationId lastQuestion answer updated
                                (missingParams r) st) in
      if (0 <? List.length (missingParams r))%nat then
        let question := ask (missingParams r) combined CLAUDE_API_KEY in
        Normal (AskQuestion conversationId question (missingParams r), st)
      else
        let yamlContent := renderDocument existingYaml updated in
        let validation := validateYaml yaml_load yamlContent in
        (* Mark conversation as complete *)
        let st := snd (completeConversation conversationId st) in
        Normal (Document conversationId yamlContent
                         (valid validation) (errors validation), st)
  end.

(** The branch [else if (description)]; [freshId] is the identifier
    [createConversation] generates. *)
Definition startTurn (freshId description : string)
           (existingYaml : option string) (st : Store)
  : completion (ToolResponse * Store) :=
  let r := process description CLAUDE_API_KEY in
  let '(conversation, st) :=
    createConversation freshId description (params r) (missingParams r) st in
  if (0 <? List.length (missingParams r))%nat then
    let question := ask (missingParams r) description CLAUDE_API_KEY in
    Normal (AskQuestion (id conversation) question (missingParams r), st)
  else
    let yamlContent := renderDocument existingYaml (params r) in
    let validation := validateYaml yaml_load yamlContent in
    let st := snd (completeConversation (id conversation) st) in
    Normal (Document (id conversation) yamlContent
                     (valid validation) (errors validation), st).

Definition natural_to_yaml (freshId : string)
           (description conversationId answer existingYaml : option string)
           (st : Store) : completion (ToolResponse * Store) :=
  if truthy_str conversationId && truthy_str answer then
    answerTurn (or_else conversationId "") (or_else answer "") existingYaml st
  else if truthy_str description then
    startTurn freshId (or_else description "") existingYaml st
  else
    Throw "Either description or conversation_id and answer must be provided".
End Handler.

(* ================================================================== *)
(** * index.ts and scripts/check-node-version.js: the version check *)
(* ================================================================== *)

Module Version.

(** [s.split(sep)] for a one-character separator: the pieces between
    the separators, the empty text giving one empty piece. *)
Fixpoint split (sep : ascii) (s : string) : list string :=
  match s with
  | EmptyString => [""]
  | String c rest =>
      if Ascii.eqb c sep then "" :: split sep rest
      else
        match split sep rest with
        | piece :: pieces => String c piece :: pieces
        | [] => [String c ""]
        end
  end.

(** [a > b] and [a < b] on numbers: false as soon as one side is
    [NaN]. *)
Definition gtb (a b : number) : bool :=
  match a, b with
  | Int x, Int y => Z.ltb y x
  | Infinity false, Int _ | Int _, Infinity true => true
  | Infinity false, Infinity true => true
  | _, _ => false
  end.

Definition ltb (a b : number) : bool :=
  match a, b with
  | Int x, Int y => Z.ltb x y
  | Infinity true, Int _ | Int _, Infinity false => true
  | Infinity true, Infinity false => true
  | _, _ => false
  end.


Section Versions.
(** The [Number] conversion applied to each piece of a version. *)
Variable toNumber : string -> number.

(** The loop of [compareVersions] from index [i], with [steps]
    iterations left. *)
Fixpoint compareFrom (v1Parts v2Parts : list number) (i steps : nat) : Z :=
  match steps with
  | O => 0
  | S steps' =>
      let v1Part := or_num (nth_error v1Parts i) (Int 0) in
      let v2Part := or_num (nth_error v2Parts i) (Int 0) in
      if gtb v1Part v2Part then 1
      else if ltb v1Part v2Part then -1
      else compareFrom v1Parts v2Parts (S i) steps'
  end.

Definition compareVersions (v1 v2 : string) : Z :=
  let v1Parts := map toNumber (split "." v1) in
  let v2Parts := map toNumber (split "." v2) in
  compareFrom v1Parts v2Parts 0
              (Nat.max (List.length v1Parts) (List.length v2Parts)).

End Versions.

End Version.

(* ================================================================== *)
(** * index.ts: token decimals *)
(* ================================================================== *)

Definition tokenDecimals : list (string * number) :=
  [("CST", Int 6); ("USDC", Int 6); ("ETH", Int 18); ("MATIC", Int 18)].

(** [table[k]] on an object literal with number values. *)
Fixpoint property (k : string) (table : list (string * number)) : option number :=
  match table with
  | [] => None
  | (k', n) :: rest => if String.eqb k k' then Some n else property k rest
  end.

(** [tokenDecimals[token.toUpperCase()] || 6]; an upper-cased name is
    never one of the inherited property names, which all have small
    letters. *)
Definition getTokenDecimals (token : string) : number :=
  or_num (property (toUpperCase token) tokenDecimals) (Int 6).

(* ================================================================== *)
(** * utils/logger.ts *)
(* ================================================================== *)

Module LogLevel.
Definition ERROR : Z := 0.
Definition WARN : Z := 1.
Definition INFO : Z := 2.
Definition DEBUG : Z := 3.
End LogLevel.

Definition DEFAULT_LOG_LEVEL : Z := LogLevel.INFO.

(** [getLogLevel], with [process.env.SPHERON_LOG_LEVEL] as argument. *)
Definition getLogLevel (envLevel : option string) : Z :=
  match envLevel with
  | Some level =>
      if negb (String.eqb level "") then
        let lowered := toLowerCase level in
        if String.eqb lowered "error" then LogLevel.ERROR
        else if String.eqb lowered "warn" then LogLevel.WARN
        else if String.eqb lowered "info" then LogLevel.INFO
        else if String.eqb lowered "debug" then LogLevel.DEBUG
        else
          (* Try to parse as number *)
          match parseInt level with
          | Int numLevel =>
              if (0 <=? numLevel)%Z && (numLevel <=? 3)%Z then numLevel
              else DEFAULT_LOG_LEVEL
          | NaN | Infinity _ => DEFAULT_LOG_LEVEL
          end
      else DEFAULT_LOG_LEVEL
  | None => DEFAULT_LOG_LEVEL
  end.

(** The optional third argument of [error]: an [Error] object with its
    message and stack, or any other value. *)
Inductive Thrown : Type :=
| ErrorObject (message : string) (stack : option string)
| OtherValue (v : value).

(** One call of the console, with its arguments. *)
Inductive ConsoleCall : Type :=
| console_error (args : list value)
| console_warn (args : list value).

Module Logger.

Definition formatLogMessage (timestamp category message : string) : string :=
  "[" ++ timestamp ++ "] [" ++ category ++ "] " ++ message.

Section Calls.
(** [process.env.SPHERON_LOG_LEVEL] when the module is loaded, and the
    reading of the clock at a call. *)
Variable SPHERON_LOG_LEVEL : option string.
Variable timestamp : string.

Definition currentLogLevel : Z := getLogLevel SPHERON_LOG_LEVEL.

Definition error (category message : string) (err : option Thrown)
  : list ConsoleCall :=
  if (currentLogLevel >=? LogLevel.ERROR)%Z then
    let formattedMessage := formatLogMessage timestamp category message in
    match err with
    | Some (ErrorObject errorMessage stack) =>
        console_error [VStr formattedMessage; VStr errorMessage]
        :: (if truthy_str stack
            then [console_error [VStr (or_else stack "")]]
            else [])
    | Some (OtherValue v) =>
        if Js.truthy v then [console_error [VStr formattedMessage; v]]
        else [console_error [VStr formattedMessage]]
    | None => [console_error [VStr formattedMessage]]
    end
  else [].

Definition warn (category message : string) : list ConsoleCall :=
  if (currentLogLevel >=? LogLevel.WARN)%Z
  then [console_warn [VStr (formatLogMessage timestamp category message)]]
  else [].

Definition info (category message : string) : list ConsoleCall :=
  if (currentLogLevel >=? LogLevel.INFO)%Z
  then [console_error [VStr (formatLogMessage timestamp category message)]]
  else [].

Definition debug (category message : string) : list ConsoleCall :=
  if (currentLogLevel >=? LogLevel.DEBUG)%Z
  then [console_error [VStr (formatLogMessage timestamp category message)]]
  else [].
End Calls.

End Logger.

(* ================================================================== *)
(** * Specification-side definitions *)
(* ================================================================== *)

(** ** What a pattern denotes *)

(** [Matches ci r w]: the text [w] belongs to the language of [r]. *)
Inductive Matches (ci : bool) : regex -> string -> Prop :=
| MEps : Matches ci Eps ""
| MChr c x : char_matches ci c x = true -> Matches ci (Chr c) (String x "")
| MCls p x : class_matches ci p x = true -> Matches ci (Cls p) (String x "")
| MSeq r1 r2 w1 w2 :
    Matches ci r1 w1 -> Matches ci r2 w2 -> Matches ci (Seq r1 r2) (w1 ++ w2)
| MAltL r1 r2 w : Matches ci r1 w -> Matches ci (Alt r1 r2) w
| MAltR r1 r2 w : Matches ci r2 w -> Matches ci (Alt r1 r2) w
| MStar p w : all_chars (class_matches ci p) w = true -> Matches ci (StarC p) w
| MGrp i r w : Matches ci r w -> Matches ci (Grp i r) w.

(** [Captured ci r i w]: some group numbered [i] inside [r] can hold [w]. *)
Inductive Captured (ci : bool) : regex -> nat -> string -> Prop :=
| CHere i r w : Matches ci r w -> Captured ci (Grp i r) i w
| CInner j r i w : Captured ci r i w -> Captured ci (Grp j r) i w
| CSeqL r1 r2 i w : Captured ci r1 i w -> Captured ci (Seq r1 r2) i w
| CSeqR r1 r2 i w : Captured ci r2 i w -> Captured ci (Seq r1 r2) i w
| CAltL r1 r2 i w : Captured ci r1 i w -> Captured ci (Alt r1 r2) i w
| CAltR r1 r2 i w : Captured ci r2 i w -> Captured ci (Alt r1 r2) i w.

(** [Binds r i]: every match of [r] goes through a group numbered [i]. *)
Fixpoint Binds (r : regex) (i : nat) : Prop :=
  match r with
  | Grp j r1 => i = j \/ Binds r1 i
  | Seq r1 r2 => Binds r1 i \/ Binds r2 i
  | Alt r1 r2 => Binds r1 i /\ Binds r2 i
  | _ => False
  end.

(** ** Order of a list of labels *)

(** [Subseq xs ys]: [xs] is [ys] with some elements left out, in the
    same order. *)
Inductive Subseq {A : Type} : list A -> list A -> Prop :=
| SubNil : Subseq [] []
| SubSkip x xs ys : Subseq xs ys -> Subseq xs (x :: ys)
| SubKeep x xs ys : Subseq xs ys -> Subseq (x :: xs) (x :: ys).

(** The labels of the missing-parameter list, in their fixed order. *)
Definition missingLabels : list string :=
  ["CPU cores"; "memory (RAM)"; "storage"; "duration"; "GPU model"].

(** ** Paths into a document *)





(** The first own property name of a mapping. *)
Definition firstKeyOf (v : value) : string :=
  match Js.keys v with
  | Normal ks => Js.first_key ks
  | Throw _ => "undefined"
  end.

(** Where the pricing entry [updateYaml] touches lives in [config]. *)
Definition pricingPath (config : value) : list string :=
  let placementAll := Js.child (Js.child config "profiles") "placement" in
  let regionName := firstKeyOf placementAll in
  let pricingAll := Js.child (Js.child placementAll regionName) "pricing" in
  ["profiles"; "placement"; regionName; "pricing"; firstKeyOf pricingAll].

Definition tokenPath (config : value) : list string :=
  (pricingPath config ++ ["token"])%list.

(** No [undefined] anywhere in a value. *)
Fixpoint defined (v : value) : bool :=
  match v with
  | VUndef => false
  | VArr xs => forallb defined xs
  | VObj fs => forallb (fun kv => defined (snd kv)) fs
  | _ => true
  end.

(** ** The merge the specification words describe *)

(** "Old keys not overridden are preserved", read on the GPU
    sub-object: a unit count or model of the old GPU that the new
    extraction does not provide is still there after the merge. *)
Definition preservesOldGpuKeys (old new merged : ExtractedParams) : Prop :=
  forall g_old, gpu old = Some g_old ->
    exists g, gpu merged = Some g
      /\ (forall m, model g_old = Some m ->
            model (or_else (gpu new) emptyGpu) = None -> model g = Some m)
      /\ (forall u, units g_old = Some u ->
            units (or_else (gpu new) emptyGpu) = None -> units g = Some u).

(** Shallow override of one optional property. *)
Definition overrides {A : Type} (old new merged : option A) : Prop :=
  merged = match new with Some v => Some v | None => old end.

(** ** Vocabulary of the statements and examples *)

(** The keywords of [REGION_REGEX], in lower case. *)
Definition regionKeywords : list string :=
  ["us-east"; "us-west"; "eu-west"; "eu-central"; "ap-southeast";
   "ap-northeast"; "westcoast"; "eastcoast"].


(** The units a canonical duration string ends with. *)
Definition durationUnits : list string := ["h"; "d"; "mon"].

(** The units of [DURATION_REGEX], in lower case and singular. *)
Definition durationWords : list string :=
  ["hour"; "hr"; "day"; "week"; "month"].

(** The canonical duration string of [n] units named [w], and the
    hours one such unit lasts (day = 24 h, week = 7 days, month = 30
    days). *)
Definition canonicalDuration (n : Z) (w : string) : string :=
  if String.eqb w "hour" || String.eqb w "hr" then toString (Int n) ++ "h"
  else if String.eqb w "day" then toString (Int n) ++ "d"
  else if String.eqb w "week" then toString (Int (n * 7)) ++ "d"
  else toString (Int n) ++ "mon".

Definition hoursPer (w : string) : Z :=
  if String.eqb w "hour" || String.eqb w "hr" then 1
  else if String.eqb w "day" then 24
  else if String.eqb w "week" then 7 * 24
  else 30 * 24.

(** The path of the price amount in a rendered document. *)
Definition amountPath (params : ExtractedParams) : list string :=
  ["profiles"; "placement"; or_str (region params) "westcoast"; "pricing";
   or_str (name params) "py-cuda"; "amount"].

(** The image names a GPU workload: it contains "cuda", "pytorch" or
    "tensorflow". *)
Definition gpuWorkloadImage (params : ExtractedParams) : Prop :=
  exists img, image params = Some img
    /\ (includes img "cuda" = true \/ includes img "pytorch" = true
        \/ includes img "tensorflow" = true).

(** A remote model that cannot be reached, and a parser that rejects
    every text: the environment of a run without enhancement. *)
Definition noParse (_ : string) : completion ExtractedParams :=
  Throw "Unexpected end of JSON input".

Definition noEnhance (_ : string) (_ : ExtractedParams)
  : completion (list ContentBlock) := Throw "connection refused".

Definition noFollowup (_ : list string) (_ : string)
  : completion (list ContentBlock) := Throw "connection refused".

(** A conversation about "8 cores" whose first answer was "a100": the
    current parameters hold the GPU {units 1, model a100}. *)
Definition a100Conversation : ConversationState := {|
  id := "conv_1";
  originalDescription := "8 cores";
  currentParams := extractFromDescription "8 cores a100";
  missing := ["memory (RAM)"; "storage"; "duration"];
  history := [("", "a100")];
  complete := false
|}.

(** The reply holds no parseable object: the pattern finds no braces,
    or the text between the braces is not JSON. *)
Definition noParseableObject
           (JSON_parse : string -> completion ExtractedParams)
           (text : string) : Prop :=
  match exec false JSON_OBJECT_REGEX text with
  | None => True
  | Some jsonMatch => exists message, JSON_parse (matched jsonMatch) = Throw message
  end.

(** [JSON.parse] on the two texts used below. *)
Definition tinyParse (s : string) : completion ExtractedParams :=
  if String.eqb s "{}" then Normal emptyParams
  else Throw "Unexpected token".

Definition proseReply (_ : string) (_ : ExtractedParams)
  : completion (list ContentBlock) :=
  Normal [TextBlock "Here you are: {} (nothing to add)"].

(** The path of the GPU block in a rendered document. *)
Definition gpuPath (params : ExtractedParams) : list string :=
  ["profiles"; "compute"; or_str (name params) "py-cuda"; "resources"; "gpu"].

(** A validation step only ever adds to the error list. *)
Definition extends {A : Type} (m : Validate.M A) : Prop :=
  forall errs, exists more, snd (m errs) = (errs ++ more)%list.


(** The shape of every rendered document. *)
Definition documentOf (name_ region_ duration_ mode_ : string)
           (service resources amount_ entry : value) : value :=
  VObj [
    ("version", VStr "1.0");
    ("services", VObj [(name_, service)]);
    ("profiles", VObj [
      ("name", VStr name_);
      ("duration", VStr duration_);
      ("mode", VStr mode_);
      ("compute", VObj [(name_, VObj [("resources", resources)])]);
      ("placement", VObj [
        (region_, VObj [
          ("pricing", VObj [
            (name_, VObj [("token", VStr "CST"); ("amount", amount_)])])])])]);
    ("deployment", VObj [(name_, VObj [(region_, entry)])])
  ].

(** A dump/load pair on real text, standing in for the YAML codec where
    an example needs one: values are written as S-expressions and read
    back. *)
Fixpoint sexp_of_value (v : value) : CeresS.sexp :=
  match v with
  | VUndef => CeresS.Atom_ (CeresS.Raw "undefined")
  | VNull => CeresS.Atom_ (CeresS.Raw "null")
  | VBool b => CeresS.Atom_ (CeresS.Raw (if b then "true" else "false"))
  | VNum NaN => CeresS.Atom_ (CeresS.Raw "nan")
  | VNum (Infinity s) => CeresS.Atom_ (CeresS.Raw (if s then "-inf" else "inf"))
  | VNum (Int z) => CeresS.Atom_ (CeresS.Num z)
  | VStr s => CeresS.Atom_ (CeresS.Str s)
  | VArr xs =>
      CeresS.List (CeresS.Atom_ (CeresS.Raw "seq") :: map sexp_of_value xs)
  | VObj fs =>
      CeresS.List
        (CeresS.Atom_ (CeresS.Raw "map")
         :: map (fun kv => CeresS.List [CeresS.Atom_ (CeresS.Str (fst kv));
                                        sexp_of_value (snd kv)]) fs)
  end.

Definition value_of_raw (s : string) : option value :=
  if String.eqb s "undefined" then Some VUndef
  else if String.eqb s "null" then Some VNull
  else if String.eqb s "true" then Some (VBool true)
  else if String.eqb s "false" then Some (VBool false)
  else if String.eqb s "nan" then Some (VNum NaN)
  else if String.eqb s "inf" then Some (VNum (Infinity false))
  else if String.eqb s "-inf" then Some (VNum (Infinity true))
  else None.

Fixpoint value_of_sexp (e : CeresS.sexp) : option value :=
  match e with
  | CeresS.Atom_ (CeresS.Raw s) => value_of_raw s
  | CeresS.Atom_ (CeresS.Num z) => Some (VNum (Int z))
  | CeresS.Atom_ (CeresS.Str s) => Some (VStr s)
  | CeresS.List (CeresS.Atom_ (CeresS.Raw tag) :: es) =>
      if String.eqb tag "seq" then
        option_map VArr
          ((fix items (es : list CeresS.sexp) : option (list value) :=
              match es with
              | [] => Some []
              | e :: rest =>
                  match value_of_sexp e, items rest with
                  | Some v, Some vs => Some (v :: vs)
                  | _, _ => None
                  end
              end) es)
      else if String.eqb tag "map" then
        option_map VObj
          ((fix fields (es : list CeresS.sexp) : option (list (string * value)) :=
              match es with
              | [] => Some []
              | CeresS.List [CeresS.Atom_ (CeresS.Str k); e] :: rest =>
                  match value_of_sexp e, fields rest with
                  | Some v, Some vs => Some ((k, v) :: vs)
                  | _, _ => None
                  end
              | _ => None
              end) es)
      else None
  | _ => None
  end.

Definition sexpDump (v : value) : string :=
  CeresFormat.string_of_sexp (sexp_of_value v).

Definition sexpLoad (text : string) : completion value :=
  match CeresParser.parse_sexp text with
  | inr e =>
      match value_of_sexp e with
      | Some v => Normal v
      | None => Throw "not a document"
      end
  | inl _ => Throw "bad syntax"
  end.

(** The document rendered from the empty parameter set: every field is
    a fallback default. *)
Definition defaultDocument : value :=
  documentOf "py-cuda" "westcoast" "2h" "provider"
    (VObj [("image", VStr jupyterImage);
           ("pull_policy", VStr "IfNotPresent");
           ("expose", VArr [exposeEntry (Int 8888) (Int 8888) true;
                            exposeEntry (Int 3000) (Int 3000) true]);
           ("env", VArr [VStr "JUPYTER_TOKEN=test"])])
    (VObj [("cpu", VObj [("units", VNum (Int 16))]);
           ("memory", VObj [("size", VStr "64Gi")]);
           ("storage", VArr [VObj [("size", VStr "500Gi")]])])
    (VNum (Int 15))
    (VObj [("profile", VStr "py-cuda"); ("count", VNum (Int 1))]).

(** [reachesObj path root]: following [path] from [root] goes through
    mappings only and ends in a mapping. *)
Fixpoint reachesObj (path : list string) (root : value) : Prop :=
  match path with
  | [] => exists fs, root = VObj fs
  | p :: rest =>
      exists fs c, root = VObj fs /\ Js.assoc p fs = Some c /\ reachesObj rest c
  end.

(** A document with services and no version field. *)
Definition unversionedDocument : value :=
  VObj [("services", VObj [("web", VObj [("image", VStr "nginx")])])].

(** A well-formed document whose pricing token is not the constant. *)
Definition usdDocument : value :=
  match Js.assign_in (pricingPath defaultDocument) "token" (VStr "USD")
                     defaultDocument with
  | Normal document => document
  | Throw _ => VNull
  end.

(** ** The conversation store as a [Map] *)

(** What a [Map] keyed by conversation id guarantees: every key occurs
    once, and each state is filed under its own [id]. *)
Definition storeOK (st : Store) : Prop :=
  NoDup (map fst st) /\ Forall (fun kc => id (snd kc) = fst kc) st.

(** ** Extraction, field by field *)

(** The text names the notebook workload. *)
Definition mentionsJupyter (text : string) : bool :=
  includes (toLowerCase text) "jupyter" || includes (toLowerCase text) "notebook".

(** The fields of the extraction result, each read off the block of
    [extractFromDescription] that assigns it. *)
Definition extractedFields (text : string) : ExtractedParams := {|
  image := if mentionsJupyter text then Some jupyterImage else None;
  pullPolicy := None;
  ports := if mentionsJupyter text then Some jupyterPorts else None;
  env := if mentionsJupyter text then Some jupyterEnv else None;
  cpu := cpu (extractCpu text emptyParams);
  memory := memory (extractMemory text emptyParams);
  storage := storage (extractStorage text emptyParams);
  gpu := gpu (extractGpuCount text (extractGpuModel text emptyParams));
  name := if mentionsJupyter text then Some "py-cuda" else None;
  duration := duration (extractDuration text emptyParams);
  mode := None;
  region := region (extractRegion text emptyParams);
  amount := Some (calculateAmount (extractDuration text emptyParams));
  count := None
|}.

(** The unit the memory block writes for an upper-cased unit text. *)
Definition memoryUnitOf (u : string) : string :=
  if String.eqb u "G" || String.eqb u "GB" then "Gi"
  else if String.eqb u "M" || String.eqb u "MB" then "Mi"
  else u.

(** The unit the storage block writes for an upper-cased unit text. *)
Definition storageUnitOf (u : string) : string :=
  if String.eqb u "G" || String.eqb u "GB" then "Gi"
  else if String.eqb u "T" || String.eqb u "TB" then "Ti"
  else u.
(** The model written for each keyword [GPU_REGEX] can capture. *)
Definition gpuModelOf (keyword : string) : string :=
  if String.eqb keyword "a100" then "a100"
  else if String.eqb keyword "h100" then "h100"
  else if String.eqb keyword "t4" then "t4"
  else if String.eqb keyword "v100" then "v100"
  else "rtx6000-ada".


(** Every question recorded in a conversation history is the empty
    text. *)
Definition blankQuestions (st : Store) : Prop :=
  Forall (fun kc => Forall (fun qa => fst qa = "") (history (snd kc))) st.

(** The conversation a reply belongs to. *)
Definition conversationOf (response : ToolResponse) : string :=
  match response with
  | AskQuestion conversation_id _ _ => conversation_id
  | Document conversation_id _ _ _ => conversation_id
  end.

(** A description that names every required size and no workload. *)
Definition sizedDescription : string :=
  "4 cores 16GB RAM 100GB storage for 2 hours".

(** A patch that names no service and no region, and whose other
    properties are either absent or truthy. *)
Definition plainPatch (q : ExtractedParams) : bool :=
  negb (isSome (name q)) && negb (isSome (region q))
  && (negb (isSome (image q)) || truthy_str (image q))
  && (negb (isSome (memory q)) || truthy_str (memory q))
  && (negb (isSome (storage q)) || truthy_str (storage q))
  && (negb (isSome (duration q)) || truthy_str (duration q))
  && (negb (isSome (cpu q)) || truthy_num (cpu q))
  && (negb (isSome (amount q)) || truthy_num (amount q))
  && (negb (isSome (count q)) || truthy_num (count q)).

(** The shape of a rendered document, by its parts: the service and
    region names, the fields of the service, the duration and mode,
    the fields of the resources, the token and amount of the pricing
    entry and the replica count. *)
Definition documentBy (name_ region_ : string)
           (service : list (string * value)) (duration_ mode_ : value)
           (resources : list (string * value))
           (token_ amount_ count_ : value) : value :=
  VObj [
    ("version", VStr "1.0");
    ("services", VObj [(name_, VObj service)]);
    ("profiles", VObj [
      ("name", VStr name_);
      ("duration", duration_);
      ("mode", mode_);
      ("compute", VObj [(name_, VObj [("resources", VObj resources)])]);
      ("placement", VObj [
        (region_, VObj [
          ("pricing", VObj [
            (name_, VObj [("token", token_); ("amount", amount_)])])])])]);
    ("deployment", VObj [
      (name_, VObj [
        (region_, VObj [("profile", VStr name_); ("count", count_)])])])
  ].

(** The fields of the service and of the resources [generateYaml]
    writes. *)
Definition serviceFields (params : ExtractedParams) : list (string * value) :=
  [("image", VStr (or_str (image params) jupyterImage));
   ("pull_policy", VStr (PullPolicy_str (or_else (pullPolicy params) IfNotPresent)));
   ("expose", generateExposeConfig params);
   ("env", generateEnvConfig params)].

Definition resourceFields (params : ExtractedParams) : list (string * value) :=
  match generateResourcesConfig params with
  | VObj fs => fs
  | _ => []
  end.

(** A patch that sets the processor count only. *)
Definition cpuPatch : ExtractedParams := set_cpu emptyParams (Int 32).

(** The fields of a service after the patch was applied to them. *)
Definition patchedService (q : ExtractedParams)
           (sfs : list (string * value)) : list (string * value) :=
  let sfs := if truthy_str (image q)
             then Js.put "image" (VStr (or_else (image q) "")) sfs else sfs in
  let sfs := if isSome (pullPolicy q)
             then Js.put "pull_policy"
                    (VStr (PullPolicy_str (or_else (pullPolicy q) IfNotPresent))) sfs
             else sfs in
  let sfs := if isSome (ports q)
             then Js.put "expose" (generateExposeConfig q) sfs else sfs in
  if isSome (env q) then Js.put "env" (generateEnvConfig q) sfs else sfs.

(** The fields of the resources after the patch was applied to them. *)
Definition patchedResources (q : ExtractedParams)
           (rfs : list (string * value)) : list (string * value) :=
  let rfs := if truthy_num (cpu q)
             then Js.put "cpu" (VObj [("units", VNum (or_else (cpu q) NaN))]) rfs
             else rfs in
  let rfs := if truthy_str (memory q)
             then Js.put "memory" (VObj [("size", VStr (or_else (memory q) ""))]) rfs
             else rfs in
  let rfs := if truthy_str (storage q)
             then Js.put "storage"
                    (VArr [VObj [("size", VStr (or_else (storage q) ""))]]) rfs
             else rfs in
  if isSome (gpu q)
  then Js.put "gpu" (gpuResource (or_else (gpu q) emptyGpu)) rfs else rfs.

(** ** Numerals *)

(** The integer a run of decimal digits denotes. *)
Definition numeralValue (w : string) : Z :=
  match NilEmpty.uint_of_string w with
  | Some d => Z.of_uint d
  | None => 0%Z
  end.

(** A non-empty run of decimal digits. *)
Definition digitRun (w : string) : Prop :=
  w <> "" /\ all_chars is_digit w = true.


(** Up to this bound every integer is a double, and is printed as its
    numeral. *)
Definition exactBound : Z := (2 ^ 53)%Z.


(** The GPU block of a rendered document, written out. *)
Definition gpuBlock (unitCount : number) (modelName : string) : value :=
  VObj [("units", VNum unitCount);
        ("attributes",
          VObj [("vendor",
            VObj [("nvidia",
              VArr [VObj [("model", VStr modelName)]])])])].

(* ================================================================== *)
(** * Strings and characters *)
(* ================================================================== *)

Section StringFacts.

Lemma append_nil_r (s : string) : s ++ "" = s.
Proof. induction s; simpl; congruence. Qed.

Lemma append_assoc (a b c : string) : (a ++ b) ++ c = a ++ (b ++ c).
Proof. induction a; simpl; congruence. Qed.

Lemma length_append (a b : string) :
  String.length (a ++ b) = (String.length a + String.length b)%nat.
Proof. induction a; simpl; congruence. Qed.

Lemma substring_all (s : string) : substring 0 (String.length s) s = s.
Proof. induction s; simpl; congruence. Qed.

Lemma substring_prefix (a b : string) :
  substring 0 (String.length a) (a ++ b) = a.
Proof.
  induction a as [|c a IH]; simpl.
  - destruct b; reflexivity.
  - now rewrite IH.
Qed.

Lemma consumed_append (w rest : string) : consumed (w ++ rest) rest = w.
Proof.
  unfold consumed. rewrite length_append.
  replace (String.length w + String.length rest - String.length rest)%nat
    with (String.length w) by lia.
  apply substring_prefix.
Qed.

Lemma consumed_all (s : string) : consumed s "" = s.
Proof.
  rewrite <- (append_nil_r s) at 1. apply consumed_append.
Qed.

Lemma map_chars_append f (a b : string) :
  map_chars f (a ++ b) = map_chars f a ++ map_chars f b.
Proof. induction a; simpl; congruence. Qed.

Lemma in_all_ascii (c : ascii) : In c all_ascii.
Proof.
  unfold all_ascii. rewrite <- (ascii_nat_embedding c).
  apply in_map, in_seq. pose proof (nat_ascii_bounded c). lia.
Qed.

Lemma for_all_ascii (P : ascii -> bool) :
  forallb P all_ascii = true -> forall c, P c = true.
Proof.
  intros H c. rewrite forallb_forall in H. apply H, in_all_ascii.
Qed.

Lemma for_all_ascii2 (P : ascii -> ascii -> bool) :
  forallb (fun c => forallb (P c) all_ascii) all_ascii = true ->
  forall c x, P c x = true.
Proof.
  intros H c x.
  apply (for_all_ascii (P c)).
  apply (for_all_ascii (fun c => forallb (P c) all_ascii) H).
Qed.

(** Under the [i] flag a literal and the character it matches have the
    same lower-case form. *)
Lemma char_matches_lower (c x : ascii) :
  char_matches true c x = true -> lower_char x = lower_char c.
Proof.
  intros H.
  pose proof (for_all_ascii2
    (fun c x => implb (char_matches true c x)
                      (Ascii.eqb (lower_char x) (lower_char c)))) as A.
  specialize (A ltac:(vm_compute; reflexivity) c x).
  cbv beta in A. rewrite H in A. now apply Ascii.eqb_eq.
Qed.

(** The [i] flag does not widen the digit class. *)
Lemma class_digit (ci : bool) (x : ascii) :
  class_matches ci is_digit x = is_digit x.
Proof.
  pose proof (for_all_ascii
    (fun x => Bool.eqb (class_matches true is_digit x) (is_digit x))
    ltac:(vm_compute; reflexivity) x) as A.
  cbv beta in A. apply Bool.eqb_prop in A.
  destruct ci; [exact A|].
  unfold class_matches. simpl. now rewrite orb_false_r.
Qed.

(** A digit is not a letter. *)
Lemma digit_not_letter (x : ascii) :
  is_digit x = true -> class_matches true is_lower x = false.
Proof.
  intros H.
  pose proof (for_all_ascii
    (fun x => implb (is_digit x) (negb (class_matches true is_lower x)))
    ltac:(vm_compute; reflexivity) x) as A.
  cbv beta in A. rewrite H in A. now apply negb_true_iff.
Qed.

End StringFacts.

(* ================================================================== *)
(** * The matcher is sound for the denotation of patterns *)
(* ================================================================== *)

Section RegExpFacts.
Variable ci : bool.

Local Abbreviation caps_ok r new :=
  (Forall (fun e : nat * string => Captured ci r (fst e) (snd e)) new).

Lemma star_sound (R : Type) (p : ascii -> bool) (k : string -> option R) :
  forall t res,
    star ci p k t = Some res ->
    exists w rest,
      t = w ++ rest /\ all_chars (class_matches ci p) w = true
      /\ k rest = Some res.
Proof.
  induction t as [|x t IH]; intros res H; simpl in H.
  - exists "", "". auto.
  - destruct (class_matches ci p x) eqn:Hx.
    + destruct (star ci p k t) as [res0|] eqn:Hin.
      * injection H as <-.
        destruct (IH _ eq_refl) as (w & rest & -> & Hw & Hk).
        exists (String x w), rest. simpl. rewrite Hx, Hw. auto.
      * exists "", (String x t). auto.
    + exists "", (String x t). auto.
Qed.

Lemma rmatch_sound (r : regex) :
  forall (R : Type) s caps (k : string -> list (nat * string) -> option R) res,
    rmatch ci r s caps k = Some res ->
    exists w rest new,
      s = w ++ rest /\ Matches ci r w
      /\ k rest (new ++ caps)%list = Some res
      /\ caps_ok r new
      /\ (forall i, Binds r i -> In i (map fst new)).
Proof.
  induction r as [|c|p|r1 IH1 r2 IH2|r1 IH1 r2 IH2|p|j r1 IH1];
    intros R s caps k res H; simpl in H.
  - exists "", s, []. repeat split; auto using MEps; try (intros ? []).
  - destruct s as [|x s']; [discriminate|].
    destruct (char_matches ci c x) eqn:Hc; [|discriminate].
    exists (String x ""), s', []. repeat split; auto using MChr; try (intros ? []).
  - destruct s as [|x s']; [discriminate|].
    destruct (class_matches ci p x) eqn:Hc; [|discriminate].
    exists (String x ""), s', []. repeat split; auto using MCls; try (intros ? []).
  - apply IH1 in H. destruct H as (w1 & rest1 & new1 & -> & M1 & H & C1 & B1).
    apply IH2 in H. destruct H as (w2 & rest2 & new2 & -> & M2 & H & C2 & B2).
    exists (w1 ++ w2), rest2, (new2 ++ new1)%list.
    repeat split.
    + now rewrite append_assoc.
    + now constructor.
    + now rewrite <- List.app_assoc.
    + apply Forall_app; split.
      * eapply Forall_impl; [|exact C2]. intros e He. now apply CSeqR.
      * eapply Forall_impl; [|exact C1]. intros e He. now apply CSeqL.
    + intros i [Hi|Hi]; rewrite map_app; apply in_or_app; auto.
  - destruct (rmatch ci r1 s caps k) as [res0|] eqn:H1.
    + injection H as <-. apply IH1 in H1.
      destruct H1 as (w & rest & new & -> & M & H & C & B).
      exists w, rest, new. repeat split; auto using MAltL.
      * eapply Forall_impl; [|exact C]. intros e He. now apply CAltL.
      * intros i [Hi _]. auto.
    + apply IH2 in H.
      destruct H as (w & rest & new & -> & M & H & C & B).
      exists w, rest, new. repeat split; auto using MAltR.
      * eapply Forall_impl; [|exact C]. intros e He. now apply CAltR.
      * intros i [_ Hi]. auto.
  - apply (star_sound R p (fun t => k t caps)) in H.
    destruct H as (w & rest & -> & Hw & Hk).
    exists w, rest, []. repeat split; auto using MStar; try (intros ? []).
  - apply IH1 in H. destruct H as (w & rest & new & -> & M & H & C & B).
    rewrite consumed_append in H.
    exists w, rest, ((j, w) :: new). repeat split; auto using MGrp.
    + constructor.
      * now apply CHere.
      * eapply Forall_impl; [|exact C]. intros e He. now apply CInner.
    + intros i [->|Hi]; simpl; auto.
Qed.

Lemma match_here_sound (r : regex) (s : string) (m : RegExpMatch) :
  match_here ci r s = Some m ->
  (exists rest, s = matched m ++ rest)
  /\ Matches ci r (matched m)
  /\ caps_ok r (captures m)
  /\ (forall i, Binds r i -> In i (map fst (captures m))).
Proof.
  unfold match_here. intros H. apply rmatch_sound in H.
  destruct H as (w & rest & new & -> & M & H & C & B).
  injection H as <-. rewrite consumed_append, List.app_nil_r. simpl.
  repeat split; eauto.
Qed.

Lemma exec_sound (r : regex) (s : string) (m : RegExpMatch) :
  exec ci r s = Some m ->
  (exists before rest, s = before ++ matched m ++ rest)
  /\ Matches ci r (matched m)
  /\ caps_ok r (captures m)
  /\ (forall i, Binds r i -> In i (map fst (captures m))).
Proof.
  induction s as [|x s IH]; simpl; intros H.
  - destruct (match_here ci r "") eqn:E; [|discriminate].
    injection H as <-. apply match_here_sound in E.
    destruct E as ((rest & E) & M & C & B). repeat split; auto.
    exists "", rest. exact E.
  - destruct (match_here ci r (String x s)) eqn:E.
    + injection H as <-. apply match_here_sound in E.
      destruct E as ((rest & E) & M & C & B). repeat split; auto.
      exists "", rest. exact E.
    + destruct (IH H) as ((before & rest & E') & M & C & B).
      repeat split; auto.
      exists (String x before), rest. simpl. now rewrite E'.
Qed.

Lemma lookup_in (i : nat) (caps : list (nat * string)) :
  In i (map fst caps) ->
  exists w, lookup i caps = Some w /\ In (i, w) caps.
Proof.
  induction caps as [|[j w] caps IH]; simpl; [intros []|].
  intros H. destruct (Nat.eqb i j) eqn:E.
  - apply Nat.eqb_eq in E. subst. eauto.
  - destruct H as [H|H].
    + subst. rewrite Nat.eqb_refl in E. discriminate.
    + destruct (IH H) as (w' & L & I). eauto.
Qed.

(** A group every match goes through holds a text of that group. *)
Lemma group_captured (r : regex) (s : string) (m : RegExpMatch) (i : nat) :
  exec ci r s = Some m -> Binds r i -> Captured ci r i (group m i).
Proof.
  intros H B. apply exec_sound in H. destruct H as (_ & _ & C & K).
  destruct (lookup_in i (captures m) (K i B)) as (w & L & I).
  unfold group. rewrite L.
  rewrite Forall_forall in C. exact (C _ I).
Qed.

End RegExpFacts.

(** ** Literals and digit runs *)

Lemma matches_lit_lower (s w : string) :
  Matches true (lit s) w -> toLowerCase w = toLowerCase s.
Proof.
  revert w. induction s as [|c s IH]; intros w H.
  - simpl in H. inversion H. reflexivity.
  - destruct s as [|c' s'].
    + simpl in H. inversion H; subst. unfold toLowerCase. simpl.
      f_equal. now apply char_matches_lower.
    + change (lit (String c (String c' s')))
        with (Seq (Chr c) (lit (String c' s'))) in H.
      inversion H as [| | |r1 r2 w1 w2 M1 M2| | | |]; subst.
      inversion M1; subst.
      unfold toLowerCase. rewrite map_chars_append.
      change (map_chars lower_char (String c (String c' s')))
        with (String (lower_char c) (toLowerCase (String c' s'))).
      simpl. f_equal.
      * now apply char_matches_lower.
      * now apply IH.
Qed.

(** [word_s w] matches [w], with or without a final "s", in any case. *)
Lemma matches_word_s (w t : string) :
  Matches true (word_s w) t ->
  toLowerCase t = toLowerCase w \/ toLowerCase t = toLowerCase w ++ "s".
Proof.
  unfold word_s, opt. intros H.
  inversion H as [| | |r1 r2 w1 w2 M1 M2| | | |]; subst.
  apply matches_lit_lower in M1.
  unfold toLowerCase in *. rewrite map_chars_append, M1.
  inversion M2 as [| | | |r1 r2 w0 M|r1 r2 w0 M| |]; subst.
  - inversion M; subst. right. simpl. f_equal. f_equal.
    match goal with H : char_matches true _ _ = true |- _ =>
      now apply char_matches_lower in H end.
  - inversion M. left. simpl. apply append_nil_r.
Qed.

(** A text matched by [\d+] is a non-empty run of digits. *)
Lemma matches_digits1 (ci : bool) (w : string) :
  Matches ci digits1 w -> w <> "" /\ all_chars is_digit w = true.
Proof.
  unfold digits1, plus. intros H.
  inversion H as [| | |r1 r2 w1 w2 M1 M2| | | |]; subst.
  inversion M1; subst. inversion M2; subst.
  split; [discriminate|]. simpl.
  match goal with H : class_matches _ _ _ = true |- _ =>
    rewrite class_digit in H; rewrite H end.
  simpl.
  match goal with H : all_chars _ _ = true |- _ => revert H end.
  generalize w2. induction w0 as [|c w0 IH]; simpl; auto.
  rewrite class_digit. destruct (is_digit c); simpl; auto.
Qed.

(* ================================================================== *)
(** * Numbers and their decimal form *)
(* ================================================================== *)

Lemma take_while_all (p : ascii -> bool) (w : string) :
  all_chars p w = true -> take_while p w = w.
Proof.
  induction w as [|c w IH]; simpl; auto.
  destruct (p c); simpl; [|discriminate]. intros H. now rewrite IH.
Qed.

Lemma all_chars_append (p : ascii -> bool) (a b : string) :
  all_chars p (a ++ b) = all_chars p a && all_chars p b.
Proof.
  induction a as [|c a IH]; simpl; auto. rewrite IH. apply andb_assoc.
Qed.

Lemma uint_digits (d : Decimal.uint) :
  all_chars is_digit (NilEmpty.string_of_uint d) = true.
Proof. induction d; simpl; auto. Qed.

Lemma uint_nonempty (d : Decimal.uint) :
  d <> Decimal.Nil -> NilEmpty.string_of_uint d <> "".
Proof. destruct d; simpl; congruence. Qed.

(** ** Rounding to a double *)

Lemma round53_exact (z : Z) : (0 <= z <= exactBound)%Z -> round53 z = z.
Proof.
  unfold exactBound. intros [H0 H1]. unfold round53.
  destruct (Z.eq_dec z (2 ^ 53)) as [->|Hne]; [reflexivity|].
  destruct (Z.eq_dec z 0) as [->|Hz]; [reflexivity|].
  assert (Hlog : (Z.log2 z < 53)%Z) by (apply Z.log2_lt_pow2; lia).
  apply Z.ltb_lt in Hlog. now rewrite Hlog.
Qed.

Lemma round53_nonneg (z : Z) : (0 <= z)%Z -> (0 <= round53 z)%Z.
Proof.
  intros H. unfold round53. destruct (Z.log2 z <? 53)%Z; [exact H|].
  cbv zeta. apply Z.shiftl_nonneg.
  assert (0 <= Z.shiftr z (Z.log2 z - 52))%Z by now apply Z.shiftr_nonneg.
  destruct (_ || _); lia.
Qed.

Lemma round53_pos (z : Z) : (0 < z)%Z -> (0 < round53 z)%Z.
Proof.
  intros H. unfold round53.
  destruct (Z.ltb_spec (Z.log2 z) 53) as [Hl|Hl]; [exact H|].
  cbv zeta.
  set (shift := (Z.log2 z - 52)%Z).
  assert (Hs : (0 <= shift)%Z) by (unfold shift; lia).
  assert (Hq : (0 < Z.shiftr z shift)%Z).
  { assert (0 <= Z.shiftr z shift)%Z by (apply Z.shiftr_nonneg; lia).
    assert (Z.shiftr z shift <> 0)%Z.
    { rewrite Z.shiftr_eq_0_iff. unfold shift. lia. }
    lia. }
  rewrite Z.shiftl_mul_pow2 by exact Hs.
  assert (0 < 2 ^ shift)%Z by (apply Z.pow_pos_nonneg; lia).
  destruct (_ || _); nia.
Qed.

Lemma exactBound_finite : (exactBound < 2 ^ 1024)%Z.
Proof. unfold exactBound. apply Z.pow_lt_mono_r; lia. Qed.

(** Every integer up to the bound is a double. *)
Lemma ofZ_exact (z : Z) : (Z.abs z <= exactBound)%Z -> ofZ z = Int z.
Proof.
  intros H. unfold ofZ. cbv zeta.
  rewrite round53_exact by lia.
  pose proof exactBound_finite.
  destruct (Z.leb_spec (2 ^ 1024) (Z.abs z)); [lia|].
  f_equal. rewrite Z.mul_comm. apply Z.abs_sgn.
Qed.

(** The double nearest to a non-negative integer is never [NaN] and
    never negative, and it is 0 only for 0. *)
Lemma ofZ_nonneg (z : Z) :
  (0 <= z)%Z ->
  ofZ z = Infinity false
  \/ exists m, ofZ z = Int m /\ (0 <= m)%Z /\ (m = 0 <-> z = 0)%Z.
Proof.
  intros H. unfold ofZ. cbv zeta. rewrite (Z.abs_eq z H).
  destruct (Z.leb_spec (2 ^ 1024) (round53 z)).
  - left. f_equal. apply Z.ltb_ge. exact H.
  - right. eexists. split; [reflexivity|].
    destruct (Z.eq_dec z 0) as [->|Hz].
    + cbn. split; [lia|tauto].
    + assert (0 < round53 z)%Z by (apply round53_pos; lia).
      rewrite Z.sgn_pos by lia. lia.
Qed.

Lemma ofZ_truthy (z : Z) :
  (0 <= z)%Z -> JsNumber.truthy (ofZ z) = negb (Z.eqb z 0).
Proof.
  intros H. destruct (Z.eqb_spec z 0) as [->|Hz]; [reflexivity|].
  destruct (ofZ_nonneg z H) as [->|(m & -> & Hm & Hm0)]; [reflexivity|].
  cbn. destruct (Z.eqb_spec m 0); [tauto|reflexivity].
Qed.

Lemma ofZ_zero (z : Z) : (0 <= z)%Z -> ofZ z = Int 0 <-> z = 0%Z.
Proof.
  intros H. split.
  - intros E. destruct (ofZ_nonneg z H) as [E'|(m & E' & _ & Hz)];
      rewrite E' in E; [discriminate|]. injection E as ->. tauto.
  - intros ->. reflexivity.
Qed.

(** Within the bound a product is exact. *)
Lemma mul_exact (x y : Z) :
  (Z.abs (x * y) <= exactBound)%Z -> Int x *' Int y = Int (x * y).
Proof. intros H. cbn. now apply ofZ_exact. Qed.

(** Within the bound a number is printed as its numeral. *)
Lemma numberToString_exact (z : Z) :
  (Z.abs z <= exactBound)%Z -> numberToString (Int z) = toString (Int z).
Proof.
  unfold exactBound. intros H. unfold numberToString.
  apply Z.leb_le in H. now rewrite H.
Qed.

(** ** Reading digit runs *)

(** [parseInt] on a text that starts with a digit reads its digit run. *)
Lemma parseInt_digit_head (c : ascii) (w : string) :
  is_digit c = true ->
  parseInt (String c w) =
  match NilEmpty.uint_of_string (String c (take_while is_digit w)) with
  | Some d => ofZ (Z.of_uint d)
  | None => NaN
  end.
Proof.
  destruct c as [[] [] [] [] [] [] [] []]; intros H;
    try (vm_compute in H; discriminate H); reflexivity.
Qed.

Lemma digits_uint (w : string) :
  w <> "" -> all_chars is_digit w = true ->
  exists d, NilEmpty.uint_of_string w = Some d.
Proof.
  intros Hne Hall. destruct w as [|c w]; [congruence|].
  simpl in Hall. apply andb_prop in Hall. destruct Hall as [Hc Hw].
  clear Hne. revert c Hc. induction w as [|c' w IH]; intros c Hc.
  - destruct c as [[] [] [] [] [] [] [] []];
      try (vm_compute in Hc; discriminate Hc); eexists; reflexivity.
  - simpl in Hw. apply andb_prop in Hw. destruct Hw as [Hc' Hw].
    destruct (IH Hw c' Hc') as [d Hd].
    change (NilEmpty.uint_of_string (String c (String c' w)))
      with (uint_of_char c (NilEmpty.uint_of_string (String c' w))).
    rewrite Hd.
    destruct c as [[] [] [] [] [] [] [] []];
      try (vm_compute in Hc; discriminate Hc); eexists; reflexivity.
Qed.

Lemma numeralValue_nonneg (w : string) : (0 <= numeralValue w)%Z.
Proof.
  unfold numeralValue. destruct (NilEmpty.uint_of_string w); [|lia].
  unfold Z.of_uint. apply N2Z.is_nonneg.
Qed.

(** [parseInt] of a non-empty digit run is the double nearest to the
    integer the run denotes. *)
Lemma parseInt_digits (w : string) :
  w <> "" -> all_chars is_digit w = true ->
  parseInt w = ofZ (numeralValue w).
Proof.
  intros Hne Hall. destruct (digits_uint w Hne Hall) as [d Hd].
  unfold numeralValue. rewrite Hd.
  destruct w as [|c w]; [congruence|].
  simpl in Hall. apply andb_prop in Hall. destruct Hall as [Hc Hw].
  now rewrite (parseInt_digit_head c w Hc), (take_while_all _ _ Hw), Hd.
Qed.

(** The decimal form of a non-negative integer. *)
Lemma toString_nonneg (n : Z) :
  (0 <= n)%Z ->
  exists d, toString (Int n) = NilEmpty.string_of_uint d
            /\ d <> Decimal.Nil /\ Z.of_uint d = n.
Proof.
  intros Hn. pose proof (DecimalZ.of_to n) as R.
  destruct n as [|p|p]; [| |lia].
  - exists (Decimal.D0 Decimal.Nil). repeat split. discriminate.
  - exists (Pos.to_uint p). repeat split.
    + apply DecimalPos.Unsigned.to_uint_nonnil.
    + exact R.
Qed.

Lemma toString_digits (n : Z) :
  (0 <= n)%Z ->
  toString (Int n) <> "" /\ all_chars is_digit (toString (Int n)) = true.
Proof.
  intros Hn. destruct (toString_nonneg n Hn) as (d & -> & Hd & _).
  split; [now apply uint_nonempty | apply uint_digits].
Qed.

(** A numeral denotes the integer it was written from. *)
Lemma numeralValue_toString (n : Z) :
  (0 <= n)%Z -> numeralValue (toString (Int n)) = n.
Proof.
  intros Hn. destruct (toString_nonneg n Hn) as (d & -> & Hd & <-).
  unfold numeralValue. now rewrite NilEmpty.usu.
Qed.


(** Reading back the decimal form of a number within the bound gives
    the number. *)
Lemma parseInt_toString (n : Z) :
  (0 <= n <= exactBound)%Z -> parseInt (toString (Int n)) = Int n.
Proof.
  intros Hn. destruct (toString_digits n) as [Hne Hall]; [lia|].
  rewrite (parseInt_digits _ Hne Hall), numeralValue_toString by lia.
  apply ofZ_exact. lia.
Qed.

(** The group [(\d+)] of a pattern is a non-empty digit run; it reads
    as the double nearest to the integer it denotes. *)
Lemma captured_number (ci : bool) (w : string) :
  Matches ci digits1 w ->
  digitRun w /\ parseInt w = ofZ (numeralValue w).
Proof.
  intros M. apply matches_digits1 in M. destruct M as [Hne Hall].
  split; [now split|]. now apply parseInt_digits.
Qed.

(* ================================================================== *)
(** * Facts about the extraction steps *)
(* ================================================================== *)

(** Each block of [extractFromDescription] leaves the properties it
    does not assign as they were. *)
Ltac frame :=
  intros;
  unfold extractCpu, extractMemory, extractStorage, extractGpuModel,
    extractGpuCount, extractDuration, extractRegion, extractJupyter,
    extractName;
  repeat match goal with
         | |- context [match ?x with _ => _ end] => destruct x
         end;
  reflexivity.

Section Frames.
Variables (d : string) (p : ExtractedParams).

Lemma duration_extractCpu : duration (extractCpu d p) = duration p.
Proof. frame. Qed.
Lemma duration_extractMemory : duration (extractMemory d p) = duration p.
Proof. frame. Qed.
Lemma duration_extractStorage : duration (extractStorage d p) = duration p.
Proof. frame. Qed.
Lemma duration_extractGpuModel : duration (extractGpuModel d p) = duration p.
Proof. frame. Qed.
Lemma duration_extractGpuCount : duration (extractGpuCount d p) = duration p.
Proof. frame. Qed.
Lemma duration_extractRegion : duration (extractRegion d p) = duration p.
Proof. frame. Qed.
Lemma duration_extractJupyter : duration (extractJupyter d p) = duration p.
Proof. frame. Qed.
Lemma duration_extractName : duration (extractName p) = duration p.
Proof. frame. Qed.

Lemma region_extractCpu : region (extractCpu d p) = region p.
Proof. frame. Qed.
Lemma region_extractMemory : region (extractMemory d p) = region p.
Proof. frame. Qed.
Lemma region_extractStorage : region (extractStorage d p) = region p.
Proof. frame. Qed.
Lemma region_extractGpuModel : region (extractGpuModel d p) = region p.
Proof. frame. Qed.
Lemma region_extractGpuCount : region (extractGpuCount d p) = region p.
Proof. frame. Qed.
Lemma region_extractDuration : region (extractDuration d p) = region p.
Proof. frame. Qed.
Lemma region_extractJupyter : region (extractJupyter d p) = region p.
Proof. frame. Qed.
Lemma region_extractName : region (extractName p) = region p.
Proof. frame. Qed.

Lemma gpu_extractCpu : gpu (extractCpu d p) = gpu p.
Proof. frame. Qed.
Lemma gpu_extractMemory : gpu (extractMemory d p) = gpu p.
Proof. frame. Qed.
Lemma gpu_extractStorage : gpu (extractStorage d p) = gpu p.
Proof. frame. Qed.
Lemma gpu_extractDuration : gpu (extractDuration d p) = gpu p.
Proof. frame. Qed.
Lemma gpu_extractRegion : gpu (extractRegion d p) = gpu p.
Proof. frame. Qed.
Lemma gpu_extractJupyter : gpu (extractJupyter d p) = gpu p.
Proof. frame. Qed.
Lemma gpu_extractName : gpu (extractName p) = gpu p.
Proof. frame. Qed.
End Frames.

Create Rewrite HintDb extract_frame.
#[local] Hint Rewrite
  duration_extractCpu duration_extractMemory duration_extractStorage
  duration_extractGpuModel duration_extractGpuCount duration_extractRegion
  duration_extractJupyter duration_extractName
  region_extractCpu region_extractMemory region_extractStorage
  region_extractGpuModel region_extractGpuCount region_extractDuration
  region_extractJupyter region_extractName
  gpu_extractCpu gpu_extractMemory gpu_extractStorage gpu_extractDuration
  gpu_extractRegion gpu_extractJupyter gpu_extractName : extract_frame.

Lemma extract_duration (text : string) :
  duration (extractFromDescription text)
  = duration (extractDuration text emptyParams).
Proof.
  unfold extractFromDescription. cbv zeta.
  change (duration (set_amount ?q ?a)) with (duration q).
  autorewrite with extract_frame.
  unfold extractDuration.
  destruct (exec true DURATION_REGEX text); [|now autorewrite with extract_frame].
  cbv zeta.
  repeat match goal with
         | |- context [if ?b then _ else _] => destruct b
         end; simpl; now autorewrite with extract_frame.
Qed.

Lemma extract_region (text : string) :
  region (extractFromDescription text)
  = region (extractRegion text emptyParams).
Proof.
  unfold extractFromDescription. cbv zeta.
  change (region (set_amount ?q ?a)) with (region q).
  autorewrite with extract_frame.
  unfold extractRegion.
  destruct (exec true REGION_REGEX text); simpl;
    now autorewrite with extract_frame.
Qed.




Lemma extract_amount (text : string) :
  exists q, duration q = duration (extractFromDescription text)
            /\ amount (extractFromDescription text) = Some (calculateAmount q).
Proof.
  unfold extractFromDescription. cbv zeta.
  eexists. split; [|reflexivity]. reflexivity.
Qed.

Lemma calculateAmount_duration (p q : ExtractedParams) :
  duration p = duration q -> calculateAmount p = calculateAmount q.
Proof. unfold calculateAmount. now intros ->. Qed.

(** Inversion of [Captured] and of alternations of literals. *)
Ltac no_capture :=
  repeat match goal with
         | H : Captured _ _ _ _ |- _ =>
             simpl in H; inversion H; clear H; subst
         end.

(** An alternation of literals matches one of them, up to case. *)
Lemma matches_alts_lits (ws : list string) (w : string) :
  ws <> [] ->
  Matches true (alts (map lit ws)) w ->
  In (toLowerCase w) (map toLowerCase ws).
Proof.
  induction ws as [|x ws IH]; [congruence|]. intros _ M.
  destruct ws as [|y ws].
  - simpl in M. left. symmetry. now apply matches_lit_lower.
  - change (alts (map lit (x :: y :: ws)))
      with (Alt (lit x) (alts (map lit (y :: ws)))) in M.
    inversion M as [| | | |r1 r2 w0 M1|r1 r2 w0 M2| |]; subst.
    + left. symmetry. now apply matches_lit_lower.
    + right. apply IH; [discriminate|exact M2].
Qed.

(** The same for words with an optional plural "s". *)
Lemma matches_alts_words (ws : list string) (w : string) :
  ws <> [] ->
  Matches true (alts (map word_s ws)) w ->
  exists x, In x ws
    /\ (toLowerCase w = toLowerCase x \/ toLowerCase w = toLowerCase x ++ "s").
Proof.
  induction ws as [|x ws IH]; [congruence|]. intros _ M.
  destruct ws as [|y ws].
  - simpl in M. exists x. split; [now left|]. now apply matches_word_s.
  - change (alts (map word_s (x :: y :: ws)))
      with (Alt (word_s x) (alts (map word_s (y :: ws)))) in M.
    inversion M as [| | | |r1 r2 w0 M1|r1 r2 w0 M2| |]; subst.
    + exists x. split; [now left|]. now apply matches_word_s.
    + destruct (IH ltac:(discriminate) M2) as (z & Hz & Hw).
      exists z. split; [now right|exact Hw].
Qed.

Lemma region_keyword (text : string) (m : RegExpMatch) :
  exec true REGION_REGEX text = Some m ->
  In (toLowerCase (group m 1)) regionKeywords.
Proof.
  intros H.
  apply group_captured with (i := 1%nat) in H; [|left; reflexivity].
  unfold REGION_REGEX in H.
  inversion H as [i r w M| | | | |]; subst; [|no_capture].
  apply (matches_alts_lits regionKeywords) in M; [exact M|discriminate].
Qed.


(** The extractor evaluated on sample descriptions. *)
Example extract_cores_and_ram :
  let p := extractFromDescription "I need 8 cores and 16GB RAM" in
  cpu p = Some (Int 8) /\ memory p = Some "16Gi" /\ gpu p = None.
Proof. vm_compute. repeat split. Qed.

Example extract_durations :
  amount (extractFromDescription "train for 3 hours") = Some (Int 9)
  /\ amount (extractFromDescription "keep it 2 days") = Some (Int 144)
  /\ duration (extractFromDescription "about 2 weeks") = Some "14d"
  /\ amount (extractFromDescription "one month") = Some (Int 6).
Proof. vm_compute. repeat split. Qed.

(* ================================================================== *)
(** * Region normalization *)
(* ================================================================== *)

(** C2, as stated, fails: a text whose region keyword is "us-east" is
    extracted with region "eastcoast", not "westcoast". *)
Lemma region_us_east_not_westcoast :
  (exists m, exec true REGION_REGEX "a notebook in us-east" = Some m
             /\ toLowerCase (group m 1) = "us-east")
  /\ region (extractFromDescription "a notebook in us-east") = Some "eastcoast"
  /\ region (extractFromDescription "a notebook in us-east") <> Some "westcoast".
Proof.
  split; [|split].
  - eexists. split; vm_compute; reflexivity.
  - vm_compute. reflexivity.
  - vm_compute. discriminate.
Qed.

(** C2 (amended): a text without a region keyword has no region; a
    text with one gets the region of its leftmost keyword, which is one
    of the eight of the pattern: "westcoast" and "us-west" give
    "westcoast", "eastcoast" and "us-east" give "eastcoast", and each
    of the other four ("eu-west", "eu-central", "ap-southeast",
    "ap-northeast") gives "westcoast". *)
Theorem region_normalization (text : string) :
  (exec true REGION_REGEX text = None ->
   region (extractFromDescription text) = None)
  /\ (forall m, exec true REGION_REGEX text = Some m ->
        let keyword := toLowerCase (group m 1) in
        In keyword regionKeywords
        /\ (keyword = "westcoast" \/ keyword = "us-west" ->
            region (extractFromDescription text) = Some "westcoast")
        /\ (keyword = "eastcoast" \/ keyword = "us-east" ->
            region (extractFromDescription text) = Some "eastcoast")
        /\ (In keyword ["eu-west"; "eu-central"; "ap-southeast"; "ap-northeast"] ->
            region (extractFromDescription text) = Some "westcoast")).
Proof.
  rewrite extract_region. unfold extractRegion. split.
  - intros ->. reflexivity.
  - intros m Hm. rewrite Hm. cbv zeta.
    set (keyword := toLowerCase (group m 1)).
    split; [exact (region_keyword text m Hm)|].
    change (region (set_region emptyParams (normalizeRegion keyword)))
      with (Some (normalizeRegion keyword)).
    split; [|split]; intros H; simpl in H; decompose [or] H;
      try contradiction;
      match goal with E : _ = keyword |- _ => rewrite <- E
                 | E : keyword = _ |- _ => rewrite E end; reflexivity.
Qed.

Lemma region_normalization_witness :
  region (extractFromDescription "two hours in EU-Central") = Some "westcoast".
Proof.
  destruct (region_normalization "two hours in EU-Central") as [_ H].
  destruct (H (mkMatch "EU-Central" [(1%nat, "EU-Central")]) eq_refl)
    as (_ & _ & _ & W).
  apply W. simpl. right. left. reflexivity.
Defined.

(* ================================================================== *)
(** * GPU extraction *)
(* ================================================================== *)




(* ================================================================== *)
(** * Duration and price amount *)
(* ================================================================== *)

(** A greedy repetition takes the whole run when the text after the run
    cannot extend it and the continuation accepts that text. *)
Lemma star_greedy (ci : bool) (R : Type) (p : ascii -> bool)
      (k : string -> option R) (run rest : string) (res : R) :
  all_chars (class_matches ci p) run = true ->
  match rest with
  | EmptyString => True
  | String c _ => class_matches ci p c = false
  end ->
  k rest = Some res ->
  star ci p k (run ++ rest) = Some res.
Proof.
  intros Hrun Hrest Hk. induction run as [|x run IH]; simpl.
  - destruct rest as [|c rest]; simpl; [exact Hk|]. now rewrite Hrest.
  - simpl in Hrun. apply andb_prop in Hrun. destruct Hrun as [Hx Hrun].
    rewrite Hx, (IH Hrun). reflexivity.
Qed.

(** On a digit run followed by a canonical unit, the pattern of
    [calculateAmount] matches the whole text, the run in group 1 and
    the unit in group 2. *)
Lemma amount_pattern_exec (ds unit : string) :
  ds <> "" -> all_chars is_digit ds = true -> In unit durationUnits ->
  exec true AMOUNT_DURATION_REGEX (ds ++ unit)
  = Some (mkMatch (ds ++ unit) [(2%nat, unit); (1%nat, ds)]).
Proof.
  intros Hne Hds Hunit.
  destruct ds as [|c ds]; [congruence|]. clear Hne.
  simpl in Hds. apply andb_prop in Hds. destruct Hds as [Hc Hds].
  assert (Hrun : all_chars (class_matches true is_digit) ds = true).
  { clear Hc. induction ds as [|x ds IH]; simpl in *; auto.
    apply andb_prop in Hds. destruct Hds as [Hx Hds].
    now rewrite class_digit, Hx, IH. }
  assert (Hhere : match_here true AMOUNT_DURATION_REGEX (String c ds ++ unit)
                  = Some (mkMatch (String c ds ++ unit)
                                  [(2%nat, unit); (1%nat, String c ds)])).
  { unfold match_here, AMOUNT_DURATION_REGEX, digits1, plus.
    cbn [seqs rmatch append]. rewrite class_digit, Hc.
    apply star_greedy; [exact Hrun| |].
    - simpl in Hunit. decompose [or] Hunit; subst; try contradiction;
        reflexivity.
    - change (String c (ds ++ unit)) with (String c ds ++ unit).
      rewrite consumed_append.
      simpl in Hunit. decompose [or] Hunit; subst; try contradiction;
        cbn [rmatch star];
        repeat match goal with
               | |- context [class_matches true is_lower ?x] =>
                   change (class_matches true is_lower x) with true
               end;
        cbn iota; rewrite consumed_all; reflexivity. }
  change (String c ds ++ unit) with (String c (ds ++ unit)) in *.
  cbn [exec]. now rewrite Hhere.
Qed.

Lemma append_nonempty (a b : string) : a <> "" -> String.eqb (a ++ b) "" = false.
Proof. destruct a; [congruence|reflexivity]. Qed.

(** What [calculateAmount] returns on the canonical duration strings,
    as long as the products stay within the bound. *)
Lemma calculateAmount_canonical (p : ExtractedParams) (n : Z) (unit : string) :
  (0 <= n)%Z -> In unit durationUnits ->
  ((if String.eqb unit "h" then n * 3
    else if String.eqb unit "d" then n * 24 * 3
    else n * 30 * 24 * 3) <= exactBound)%Z ->
  duration p = Some (toString (Int n) ++ unit) ->
  calculateAmount p =
  if String.eqb unit "h" then Int (n * 3)
  else if String.eqb unit "d" then Int (n * 24 * 3)
  else Int (n * 30 * 24 * 3).
Proof.
  intros Hn Hunit Hb Hd.
  destruct (toString_digits n Hn) as [Hne Hds].
  unfold calculateAmount. rewrite Hd.
  unfold truthy_str, or_else. rewrite (append_nonempty _ _ Hne).
  cbn [negb].
  rewrite (amount_pattern_exec _ _ Hne Hds Hunit).
  unfold group. cbn [captures lookup Nat.eqb].
  simpl in Hunit. decompose [or] Hunit; subst; try contradiction;
    cbn [String.eqb Ascii.eqb Bool.eqb] in Hb |- *;
    rewrite (parseInt_toString n) by lia;
    rewrite ?mul_exact by lia; reflexivity.
Qed.

Lemma duration_groups (text : string) (m : RegExpMatch) :
  exec true DURATION_REGEX text = Some m ->
  (digitRun (group m 1)
   /\ parseInt (group m 1) = ofZ (numeralValue (group m 1)))
  /\ (exists w, In w durationWords
        /\ (toLowerCase (group m 2) = w \/ toLowerCase (group m 2) = w ++ "s")).
Proof.
  intros H. split.
  - apply group_captured with (i := 1%nat) in H; [|left; left; reflexivity].
    unfold DURATION_REGEX in H. cbn [seqs] in H.
    inversion H; subst; [|no_capture].
    match goal with
    | C : Captured _ (Grp 1 digits1) _ _ |- _ =>
        inversion C; subst; [|no_capture]
    end.
    eapply captured_number; eassumption.
  - apply group_captured with (i := 2%nat) in H;
      [|right; right; left; reflexivity].
    unfold DURATION_REGEX in H. cbn [seqs] in H.
    inversion H; subst; [no_capture|].
    match goal with
    | C : Captured _ (Seq spaces _) _ _ |- _ =>
        inversion C; subst; [no_capture|]
    end.
    match goal with
    | C : Captured _ (Grp 2 _) _ _ |- _ =>
        inversion C as [i r w M| | | | |]; subst; [|no_capture]
    end.
    apply (matches_alts_words durationWords) in M; [|discriminate].
    destruct M as (w & Hw & Hl). exists w. split; [exact Hw|].
    simpl in Hw. decompose [or] Hw; subst; try contradiction; exact Hl.
Qed.

Lemma hoursPer_bound (n : Z) (w : string) :
  (0 <= n)%Z -> In w durationWords ->
  (3 * (n * hoursPer w) <= exactBound)%Z ->
  (n <= exactBound)%Z
  /\ (w = "week" -> n * 7 <= exactBound)%Z.
Proof.
  intros Hn Hw Hb. simpl in Hw.
  decompose [or] Hw; subst; try contradiction;
    unfold hoursPer in Hb; cbn [String.eqb Ascii.eqb Bool.eqb orb] in Hb;
    (split; [lia|]); intros E; try discriminate E; lia.
Qed.

(** The duration block writes the canonical string of the number and
    unit word it matched, as long as the number is within the bound. *)
Lemma extractDuration_by_word (text : string) (m : RegExpMatch) (n : Z) (w : string) :
  exec true DURATION_REGEX text = Some m ->
  parseInt (group m 1) = ofZ n ->
  (0 <= n)%Z ->
  In w durationWords ->
  (3 * (n * hoursPer w) <= exactBound)%Z ->
  toLowerCase (group m 2) = w \/ toLowerCase (group m 2) = w ++ "s" ->
  duration (extractDuration text emptyParams) = Some (canonicalDuration n w).
Proof.
  intros H Hp Hn Hw Hb Hl.
  destruct (hoursPer_bound n w Hn Hw Hb) as [Hb1 Hb7].
  unfold extractDuration. rewrite H. cbv zeta. rewrite Hp.
  rewrite (ofZ_exact n) by lia.
  simpl in Hw.
  decompose [or] Hw; subst; try contradiction;
    destruct Hl as [-> | ->];
    repeat match goal with
           | |- context [if ?c then _ else _] =>
               let v := eval vm_compute in c in change c with v; cbv iota
           end;
    unfold canonicalDuration; cbn [String.eqb Ascii.eqb Bool.eqb orb];
    try (rewrite mul_exact by (specialize (Hb7 eq_refl); lia));
    rewrite numberToString_exact
      by (try specialize (Hb7 eq_refl); lia);
    reflexivity.
Qed.

Lemma calculateAmount_by_word (p : ExtractedParams) (n : Z) (w : string) :
  (0 <= n)%Z -> In w durationWords ->
  (3 * (n * hoursPer w) <= exactBound)%Z ->
  duration p = Some (canonicalDuration n w) ->
  calculateAmount p = Int (3 * (n * hoursPer w)).
Proof.
  intros Hn Hw Hb Hd. simpl in Hw.
  decompose [or] Hw; subst; try contradiction;
    unfold canonicalDuration in Hd; cbn [String.eqb Ascii.eqb Bool.eqb orb] in Hd;
    unfold hoursPer in Hb |- *; cbn [String.eqb Ascii.eqb Bool.eqb orb] in Hb |- *;
    (erewrite calculateAmount_canonical; [|..|exact Hd]);
    try (simpl; tauto);
    cbn [String.eqb Ascii.eqb Bool.eqb]; try lia; f_equal; lia.
Qed.

Lemma assoc_head (k : string) (v : value) (fs : list (string * value)) :
  Js.assoc k ((k, v) :: fs) = Some v.
Proof. simpl. now rewrite String.eqb_refl. Qed.

Lemma get_head (k : string) (v : value) (fs : list (string * value)) :
  Js.get (VObj ((k, v) :: fs)) k = Normal v.
Proof. unfold Js.get. now rewrite assoc_head. Qed.

Lemma rendered_amount (params : ExtractedParams) :
  Js.get_path (amountPath params) (generateYamlConfig params)
  = Normal (VNum (or_num (amount params) (Int 15))).
Proof.
  unfold amountPath, generateYamlConfig. cbv zeta.
  set (name_ := or_str (name params) "py-cuda").
  set (region_ := or_str (region params) "westcoast").
  cbn [Js.get_path]. 
  change (Js.get (VObj ?fs) "profiles") with (Normal (or_else (Js.assoc "profiles" fs) VUndef)).
  cbn [Js.assoc String.eqb Ascii.eqb Bool.eqb or_else bind].
  change (Js.get (VObj ?fs) "placement") with (Normal (or_else (Js.assoc "placement" fs) VUndef)).
  cbn [Js.assoc String.eqb Ascii.eqb Bool.eqb or_else bind].
  rewrite get_head. cbn [bind].
  rewrite get_head. cbn [bind].
  rewrite get_head. cbn [bind].
  reflexivity.
Qed.

(** C5, as stated, fails: the duration is written from a double and
    read back.  On "1000000000000000000000 hours" the pattern matches
    the number 10^21 and the unit "hours", the duration is written in
    exponent form, "1e+21h", which [calculateAmount] reads as 1 unit
    "e", and the amount is the default 6 rather than 3 * 10^21. *)
Lemma price_amount_huge_duration :
  (exists m,
     exec true DURATION_REGEX "1000000000000000000000 hours" = Some m
     /\ numeralValue (group m 1) = (10 ^ 21)%Z
     /\ toLowerCase (group m 2) = "hours")
  /\ duration (extractFromDescription "1000000000000000000000 hours")
     = Some "1e+21h"
  /\ amount (extractFromDescription "1000000000000000000000 hours")
     = Some (Int 6)
  /\ amount (extractFromDescription "1000000000000000000000 hours")
     <> Some (ofZ (3 * (10 ^ 21 * hoursPer "hour"))).
Proof.
  split; [|split; [|split]].
  - eexists. split; [vm_compute; reflexivity|]. split; vm_compute; reflexivity.
  - vm_compute. reflexivity.
  - vm_compute. reflexivity.
  - vm_compute. discriminate.
Qed.

(** C5 (amended): extraction always sets the price amount.  Without a
    duration in the text it is the default 6; with one, as long as 3
    per hour times the hours of the matched number and unit (day = 24
    h, week = 7 days, month = 30 days) stays within 2^53, the duration
    is the canonical string of number and unit and the amount is that
    product.  [calculateAmount] gives 9 on "3h", 144 on "2d", and 6 on
    a duration that is absent or that it does not recognize.  The
    renderer, on a parameter set without amount, writes 15. *)
Theorem price_amount :
  (forall text,
     amount (extractFromDescription text) <> None
     /\ (exec true DURATION_REGEX text = None ->
         duration (extractFromDescription text) = None
         /\ amount (extractFromDescription text) = Some (Int 6))
     /\ (forall m, exec true DURATION_REGEX text = Some m ->
           exists w,
             digitRun (group m 1)
             /\ In w durationWords
             /\ (toLowerCase (group m 2) = w \/ toLowerCase (group m 2) = w ++ "s")
             /\ ((3 * (numeralValue (group m 1) * hoursPer w) <= exactBound)%Z ->
                 duration (extractFromDescription text)
                 = Some (canonicalDuration (numeralValue (group m 1)) w)
                 /\ amount (extractFromDescription text)
                    = Some (Int (3 * (numeralValue (group m 1) * hoursPer w))))))
  /\ (forall p, duration p = Some "3h" -> calculateAmount p = Int 9)
  /\ (forall p, duration p = Some "2d" -> calculateAmount p = Int 144)
  /\ (forall p, duration p = None -> calculateAmount p = Int 6)
  /\ (forall p d, duration p = Some d ->
        exec true AMOUNT_DURATION_REGEX d = None -> calculateAmount p = Int 6)
  /\ (forall p d m, duration p = Some d ->
        exec true AMOUNT_DURATION_REGEX d = Some m ->
        ~ In (toLowerCase (group m 2)) durationUnits ->
        calculateAmount p = Int 6)
  /\ (forall p, amount p = None ->
        Js.get_path (amountPath p) (generateYamlConfig p)
        = Normal (VNum (Int 15))).
Proof.
  split; [|split; [|split; [|split; [|split; [|split]]]]].
  - intros text.
    destruct (extract_amount text) as (q & Hq & Ha).
    rewrite Ha, extract_duration. rewrite extract_duration in Hq.
    split; [discriminate|]. split.
    + intros Hnone. unfold extractDuration in *. rewrite Hnone in *.
      split; [reflexivity|]. unfold calculateAmount. now rewrite Hq.
    + intros m Hm.
      destruct (duration_groups text m Hm) as ((Hrun & Hp) & (w & Hw & Hl)).
      exists w.
      repeat (split; [assumption|]).
      intros Hb.
      pose proof (numeralValue_nonneg (group m 1)) as Hn.
      pose proof (extractDuration_by_word text m _ w Hm Hp Hn Hw Hb Hl) as Hd.
      split; [exact Hd|].
      rewrite Hd in Hq. now rewrite (calculateAmount_by_word q _ w Hn Hw Hb Hq).
  - intros p Hd. unfold calculateAmount. rewrite Hd. reflexivity.
  - intros p Hd. unfold calculateAmount. rewrite Hd. reflexivity.
  - intros p Hd. unfold calculateAmount. rewrite Hd. reflexivity.
  - intros p d Hd Hnone. unfold calculateAmount. rewrite Hd.
    cbn [or_else]. rewrite Hnone. now destruct (negb (truthy_str (Some d))).
  - intros p d m Hd Hm Hunit. unfold calculateAmount. rewrite Hd.
    cbn [or_else]. rewrite Hm. cbv zeta.
    destruct (negb (truthy_str (Some d))); [reflexivity|].
    destruct (String.eqb_spec (toLowerCase (group m 2)) "h") as [E|_];
      [exfalso; apply Hunit; rewrite E; simpl; tauto|].
    destruct (String.eqb_spec (toLowerCase (group m 2)) "d") as [E|_];
      [exfalso; apply Hunit; rewrite E; simpl; tauto|].
    destruct (String.eqb_spec (toLowerCase (group m 2)) "mon") as [E|_];
      [exfalso; apply Hunit; rewrite E; simpl; tauto|].
    reflexivity.
  - intros p Ha. rewrite rendered_amount, Ha. reflexivity.
Qed.

Lemma price_amount_witness :
  calculateAmount (set_duration emptyParams "3h") = Int 9
  /\ amount (extractFromDescription "a notebook, please") = Some (Int 6)
  /\ amount (extractFromDescription "for 3 weeks") = Some (Int 1512).
Proof.
  destruct price_amount as (Htext & H3h & _).
  split; [|split].
  - apply H3h. reflexivity.
  - destruct (Htext "a notebook, please") as (_ & Hnone & _).
    apply Hnone. vm_compute. reflexivity.
  - destruct (Htext "for 3 weeks") as (_ & _ & Hsome).
    destruct (exec true DURATION_REGEX "for 3 weeks") as [m|] eqn:E;
      [|vm_compute in E; discriminate].
    destruct (Hsome m eq_refl) as (w & _ & Hw & Hl & H).
    vm_compute in E. injection E as <-.
    assert (w = "week") as ->.
    { simpl in Hw. decompose [or] Hw; subst; try contradiction;
        destruct Hl as [Hl|Hl]; vm_compute in Hl; try discriminate Hl;
        reflexivity. }
    destruct H as [_ Ha]; [vm_compute; discriminate|].
    exact Ha.
Defined.

(* ================================================================== *)
(** * Missing parameters *)
(* ================================================================== *)

Lemma isGpuWorkload_spec (params : ExtractedParams) :
  isGpuWorkload params = true <-> gpuWorkloadImage params.
Proof.
  unfold isGpuWorkload, gpuWorkloadImage, truthy_str, or_else.
  destruct (image params) as [img|]; split.
  - intros H. apply andb_prop in H. destruct H as [_ H].
    exists img. split; [reflexivity|].
    apply orb_prop in H. destruct H as [H|H]; [|tauto].
    apply orb_prop in H. tauto.
  - intros (img' & [= <-] & H).
    destruct (String.eqb_spec img "") as [->|_].
    + vm_compute in H. decompose [or] H; discriminate.
    + cbn [negb andb]. decompose [or] H;
        match goal with E : includes _ _ = true |- _ => rewrite E end;
        rewrite ?orb_true_r; reflexivity.
  - discriminate.
  - intros (img' & [=] & _).
Qed.

(** C4: "GPU model" is reported exactly when the image names a GPU
    workload and no GPU was extracted; "CPU cores", "memory (RAM)",
    "storage" and "duration" are reported whenever the field is absent
    (or holds the falsy value 0 / empty text), whatever the other fields
    are; and the labels come in the fixed order CPU, memory, storage,
    duration, GPU. *)
Theorem missing_parameters (params : ExtractedParams) :
  (In "GPU model" (identifyMissingParams params)
   <-> gpuWorkloadImage params /\ gpu params = None)
  /\ (In "CPU cores" (identifyMissingParams params)
      <-> truthy_num (cpu params) = false)
  /\ (In "memory (RAM)" (identifyMissingParams params)
      <-> truthy_str (memory params) = false)
  /\ (In "storage" (identifyMissingParams params)
      <-> truthy_str (storage params) = false)
  /\ (In "duration" (identifyMissingParams params)
      <-> truthy_str (duration params) = false)
  /\ truthy_num None = false /\ truthy_str None = false
  /\ Subseq (identifyMissingParams params) missingLabels.
Proof.
  rewrite <- isGpuWorkload_spec.
  unfold identifyMissingParams, push_if, missingLabels.
  destruct (isGpuWorkload params), (gpu params) as [g|],
    (truthy_num (cpu params)), (truthy_str (memory params)),
    (truthy_str (storage params)), (truthy_str (duration params));
    cbn [negb isSome app];
    (split; [|split; [|split; [|split; [|split; [|split; [|split]]]]]]);
    try reflexivity;
    try (repeat first [apply SubNil | apply SubKeep | apply SubSkip]);
    (split; intros H; simpl in *;
     try (decompose [or and] H);
     try discriminate; try contradiction; try tauto).
Qed.

Lemma missing_parameters_witness :
  In "GPU model"
     (identifyMissingParams (extractFromDescription "a jupyter notebook")).
Proof.
  destruct (missing_parameters (extractFromDescription "a jupyter notebook"))
    as [H _].
  apply H. split.
  - exists jupyterImage. split; [reflexivity|]. right. left. reflexivity.
  - reflexivity.
Defined.

(* ================================================================== *)
(** * The merge of a conversation turn *)
(* ================================================================== *)

(** C1, as stated, fails on the GPU sub-object.  The conversation above
    is the state the handler reaches after the description "8 cores"
    and the answer "a100".  When the next answer is "2 gpus", the new
    extraction provides a GPU with a unit count and no model, and the
    merged GPU is that object; the old model "a100" is gone. *)
Lemma turn_merge_drops_old_gpu_model :
  let new := params (processDescription noParse noEnhance
                       (combinedDescription a100Conversation "2 gpus") None) in
  let merged := updatedParams noParse noEnhance None a100Conversation "2 gpus" in
  currentParams a100Conversation
  = spreadParams (params (processDescription noParse noEnhance "8 cores" None))
                 (params (processDescription noParse noEnhance "8 cores a100" None))
  /\ gpu (currentParams a100Conversation) = Some (mkGpu (Some (Int 1)) (Some "a100"))
  /\ gpu new = Some (mkGpu (Some (Int 2)) None)
  /\ gpu merged = Some (mkGpu (Some (Int 2)) None)
  /\ ~ preservesOldGpuKeys (currentParams a100Conversation) new merged.
Proof.
  cbv zeta. split; [vm_compute; reflexivity|].
  split; [vm_compute; reflexivity|]. split; [vm_compute; reflexivity|].
  split; [vm_compute; reflexivity|].
  intros P. destruct (P _ eq_refl) as (g & Hg & Hmodel & _).
  assert (E : gpu (updatedParams noParse noEnhance None a100Conversation "2 gpus")
              = Some (mkGpu (Some (Int 2)) None)) by (vm_compute; reflexivity).
  rewrite E in Hg. injection Hg as <-.
  specialize (Hmodel "a100" eq_refl).
  assert (N : model (or_else (gpu (params (processDescription noParse noEnhance
                 (combinedDescription a100Conversation "2 gpus") None))) emptyGpu)
              = None) by (vm_compute; reflexivity).
  specialize (Hmodel N). discriminate Hmodel.
Qed.

(** C1 (amended): the text processed for a turn is the original
    description, a space and the answer; the result of the pipeline on
    it is merged over the current parameters by shallow override: every
    top-level property, the GPU object and the environment mapping
    included, is the new one when the new extraction provides it and
    the old one otherwise. *)
Theorem turn_merge
        (JSON_parse : string -> completion ExtractedParams)
        (enhance_request : string -> ExtractedParams -> completion (list ContentBlock))
        (CLAUDE_API_KEY : option string)
        (conversation : ConversationState) (answer : string) :
  let old := currentParams conversation in
  let new := params (processDescription JSON_parse enhance_request
                       (originalDescription conversation ++ " " ++ answer)
                       CLAUDE_API_KEY) in
  let merged := updatedParams JSON_parse enhance_request CLAUDE_API_KEY
                              conversation answer in
  overrides (image old) (image new) (image merged)
  /\ overrides (pullPolicy old) (pullPolicy new) (pullPolicy merged)
  /\ overrides (ports old) (ports new) (ports merged)
  /\ overrides (env old) (env new) (env merged)
  /\ overrides (cpu old) (cpu new) (cpu merged)
  /\ overrides (memory old) (memory new) (memory merged)
  /\ overrides (storage old) (storage new) (storage merged)
  /\ overrides (gpu old) (gpu new) (gpu merged)
  /\ overrides (name old) (name new) (name merged)
  /\ overrides (duration old) (duration new) (duration merged)
  /\ overrides (mode old) (mode new) (mode merged)
  /\ overrides (region old) (region new) (region merged)
  /\ overrides (amount old) (amount new) (amount merged)
  /\ overrides (count old) (count new) (count merged).
Proof.
  cbv zeta. unfold updatedParams, combinedDescription, overrides.
  repeat split.
Qed.

(* ================================================================== *)
(** * Enhancement never fails the pipeline *)
(* ================================================================== *)

Section Enhancement.
Variable JSON_parse : string -> completion ExtractedParams.
Variable enhance_request :
  string -> ExtractedParams -> completion (list ContentBlock).

Local Abbreviation enhance := (enhanceWithClaude JSON_parse enhance_request).
Local Abbreviation process := (processDescription JSON_parse enhance_request).

(** C8: on a failed request, or on a reply (even an empty one) that
    holds no parseable object, [enhanceWithClaude] returns the
    parameters it was given, and the pipeline gives the result it gives
    without an API key; when an object is parsed and has no amount, the
    result is that object with the amount of the given parameters, or
    15 when they have none (or a falsy one). *)
Theorem enhancement_fallback (description : string) (extracted : ExtractedParams) :
  (forall message,
      enhance_request description extracted = Throw message ->
      enhance description extracted = extracted)
  /\ (enhance_request description extracted = Normal [] ->
      enhance description extracted = extracted)
  /\ (forall content text,
        enhance_request description extracted = Normal content ->
        firstText content = Normal text ->
        noParseableObject JSON_parse text ->
        enhance description extracted = extracted)
  /\ (forall key,
        enhance description (extractFromDescription description)
        = extractFromDescription description ->
        process description (Some key) = process description None)
  /\ (forall content text jsonMatch enhanced,
        enhance_request description extracted = Normal content ->
        firstText content = Normal text ->
        exec false JSON_OBJECT_REGEX text = Some jsonMatch ->
        JSON_parse (matched jsonMatch) = Normal enhanced ->
        amount enhanced = None ->
        enhance description extracted
        = set_amount enhanced (Some (or_num (amount extracted) (Int 15)))).
Proof.
  split; [|split; [|split; [|split]]].
  - intros message H. unfold enhanceWithClaude. now rewrite H.
  - intros H. unfold enhanceWithClaude. now rewrite H.
  - intros content text H Htext Hno. unfold enhanceWithClaude.
    rewrite H. cbn [bind]. rewrite Htext. cbn [bind].
    unfold parseClaudeResponse, noParseableObject in *.
    destruct (exec false JSON_OBJECT_REGEX text); [|reflexivity].
    destruct Hno as [message ->]. reflexivity.
  - intros key Hsame. unfold processDescription.
    destruct (truthy_str (Some key)); [|reflexivity].
    cbv zeta. now rewrite Hsame.
  - intros content text jsonMatch enhanced H Htext Hexec Hparse Hamount.
    unfold enhanceWithClaude.
    rewrite H. cbn [bind]. rewrite Htext. cbn [bind].
    unfold parseClaudeResponse. now rewrite Hexec, Hparse, Hamount.
Qed.
End Enhancement.

Lemma enhancement_fallback_witness :
  enhanceWithClaude tinyParse noEnhance "4 cores" (extractFromDescription "4 cores")
  = extractFromDescription "4 cores"
  /\ enhanceWithClaude tinyParse proseReply "4 cores" (extractFromDescription "4 cores")
     = set_amount emptyParams (Some (Int 6)).
Proof.
  split.
  - destruct (enhancement_fallback tinyParse noEnhance "4 cores"
                (extractFromDescription "4 cores")) as (H & _).
    apply (H "connection refused"). reflexivity.
  - destruct (enhancement_fallback tinyParse proseReply "4 cores"
                (extractFromDescription "4 cores")) as (_ & _ & _ & _ & H).
    apply (H [TextBlock "Here you are: {} (nothing to add)"]
             "Here you are: {} (nothing to add)"
             (mkMatch "{}" []) emptyParams); reflexivity.
Defined.

(* ================================================================== *)
(** * Completion installs a GPU section *)
(* ================================================================== *)

Lemma rendered_gpu (params : ExtractedParams) :
  Js.get_path (gpuPath params) (generateYamlConfig params)
  = Normal (match gpu params with
            | Some g => gpuResource g
            | None => VUndef
            end).
Proof.
  unfold gpuPath, generateYamlConfig. cbv zeta.
  set (name_ := or_str (name params) "py-cuda").
  cbn [Js.get_path].
  change (Js.get (VObj ?fs) "profiles")
    with (Normal (or_else (Js.assoc "profiles" fs) VUndef)).
  cbn [Js.assoc String.eqb Ascii.eqb Bool.eqb or_else bind].
  change (Js.get (VObj ?fs) "compute")
    with (Normal (or_else (Js.assoc "compute" fs) VUndef)).
  cbn [Js.assoc String.eqb Ascii.eqb Bool.eqb or_else bind].
  rewrite get_head. cbn [bind].
  rewrite get_head. cbn [bind].
  unfold generateResourcesConfig.
  destruct (truthy_str (storage params)), (gpu params); reflexivity.
Qed.

Lemma get_path_app (p q : list string) (v : value) :
  Js.get_path (p ++ q)%list v = (c <- Js.get_path p v ;; Js.get_path q c).
Proof.
  revert v. induction p as [|k p IH]; intros v; cbn [app Js.get_path].
  - reflexivity.
  - destruct (Js.get v k) as [c|message]; cbn [bind]; [apply IH|reflexivity].
Qed.

Lemma mergeWithDefaults_gpu (params : ExtractedParams) :
  gpu (mergeWithDefaults params)
  = Some (mkGpu (Some (or_else (units (or_else (gpu params) emptyGpu)) (Int 1)))
                (Some (or_else (model (or_else (gpu params) emptyGpu))
                               "rtx6000-ada"))).
Proof.
  unfold mergeWithDefaults, spreadGpu, spread_field. cbn [gpu].
  destruct (gpu params) as [[[u|] [m|]]|]; reflexivity.
Qed.

(** C10: [mergeWithDefaults] always yields a GPU object, with unit
    count 1 and model "rtx6000-ada" where the parameters had none; so
    whenever the pipeline finds no missing parameter, its result has a
    GPU with both fields set and the rendered document has a GPU
    resource block: a mapping with the unit count ([1] for a count of
    0) under "units" and the model under
    "attributes.vendor.nvidia[0].model", as for a text that never
    mentions a GPU, whose block has 1 unit of "rtx6000-ada". *)
Theorem completion_installs_gpu :
  (forall p, gpu (mergeWithDefaults p)
             = Some (mkGpu
                 (Some (or_else (units (or_else (gpu p) emptyGpu)) (Int 1)))
                 (Some (or_else (model (or_else (gpu p) emptyGpu)) "rtx6000-ada"))))
  /\ (forall JSON_parse enhance_request description key,
        let r := processDescription JSON_parse enhance_request description key in
        missingParams r = [] ->
        exists g u m,
          gpu (params r) = Some g /\ units g = Some u /\ model g = Some m
          /\ Js.get_path (gpuPath (params r)) (generateYamlConfig (params r))
             = Normal
                 (VObj [("units",
                         VNum (if JsNumber.truthy u then u else Int 1));
                        ("attributes",
                          VObj [("vendor",
                            VObj [("nvidia",
                              VArr [VObj [("model",
                                VStr (if String.eqb m "" then "rtx6000-ada"
                                      else m))]])])])])
          /\ Js.get_path (gpuPath (params r) ++ ["units"])
                         (generateYamlConfig (params r))
             = Normal (VNum (if JsNumber.truthy u then u else Int 1))
          /\ Js.get_path
               (gpuPath (params r) ++ ["attributes"; "vendor"; "nvidia"; "0"; "model"])
               (generateYamlConfig (params r))
             = Normal (VStr (if String.eqb m "" then "rtx6000-ada" else m)))
  /\ (let r := processDescription noParse noEnhance
                 "8 cores, 16GB RAM and 100GB disk for 2 hours" None in
      gpu (extractFromDescription
             "8 cores, 16GB RAM and 100GB disk for 2 hours") = None
      /\ missingParams r = []
      /\ gpu (params r) = Some (mkGpu (Some (Int 1)) (Some "rtx6000-ada"))
      /\ Js.get_path (gpuPath (params r)) (generateYamlConfig (params r))
         = Normal (gpuBlock (Int 1) "rtx6000-ada")).
Proof.
  split; [exact mergeWithDefaults_gpu|]. split.
  - intros JSON_parse enhance_request description key r Hmissing.
    subst r. unfold processDescription in *. cbv zeta in *.
    cbn [missingParams params] in *. rewrite Hmissing. cbn [List.length Nat.eqb].
    set (p := if truthy_str key then _ else _).
    pose proof (rendered_gpu (mergeWithDefaults p)) as Hblock.
    rewrite mergeWithDefaults_gpu in Hblock.
    rewrite mergeWithDefaults_gpu.
    do 3 eexists.
    split; [reflexivity|]. split; [reflexivity|]. split; [reflexivity|].
    split; [exact Hblock|].
    split.
    + rewrite get_path_app, Hblock. reflexivity.
    + rewrite get_path_app, Hblock. reflexivity.
  - cbv zeta. repeat split; vm_compute; reflexivity.
Qed.

Lemma completion_installs_gpu_witness :
  exists g,
    gpu (params (processDescription noParse noEnhance
                   "2 cpus 4GB memory 10GB storage 1 day" None)) = Some g
    /\ units g = Some (Int 1) /\ model g = Some "rtx6000-ada".
Proof.
  destruct completion_installs_gpu as (_ & H & _).
  destruct (H noParse noEnhance "2 cpus 4GB memory 10GB storage 1 day" None)
    as (g & u & m & Hg & Hu & Hm & _).
  - vm_compute. reflexivity.
  - exists g. split; [exact Hg|].
    assert (E : gpu (params (processDescription noParse noEnhance
                  "2 cpus 4GB memory 10GB storage 1 day" None))
                = Some (mkGpu (Some (Int 1)) (Some "rtx6000-ada")))
      by (vm_compute; reflexivity).
    rewrite E in Hg. injection Hg as <-. split; reflexivity.
Defined.

(* ================================================================== *)
(** * Validation *)
(* ================================================================== *)

Section Extends.

Lemma extends_ret (A : Type) (a : A) : extends (Validate.ret a).
Proof. intros errs. exists []. simpl. now rewrite List.app_nil_r. Qed.

Lemma extends_lift (A : Type) (c : completion A) : extends (Validate.lift c).
Proof. intros errs. exists []. simpl. now rewrite List.app_nil_r. Qed.

Lemma extends_push (msg : string) : extends (Validate.push msg).
Proof. intros errs. exists [msg]. reflexivity. Qed.

Lemma extends_bind (A B : Type) (m : Validate.M A) (f : A -> Validate.M B) :
  extends m -> (forall a, extends (f a)) -> extends (Validate.mbind m f).
Proof.
  intros Hm Hf errs. unfold Validate.mbind.
  destruct (Hm errs) as [more1 E1].
  destruct (m errs) as [[a|msg] errs1]; simpl in E1; subst errs1.
  - destruct (Hf a (errs ++ more1)%list) as [more2 E2].
    exists (more1 ++ more2)%list. now rewrite E2, List.app_assoc.
  - exists more1. reflexivity.
Qed.

Lemma extends_when (b : bool) (m : Validate.M unit) :
  extends m -> extends (Validate.when b m).
Proof. destruct b; simpl; auto using extends_ret. Qed.

Lemma extends_for_each (A : Type) (xs : list A) (body : A -> Validate.M unit) :
  (forall x, extends (body x)) -> extends (Validate.for_each xs body).
Proof.
  intros Hb. induction xs as [|x xs IH]; simpl.
  - apply extends_ret.
  - apply extends_bind; auto.
Qed.

End Extends.

Ltac extends_step :=
  first [ apply extends_bind; [|intros ?]
        | apply extends_lift
        | apply extends_push
        | apply extends_ret
        | apply extends_when
        | apply extends_for_each; intros ?
        | match goal with
          | |- extends (if ?b then _ else _) => destruct b
          end ].


Lemma extends_checkProfiles (profiles : value) :
  extends (checkProfiles profiles).
Proof.
  unfold checkProfiles. repeat extends_step.
Qed.

Lemma not_strict_eq_str_true (v : value) (s : string) :
  v <> VStr s -> not_strict_eq_str v s = true.
Proof.
  destruct v; simpl; auto. intros H.
  destruct (String.eqb_spec s0 s); [subst; congruence|reflexivity].
Qed.

Lemma mbind_lift_normal (A B : Type) (a : A) (f : A -> Validate.M B)
      (errs : list string) :
  Validate.mbind (Validate.lift (Normal a)) f errs = f a errs.
Proof. reflexivity. Qed.

Lemma mbind_push (B : Type) (msg : string) (k : unit -> Validate.M B)
      (errs : list string) :
  Validate.mbind (Validate.push msg) k errs = k tt (errs ++ [msg])%list.
Proof. reflexivity. Qed.

(** With a version that is not "1.0" the version error is the first
    error recorded, whatever happens next. *)
Lemma validateConfig_version (config version : value) :
  Js.get config "version" = Normal version ->
  version <> VStr "1.0" ->
  exists outcome more,
    validateConfig config [] = (outcome, version_error :: more).
Proof.
  intros Hget Hne. unfold validateConfig.
  rewrite Hget, mbind_lift_normal, (not_strict_eq_str_true _ _ Hne).
  cbn [Validate.when]. rewrite mbind_push. cbn [app].
  match goal with
  | |- context [?rest [version_error]] => assert (E : extends rest)
  end.
  { repeat first [apply extends_checkProfiles | extends_step]. }
  match goal with
  | |- context [?rest [version_error]] =>
      destruct (E [version_error]) as [more Hmore];
      destruct (rest [version_error]) as [outcome errs]
  end.
  simpl in Hmore. subst errs. eauto.
Qed.

(** C9, as stated, fails on the empty document: a text that parses to
    null has no version field, yet validation reports only that the
    text is invalid YAML, not the version error. *)
Lemma version_error_absent_on_null_document :
  sexpLoad "null" = Normal VNull
  /\ valid (validateYaml sexpLoad "null") = false
  /\ errors (validateYaml sexpLoad "null")
     = ["Invalid YAML: Cannot read properties of null (reading 'version')"]
  /\ ~ In version_error (errors (validateYaml sexpLoad "null")).
Proof.
  split; [vm_compute; reflexivity|].
  split; [vm_compute; reflexivity|].
  split; [vm_compute; reflexivity|].
  vm_compute. intros [H|[]]. discriminate H.
Qed.

(** C9 (amended): a text that parses to anything but null and
    undefined has a reading of its version field (the value
    [undefined] when the field is absent), and when that reading is
    anything but the string "1.0", validation fails and reports the
    version error.  A text that parses to null or undefined fails
    validation too, with the single error "Invalid YAML: ..." and
    without the version error. *)
Theorem version_required
        (yaml_load : string -> completion value)
        (yamlConfig : string) (config : value) :
  yaml_load yamlConfig = Normal config ->
  (config <> VNull -> config <> VUndef ->
   exists version,
     Js.get config "version" = Normal version
     /\ (version <> VStr "1.0" ->
         valid (validateYaml yaml_load yamlConfig) = false
         /\ In version_error (errors (validateYaml yaml_load yamlConfig))))
  /\ (config = VNull \/ config = VUndef ->
      valid (validateYaml yaml_load yamlConfig) = false
      /\ (exists message,
            errors (validateYaml yaml_load yamlConfig)
            = ["Invalid YAML: " ++ message])
      /\ ~ In version_error (errors (validateYaml yaml_load yamlConfig))).
Proof.
  intros Hload. split.
  - intros Hnull Hundef.
    assert (Hget : exists version, Js.get config "version" = Normal version).
    { destruct config; try congruence; eexists; cbn;
        try reflexivity;
        match goal with
        | |- (if ?b then _ else _) = _ => destruct b; reflexivity
        end. }
    destruct Hget as [version Hget]. exists version. split; [exact Hget|].
    intros Hne.
    destruct (validateConfig_version config version Hget Hne)
      as (outcome & more & E).
    unfold validateYaml. rewrite Hload, mbind_lift_normal, E.
    destruct outcome; simpl; auto.
  - assert (Hq : forall message : string,
               ~ In version_error ["Invalid YAML: " ++ message]).
    { intros message [H|[]]. vm_compute in H. discriminate H. }
    intros [-> | ->]; unfold validateYaml; rewrite Hload;
      (split; [reflexivity|]); (split; [eexists; reflexivity|]);
      apply Hq.
Qed.

Lemma version_required_witness :
  valid (validateYaml sexpLoad (sexpDump unversionedDocument)) = false
  /\ In version_error
        (errors (validateYaml sexpLoad (sexpDump unversionedDocument))).
Proof.
  destruct (version_required sexpLoad (sexpDump unversionedDocument)
              unversionedDocument) as [H _].
  - vm_compute. reflexivity.
  - destruct H as (version & Hget & Hv); [discriminate|discriminate|].
    apply Hv. vm_compute in Hget. injection Hget as <-. discriminate.
Defined.

(** ** Rendered documents validate *)

Lemma validateConfig_documentOf (name_ region_ duration_ mode_ : string)
      (service resources amount_ entry : value) :
  duration_ <> "" -> mode_ <> "" ->
  validateConfig (documentOf name_ region_ duration_ mode_
                             service resources amount_ entry) []
  = (Normal tt, []).
Proof.
  intros Hd Hm.
  apply String.eqb_neq in Hd. apply String.eqb_neq in Hm.
  unfold documentOf, validateConfig, checkProfiles, checkPricing,
    Validate.mbind, Validate.lift, Validate.when, Validate.push, Validate.ret,
    missing_or_empty.
  cbn. rewrite Hd, Hm. cbn.
  rewrite !String.eqb_refl. cbn.
  rewrite !String.eqb_refl.
  unfold Validate.mbind, Validate.ret. cbn.
  reflexivity.
Qed.

Lemma or_str_nonempty (s : option string) (d : string) :
  d <> "" -> or_str s d <> "".
Proof.
  intros Hd. unfold or_str. destruct s as [s|]; [|exact Hd].
  destruct (String.eqb_spec s ""); assumption.
Qed.

Lemma generateYamlConfig_shape (params : ExtractedParams) :
  exists service resources entry,
    generateYamlConfig params
    = documentOf (or_str (name params) "py-cuda")
                 (or_str (region params) "westcoast")
                 (or_str (duration params) "2h")
                 (Mode_str (or_else (mode params) provider))
                 service resources
                 (VNum (or_num (amount params) (Int 15))) entry.
Proof. do 3 eexists. reflexivity. Qed.

Lemma validateConfig_rendered (params : ExtractedParams) :
  validateConfig (generateYamlConfig params) [] = (Normal tt, []).
Proof.
  destruct (generateYamlConfig_shape params) as (service & resources & entry & ->).
  apply validateConfig_documentOf.
  - apply or_str_nonempty. discriminate.
  - destruct (or_else (mode params) provider); discriminate.
Qed.

Lemma forallb_map_true (A B : Type) (f : A -> B) (P : B -> bool) (xs : list A) :
  (forall x, P (f x) = true) -> forallb P (map f xs) = true.
Proof. intros H. induction xs; simpl; auto. now rewrite H, IHxs. Qed.

Lemma generateYamlConfig_defined (params : ExtractedParams) :
  defined (generateYamlConfig params) = true.
Proof.
  assert (Hexpose : defined (generateExposeConfig params) = true).
  { unfold generateExposeConfig.
    destruct (ports params) as [[|p ps]|]; try reflexivity.
    cbn [defined]. apply forallb_map_true. reflexivity. }
  assert (Henv : defined (generateEnvConfig params) = true).
  { unfold generateEnvConfig. destruct (env params); [|reflexivity].
    cbn [defined]. apply forallb_map_true. reflexivity. }
  assert (Hres : defined (generateResourcesConfig params) = true).
  { unfold generateResourcesConfig.
    destruct (truthy_str (storage params)), (gpu params); reflexivity. }
  unfold generateYamlConfig. cbv zeta.
  cbn [defined forallb snd andb]. now rewrite Hexpose, Henv, Hres.
Qed.

(** C6: the object rendered from any parameter set has no undefined
    field (from the empty set it is the document of the literal
    defaults), and whenever the codec reads the dumped object back as
    it was, validation of the rendered text succeeds with no error; in
    particular for the parameter sets made of defaults only. *)
Theorem render_validates :
  (forall params, defined (generateYamlConfig params) = true)
  /\ generateYamlConfig emptyParams = defaultDocument
  /\ (forall (yaml_dump : value -> string)
             (yaml_load : string -> completion value) params,
        yaml_load (yaml_dump (generateYamlConfig params))
        = Normal (generateYamlConfig params) ->
        validateYaml yaml_load (generateYaml yaml_dump params)
        = mkValidation true [])
  /\ (forall (yaml_dump : value -> string)
             (yaml_load : string -> completion value) params,
        In params [emptyParams; DEFAULT_PARAMS; mergeWithDefaults emptyParams] ->
        yaml_load (yaml_dump (generateYamlConfig params))
        = Normal (generateYamlConfig params) ->
        validateYaml yaml_load (generateYaml yaml_dump params)
        = mkValidation true []).
Proof.
  assert (H : forall (yaml_dump : value -> string)
                     (yaml_load : string -> completion value) params,
             yaml_load (yaml_dump (generateYamlConfig params))
             = Normal (generateYamlConfig params) ->
             validateYaml yaml_load (generateYaml yaml_dump params)
             = mkValidation true []).
  { intros yaml_dump yaml_load params Hround.
    unfold validateYaml, generateYaml.
    rewrite Hround, mbind_lift_normal, validateConfig_rendered. reflexivity. }
  split; [exact generateYamlConfig_defined|].
  split; [reflexivity|]. split; [exact H|].
  intros yaml_dump yaml_load params _. apply H.
Qed.

Lemma render_validates_witness :
  validateYaml sexpLoad (generateYaml sexpDump DEFAULT_PARAMS)
  = mkValidation true [].
Proof.
  destruct render_validates as (_ & _ & _ & H).
  apply H.
  - right. left. reflexivity.
  - vm_compute. reflexivity.
Defined.

(* ================================================================== *)
(** * Updating a document *)
(* ================================================================== *)

Section ObjectFacts.



Lemma put_same (k : string) (x : value) (fs : list (string * value)) :
  Js.assoc k fs = Some x -> Js.put k x fs = fs.
Proof.
  induction fs as [|[k' v] fs IH]; simpl; [discriminate|].
  destruct (String.eqb k k') eqn:E.
  - now intros [= ->].
  - intros H. now rewrite IH.
Qed.



Lemma replace_same (k : string) (c : value) (fs : list (string * value)) :
  Js.assoc k fs = Some c -> Js.replace_field k c fs = fs.
Proof.
  induction fs as [|[k' v] fs IH]; simpl; [discriminate|].
  destruct (String.eqb k k') eqn:E.
  - now intros [= ->].
  - intros H. now rewrite IH.
Qed.

Lemma child_assoc (fs : list (string * value)) (k : string) (c : value) :
  Js.assoc k fs = Some c -> Js.child (VObj fs) k = c.
Proof. unfold Js.child, Js.get. now intros ->. Qed.




(** Assigning the value a property already has changes nothing. *)
Lemma assign_in_same (path : list string) (k : string) (x : value) :
  x <> VUndef ->
  forall root, reachesObj path root ->
    Js.get_path (path ++ [k]) root = Normal x ->
    Js.assign_in path k x root = Normal root.
Proof.
  intros Hx. induction path as [|p rest IH]; intros root H G;
    cbn [reachesObj Js.assign_in Js.assign app Js.get_path] in *.
  - destruct H as [fs ->]. unfold Js.get in G. cbn [bind] in G.
    cbn [Js.assign].
    destruct (Js.assoc k fs) as [v|] eqn:A; cbn [or_else] in G.
    + injection G as ->. now rewrite (put_same _ _ _ A).
    + injection G as <-. congruence.
  - destruct H as (fs & c & -> & Hc & Hrest).
    rewrite (child_assoc _ _ _ Hc).
    unfold Js.get in G. rewrite Hc in G. cbn [or_else bind] in G.
    rewrite (IH c Hrest G). cbn [bind Js.with_child].
    now rewrite (replace_same _ _ _ Hc).
Qed.

End ObjectFacts.

Section EmptyPatch.













End EmptyPatch.




(** The same update, evaluated: the dollar token becomes "CST" and
    nothing else moves. *)
Example update_usd_document :
  Js.get_path (tokenPath usdDocument) usdDocument = Normal (VStr "USD")
  /\ updateYaml sexpDump sexpLoad (sexpDump usdDocument) emptyParams
     = sexpDump defaultDocument.
Proof. split; vm_compute; reflexivity. Qed.

(* ================================================================== *)
(** * The conversation store *)
(* ================================================================== *)

Section StoreFacts.

Lemma store_get_set_same (k : string) (c : ConversationState) (st : Store) :
  store_get k (store_set k c st) = Some c.
Proof.
  induction st as [|[k' c'] st IH]; simpl.
  - now rewrite String.eqb_refl.
  - destruct (String.eqb k k') eqn:E; simpl; rewrite E; auto.
Qed.

Lemma store_get_set_other (k k' : string) (c : ConversationState) (st : Store) :
  k' <> k -> store_get k' (store_set k c st) = store_get k' st.
Proof.
  intros Hne. apply String.eqb_neq in Hne.
  induction st as [|[k0 c0] st IH]; simpl.
  - now rewrite Hne.
  - destruct (String.eqb k k0) eqn:E; simpl.
    + apply String.eqb_eq in E. subst k0. now rewrite Hne.
    + now rewrite IH.
Qed.

Lemma store_get_in (k : string) (c : ConversationState) (st : Store) :
  store_get k st = Some c -> In (k, c) st.
Proof.
  induction st as [|[k' c'] st IH]; simpl; [discriminate|].
  destruct (String.eqb_spec k k') as [->|_].
  - intros [= ->]. now left.
  - intros H. right. auto.
Qed.

Lemma store_get_none (k : string) (st : Store) :
  store_get k st = None <-> ~ In k (map fst st).
Proof.
  induction st as [|[k' c'] st IH]; simpl.
  - tauto.
  - destruct (String.eqb_spec k k') as [->|Hne].
    + split; [discriminate|]. intros H. exfalso. apply H. now left.
    + rewrite IH. split.
      * intros H [E|I]; [congruence|auto].
      * intros H I. apply H. now right.
Qed.

Lemma store_set_keys (k : string) (c : ConversationState) (st : Store) :
  map fst (store_set k c st)
  = if isSome (store_get k st) then map fst st else (map fst st ++ [k])%list.
Proof.
  induction st as [|[k' c'] st IH]; simpl; [reflexivity|].
  destruct (String.eqb k k') eqn:E; simpl; [reflexivity|].
  rewrite IH. now destruct (store_get k st).
Qed.

Lemma store_set_ok (k : string) (c : ConversationState) (st : Store) :
  id c = k -> storeOK st -> storeOK (store_set k c st).
Proof.
  intros Hid [Hnodup Hids]. split.
  - rewrite store_set_keys. destruct (store_get k st) eqn:G; simpl; [exact Hnodup|].
    apply store_get_none in G.
    apply NoDup_app; [exact Hnodup|repeat constructor; intros []|].
    intros x Hx [<-|[]]. contradiction.
  - clear Hnodup. induction st as [|[k' c'] st IH]; simpl.
    + repeat constructor. exact Hid.
    + inversion Hids as [|x l Hx Hl]; subst x l.
      destruct (String.eqb_spec k k') as [E|_]; constructor; auto.
      simpl. congruence.
Qed.

Lemma store_delete_keys_subset (k x : string) (st : Store) :
  In x (map fst (store_delete k st)) -> In x (map fst st).
Proof.
  induction st as [|[k' c'] st IH]; simpl; [tauto|].
  destruct (String.eqb k k'); simpl; tauto.
Qed.

Lemma store_delete_ok (k : string) (st : Store) :
  storeOK st -> storeOK (store_delete k st).
Proof.
  intros [Hnodup Hids]. split.
  - induction st as [|[k' c'] st IH]; simpl; [constructor|].
    inversion Hnodup; subst. inversion Hids; subst.
    destruct (String.eqb k k'); simpl; [assumption|].
    constructor; auto. intros I. now apply store_delete_keys_subset in I.
  - clear Hnodup. induction st as [|[k' c'] st IH]; simpl; [constructor|].
    inversion Hids; subst. destruct (String.eqb k k'); auto.
Qed.

Lemma store_get_delete_same (k : string) (st : Store) :
  NoDup (map fst st) -> store_get k (store_delete k st) = None.
Proof.
  induction st as [|[k' c'] st IH]; simpl; [reflexivity|].
  intros H. inversion H; subst.
  destruct (String.eqb_spec k k') as [->|Hne].
  - now apply store_get_none.
  - simpl. destruct (String.eqb_spec k k'); [congruence|auto].
Qed.

Lemma store_get_delete_other (k k' : string) (st : Store) :
  k' <> k -> store_get k' (store_delete k st) = store_get k' st.
Proof.
  intros Hne. induction st as [|[k0 c0] st IH]; simpl; [reflexivity|].
  destruct (String.eqb_spec k k0) as [->|_].
  - destruct (String.eqb_spec k' k0); [congruence|reflexivity].
  - simpl. now rewrite IH.
Qed.

Lemma store_ok_id (k : string) (c : ConversationState) (st : Store) :
  storeOK st -> store_get k st = Some c -> id c = k.
Proof.
  intros [_ Hids] G. apply store_get_in in G.
  rewrite Forall_forall in Hids. exact (Hids _ G).
Qed.

End StoreFacts.

(** X1: a conversation just created is the one found under its id, it
    starts with an empty history and is complete exactly when nothing
    is missing; every other id is looked up as before. *)
Theorem create_then_get (freshId description : string)
        (p : ExtractedParams) (missingParams : list string) (st : Store) :
  let created := createConversation freshId description p missingParams st in
  getConversation freshId (snd created) = Some (fst created)
  /\ id (fst created) = freshId
  /\ originalDescription (fst created) = description
  /\ currentParams (fst created) = p
  /\ history (fst created) = []
  /\ (complete (fst created) = true <-> missingParams = [])
  /\ (forall other, other <> freshId ->
        getConversation other (snd created) = getConversation other st).
Proof.
  cbv zeta. unfold createConversation, getConversation. cbn [fst snd].
  split; [apply store_get_set_same|].
  repeat (split; [reflexivity|]).
  split.
  - destruct missingParams; simpl; split; congruence.
  - intros other Hne. now apply store_get_set_other.
Qed.

Lemma create_then_get_witness :
  getConversation "conv_1"
    (snd (createConversation "conv_1" "8 cores" emptyParams ["storage"] []))
  = Some (fst (createConversation "conv_1" "8 cores" emptyParams ["storage"] [])).
Proof.
  exact (proj1 (create_then_get "conv_1" "8 cores" emptyParams ["storage"] [])).
Defined.

(** X2: updating an unknown id returns nothing and leaves the store as
    it is; updating a known id stores a state with the same id and
    original description, the given parameters and missing labels, one
    more history entry (the given question and answer, last) and
    [complete] set exactly when nothing is missing; other ids are
    untouched. *)
Theorem update_conversation (conversationId question answer : string)
        (updated : ExtractedParams) (missingParams : list string) (st : Store) :
  (getConversation conversationId st = None ->
   updateConversation conversationId question answer updated missingParams st
   = (None, st))
  /\ (forall state, getConversation conversationId st = Some state ->
        exists state' st',
          updateConversation conversationId question answer updated
                             missingParams st = (Some state', st')
          /\ getConversation conversationId st' = Some state'
          /\ id state' = id state
          /\ originalDescription state' = originalDescription state
          /\ currentParams state' = updated
          /\ missing state' = missingParams
          /\ history state' = (history state ++ [(question, answer)])%list
          /\ (complete state' = true <-> missingParams = [])
          /\ (forall other, other <> conversationId ->
                getConversation other st' = getConversation other st)).
Proof.
  unfold updateConversation, getConversation. split.
  - intros ->. reflexivity.
  - intros state ->. do 2 eexists. split; [reflexivity|].
    split; [apply store_get_set_same|].
    repeat (split; [reflexivity|]).
    split.
    + destruct missingParams; simpl; split; congruence.
    + intros other Hne. now apply store_get_set_other.
Qed.

Lemma update_conversation_witness :
  exists state' st',
    updateConversation "conv_1" "How much memory?" "16GB RAM"
                       emptyParams [] [("conv_1", a100Conversation)]
    = (Some state', st')
    /\ history state' = [("", "a100"); ("How much memory?", "16GB RAM")]
    /\ complete state' = true.
Proof.
  destruct (update_conversation "conv_1" "How much memory?" "16GB RAM"
              emptyParams [] [("conv_1", a100Conversation)]) as [_ H].
  destruct (H a100Conversation eq_refl)
    as (state' & st' & E & _ & _ & _ & _ & _ & Hh & Hc & _).
  exists state', st'. split; [exact E|]. split; [exact Hh|].
  now apply Hc.
Defined.

(** X3: marking a conversation complete sets the flag and nothing else,
    and doing it twice is the same as doing it once. *)
Theorem complete_conversation_idempotent (conversationId : string) (st : Store) :
  let st1 := snd (completeConversation conversationId st) in
  snd (completeConversation conversationId st1) = st1
  /\ (forall state, getConversation conversationId st = Some state ->
        getConversation conversationId st1
        = Some (mkConversation (id state) (originalDescription state)
                               (currentParams state) (missing state)
                               (history state) true))
  /\ (getConversation conversationId st = None -> st1 = st)
  /\ (forall other, other <> conversationId ->
        getConversation other st1 = getConversation other st).
Proof.
  cbv zeta. unfold completeConversation, getConversation.
  destruct (store_get conversationId st) as [state|] eqn:G; cbn [snd].
  - split; [|split; [|split]].
    + rewrite store_get_set_same. cbn [snd id originalDescription currentParams
                                         missing history].
      clear G. induction st as [|[k c] st IH]; simpl.
      * now rewrite String.eqb_refl.
      * destruct (String.eqb conversationId k) eqn:E; simpl; rewrite E;
          [reflexivity|now rewrite IH].
    + intros state0 [= <-]. apply store_get_set_same.
    + discriminate.
    + intros other Hne. now apply store_get_set_other.
  - rewrite G. cbn [snd]. repeat split; auto. discriminate.
Qed.

Lemma complete_conversation_idempotent_witness :
  getConversation "conv_1"
    (snd (completeConversation "conv_1" [("conv_1", a100Conversation)]))
  = Some (mkConversation "conv_1" "8 cores"
            (extractFromDescription "8 cores a100")
            ["memory (RAM)"; "storage"; "duration"] [("", "a100")] true).
Proof.
  destruct (complete_conversation_idempotent "conv_1"
              [("conv_1", a100Conversation)]) as (_ & H & _).
  exact (H a100Conversation eq_refl).
Defined.

(** X4: deleting reports whether the id was there; afterwards the id is
    not found (in a store with unique keys) and every other id is found
    as before. *)
Theorem delete_conversation (conversationId : string) (st : Store) :
  NoDup (map fst st) ->
  let deleted := deleteConversation conversationId st in
  (fst deleted = true <-> exists state, getConversation conversationId st = Some state)
  /\ getConversation conversationId (snd deleted) = None
  /\ (forall other, other <> conversationId ->
        getConversation other (snd deleted) = getConversation other st).
Proof.
  intros Hnodup. cbv zeta. unfold deleteConversation, getConversation.
  cbn [fst snd]. split; [|split].
  - destruct (store_get conversationId st); simpl; split; eauto.
    + discriminate.
    + intros [state [=]].
  - now apply store_get_delete_same.
  - intros other Hne. now apply store_get_delete_other.
Qed.

Lemma delete_conversation_witness :
  getConversation "conv_1"
    (snd (deleteConversation "conv_1" [("conv_1", a100Conversation)])) = None.
Proof.
  destruct (delete_conversation "conv_1" [("conv_1", a100Conversation)])
    as (_ & H & _).
  - repeat constructor. intros [].
  - exact H.
Defined.

(** X5: the four operations keep the store a map: keys stay unique and
    every state stays filed under its own id. *)
Theorem store_invariant (st : Store) :
  storeOK st ->
  (forall freshId description p missingParams,
      storeOK (snd (createConversation freshId description p missingParams st)))
  /\ (forall conversationId question answer updated missingParams,
        storeOK (snd (updateConversation conversationId question answer
                                         updated missingParams st)))
  /\ (forall conversationId, storeOK (snd (completeConversation conversationId st)))
  /\ (forall conversationId, storeOK (snd (deleteConversation conversationId st))).
Proof.
  intros Hok. split; [|split; [|split]].
  - intros. unfold createConversation. cbn [snd]. now apply store_set_ok.
  - intros. unfold updateConversation.
    destruct (store_get conversationId st) as [state|] eqn:G; cbn [snd]; auto.
    apply store_set_ok; auto. cbn [id]. exact (store_ok_id _ _ _ Hok G).
  - intros. unfold completeConversation.
    destruct (store_get conversationId st) as [state|] eqn:G; cbn [snd]; auto.
    apply store_set_ok; auto. cbn [id]. exact (store_ok_id _ _ _ Hok G).
  - intros. unfold deleteConversation. cbn [snd]. now apply store_delete_ok.
Qed.

Lemma store_invariant_witness :
  storeOK (snd (deleteConversation "conv_1" [("conv_1", a100Conversation)])).
Proof.
  destruct (store_invariant [("conv_1", a100Conversation)]) as (_ & _ & _ & H).
  - split; repeat constructor. intros [].
  - apply H.
Defined.

(* ================================================================== *)
(** * The extraction result, field by field *)
(* ================================================================== *)

Section Stages.
Variable text : string.

Lemma stage_sizes :
  extractStorage text (extractMemory text (extractCpu text emptyParams))
  = mkParams None None None None
             (cpu (extractCpu text emptyParams))
             (memory (extractMemory text emptyParams))
             (storage (extractStorage text emptyParams))
             None None None None None None None.
Proof.
  unfold extractCpu, extractMemory, extractStorage.
  destruct (exec true CPU_REGEX text), (exec true MEMORY_REGEX text),
    (exec true STORAGE_REGEX text); reflexivity.
Qed.

Lemma stage_gpu (c : option number) (m s : option string) :
  extractGpuCount text
    (extractGpuModel text
       (mkParams None None None None c m s None None None None None None None))
  = mkParams None None None None c m s
             (gpu (extractGpuCount text (extractGpuModel text emptyParams)))
             None None None None None None.
Proof.
  unfold extractGpuCount, extractGpuModel.
  destruct (exec true GPU_REGEX text), (exec true GPU_COUNT_REGEX text);
    reflexivity.
Qed.

Lemma stage_targeting (c : option number) (m s : option string) (g : option Gpu) :
  extractRegion text
    (extractDuration text
       (mkParams None None None None c m s g None None None None None None))
  = mkParams None None None None c m s g None
             (duration (extractDuration text emptyParams)) None
             (region (extractRegion text emptyParams)) None None.
Proof.
  unfold extractRegion, extractDuration.
  destruct (exec true REGION_REGEX text);
  (destruct (exec true DURATION_REGEX text) as [dm|];
   [ cbv zeta;
     destruct (startsWith (toLowerCase (group dm 2)) "hour"
               || startsWith (toLowerCase (group dm 2)) "hr");
     [|destruct (startsWith (toLowerCase (group dm 2)) "day");
       [|destruct (startsWith (toLowerCase (group dm 2)) "week");
         [|destruct (startsWith (toLowerCase (group dm 2)) "month")]]]
   | ]);
  reflexivity.
Qed.

End Stages.

(** The blocks of [extractFromDescription] do not interfere: each field
    of the result is what its own block computes from the text. *)
Lemma extract_by_fields (text : string) :
  extractFromDescription text = extractedFields text.
Proof.
  unfold extractFromDescription, extractedFields. cbv zeta.
  rewrite stage_sizes, stage_gpu, stage_targeting.
  unfold extractJupyter, extractName, mentionsJupyter.
  destruct (includes (toLowerCase text) "jupyter"
            || includes (toLowerCase text) "notebook");
    cbv zeta;
    (erewrite (calculateAmount_duration _ (extractDuration text emptyParams));
     [reflexivity|reflexivity]).
Qed.

(* ================================================================== *)
(** * What extraction sets and what it leaves alone *)
(* ================================================================== *)

(** X6: extraction never sets the pull policy, the mode or the replica
    count; it sets image, environment, ports and service name together,
    to the notebook values, exactly when the text mentions "jupyter" or
    "notebook" (in any case), and leaves all four unset otherwise. *)
Theorem extraction_workload (text : string) :
  pullPolicy (extractFromDescription text) = None
  /\ mode (extractFromDescription text) = None
  /\ count (extractFromDescription text) = None
  /\ (mentionsJupyter text = true ->
      image (extractFromDescription text) = Some jupyterImage
      /\ env (extractFromDescription text) = Some [("JUPYTER_TOKEN", "test")]
      /\ ports (extractFromDescription text)
         = Some [mkPort (Int 8888) (Some (Int 8888)) (Some true);
                 mkPort (Int 3000) (Some (Int 3000)) (Some true)]
      /\ name (extractFromDescription text) = Some "py-cuda")
  /\ (mentionsJupyter text = false ->
      image (extractFromDescription text) = None
      /\ env (extractFromDescription text) = None
      /\ ports (extractFromDescription text) = None
      /\ name (extractFromDescription text) = None).
Proof.
  rewrite extract_by_fields. unfold extractedFields. cbn [pullPolicy mode count image env ports name].
  repeat (split; [reflexivity|]).
  split; intros ->; repeat split.
Qed.

Lemma extraction_workload_witness :
  image (extractFromDescription "A Notebook with 4 cores") = Some jupyterImage
  /\ name (extractFromDescription "A Notebook with 4 cores") = Some "py-cuda".
Proof.
  destruct (extraction_workload "A Notebook with 4 cores") as (_ & _ & _ & H & _).
  destruct (H eq_refl) as (Hi & _ & _ & Hn). split; assumption.
Defined.
(* ================================================================== *)
(** * Memory and storage sizes *)
(* ================================================================== *)

Lemma upper_lower_char (c : ascii) : upper_char (lower_char c) = upper_char c.
Proof.
  pose proof (for_all_ascii
    (fun c => Ascii.eqb (upper_char (lower_char c)) (upper_char c))
    ltac:(vm_compute; reflexivity) c) as A.
  cbv beta in A. now apply Ascii.eqb_eq.
Qed.

Lemma upper_lower (s : string) : toUpperCase (toLowerCase s) = toUpperCase s.
Proof.
  unfold toUpperCase, toLowerCase.
  induction s as [|c s IH]; simpl; [reflexivity|].
  now rewrite upper_lower_char, IH.
Qed.

(** An alternation of literals matches one of them, up to case (upper
    case form). *)
Lemma matches_alts_lits_upper (ws : list string) (w : string) :
  ws <> [] ->
  Matches true (alts (map lit ws)) w ->
  In (toUpperCase w) (map toUpperCase ws).
Proof.
  intros Hne M. apply (matches_alts_lits ws w Hne) in M.
  apply in_map_iff in M. destruct M as (x & Hx & Hin).
  apply in_map_iff. exists x. split; [|exact Hin].
  rewrite <- (upper_lower x), Hx. apply upper_lower.
Qed.

Lemma memory_groups (text : string) (m : RegExpMatch) :
  exec true MEMORY_REGEX text = Some m ->
  (digitRun (group m 1)
   /\ parseInt (group m 1) = ofZ (numeralValue (group m 1)))
  /\ In (toUpperCase (group m 2)) ["GB"; "GIB"; "G"; "MB"; "MIB"; "M"].
Proof.
  intros H. split.
  - apply group_captured with (i := 1%nat) in H; [|left; left; reflexivity].
    unfold MEMORY_REGEX in H. cbn [seqs] in H.
    inversion H; subst; [|no_capture].
    match goal with
    | C : Captured _ (Grp 1 digits1) _ _ |- _ =>
        inversion C; subst; [|no_capture]
    end.
    eapply captured_number; eassumption.
  - apply group_captured with (i := 2%nat) in H;
      [|right; right; left; left; reflexivity].
    unfold MEMORY_REGEX in H. cbn [seqs] in H.
    inversion H; subst; [no_capture|].
    match goal with
    | C : Captured _ (Seq spaces _) _ _ |- _ =>
        inversion C; subst; [no_capture|]
    end.
    match goal with
    | C : Captured _ (Seq (Grp 2 _) _) _ _ |- _ =>
        inversion C; subst; [|no_capture]
    end.
    match goal with
    | C : Captured _ (Grp 2 _) _ _ |- _ =>
        inversion C as [i r w M| | | | |]; subst; [|no_capture]
    end.
    apply (matches_alts_lits_upper ["GB"; "GiB"; "G"; "MB"; "MiB"; "M"]) in M;
      [exact M|discriminate].
Qed.

Lemma storage_groups (text : string) (m : RegExpMatch) :
  exec true STORAGE_REGEX text = Some m ->
  (digitRun (group m 1)
   /\ parseInt (group m 1) = ofZ (numeralValue (group m 1)))
  /\ In (toUpperCase (group m 2)) ["GB"; "GIB"; "G"; "TB"; "TIB"; "T"].
Proof.
  intros H. split.
  - apply group_captured with (i := 1%nat) in H; [|left; left; reflexivity].
    unfold STORAGE_REGEX in H. cbn [seqs] in H.
    inversion H; subst; [|no_capture].
    match goal with
    | C : Captured _ (Grp 1 digits1) _ _ |- _ =>
        inversion C; subst; [|no_capture]
    end.
    eapply captured_number; eassumption.
  - apply group_captured with (i := 2%nat) in H;
      [|right; right; left; left; reflexivity].
    unfold STORAGE_REGEX in H. cbn [seqs] in H.
    inversion H; subst; [no_capture|].
    match goal with
    | C : Captured _ (Seq spaces _) _ _ |- _ =>
        inversion C; subst; [no_capture|]
    end.
    match goal with
    | C : Captured _ (Seq (Grp 2 _) _) _ _ |- _ =>
        inversion C; subst; [|no_capture]
    end.
    match goal with
    | C : Captured _ (Grp 2 _) _ _ |- _ =>
        inversion C as [i r w M| | | | |]; subst; [|no_capture]
    end.
    apply (matches_alts_lits_upper ["GB"; "GiB"; "G"; "TB"; "TiB"; "T"]) in M;
      [exact M|discriminate].
Qed.

(** X7: a text without a memory (storage) phrase has no memory
    (storage); with one, the field is the matched number followed by a
    unit: "G" and "GB" become "Gi", "M" and "MB" become "Mi" ("T" and
    "TB" become "Ti" for storage), in any letter case, while "GiB",
    "MiB" and "TiB" are not shortened but only upper-cased, giving
    "GIB", "MIB" and "TIB".  The number is written as the program
    holds it, a double: up to 2^53 that is the numeral of the matched
    integer. *)
Theorem size_normalization (text : string) :
  (exec true MEMORY_REGEX text = None ->
   memory (extractFromDescription text) = None)
  /\ (forall m, exec true MEMORY_REGEX text = Some m ->
        digitRun (group m 1)
        /\ In (toUpperCase (group m 2)) ["GB"; "GIB"; "G"; "MB"; "MIB"; "M"]
        /\ memory (extractFromDescription text)
           = Some (numberToString (ofZ (numeralValue (group m 1)))
                   ++ memoryUnitOf (toUpperCase (group m 2)))
        /\ ((numeralValue (group m 1) <= exactBound)%Z ->
            memory (extractFromDescription text)
            = Some (toString (Int (numeralValue (group m 1)))
                    ++ memoryUnitOf (toUpperCase (group m 2)))))
  /\ (exec true STORAGE_REGEX text = None ->
      storage (extractFromDescription text) = None)
  /\ (forall m, exec true STORAGE_REGEX text = Some m ->
        digitRun (group m 1)
        /\ In (toUpperCase (group m 2)) ["GB"; "GIB"; "G"; "TB"; "TIB"; "T"]
        /\ storage (extractFromDescription text)
           = Some (numberToString (ofZ (numeralValue (group m 1)))
                   ++ storageUnitOf (toUpperCase (group m 2)))
        /\ ((numeralValue (group m 1) <= exactBound)%Z ->
            storage (extractFromDescription text)
            = Some (toString (Int (numeralValue (group m 1)))
                    ++ storageUnitOf (toUpperCase (group m 2)))))
  /\ map memoryUnitOf ["GB"; "GIB"; "G"; "MB"; "MIB"; "M"]
     = ["Gi"; "GIB"; "Gi"; "Mi"; "MIB"; "Mi"]
  /\ map storageUnitOf ["GB"; "GIB"; "G"; "TB"; "TIB"; "T"]
     = ["Gi"; "GIB"; "Gi"; "Ti"; "TIB"; "Ti"].
Proof.
  rewrite extract_by_fields. unfold extractedFields. cbn [memory storage].
  unfold extractMemory, extractStorage.
  split; [|split; [|split; [|split; [|split]]]]; try reflexivity.
  - intros ->. reflexivity.
  - intros m Hm. rewrite Hm.
    destruct (memory_groups text m Hm) as ((Hrun & Hp) & Hu).
    repeat (split; [assumption|]). rewrite Hp.
    cbv zeta. cbn [memory set_memory].
    assert (E : (if String.eqb (toUpperCase (group m 2)) "G"
                    || String.eqb (toUpperCase (group m 2)) "GB" then "Gi"
                 else if String.eqb (toUpperCase (group m 2)) "M"
                         || String.eqb (toUpperCase (group m 2)) "MB" then "Mi"
                 else toUpperCase (group m 2))
                = memoryUnitOf (toUpperCase (group m 2))).
    { unfold memoryUnitOf.
      simpl in Hu. decompose [or] Hu; try contradiction;
        match goal with E : _ = toUpperCase _ |- _ => rewrite <- E end;
        reflexivity. }
    rewrite E. split; [reflexivity|].
    intros Hb. pose proof (numeralValue_nonneg (group m 1)).
    rewrite ofZ_exact, numberToString_exact by lia. reflexivity.
  - intros ->. reflexivity.
  - intros m Hm. rewrite Hm.
    destruct (storage_groups text m Hm) as ((Hrun & Hp) & Hu).
    repeat (split; [assumption|]). rewrite Hp.
    cbv zeta. cbn [storage set_storage].
    assert (E : (if String.eqb (toUpperCase (group m 2)) "G"
                    || String.eqb (toUpperCase (group m 2)) "GB" then "Gi"
                 else if String.eqb (toUpperCase (group m 2)) "T"
                         || String.eqb (toUpperCase (group m 2)) "TB" then "Ti"
                 else toUpperCase (group m 2))
                = storageUnitOf (toUpperCase (group m 2))).
    { unfold storageUnitOf.
      simpl in Hu. decompose [or] Hu; try contradiction;
        match goal with E : _ = toUpperCase _ |- _ => rewrite <- E end;
        reflexivity. }
    rewrite E. split; [reflexivity|].
    intros Hb. pose proof (numeralValue_nonneg (group m 1)).
    rewrite ofZ_exact, numberToString_exact by lia. reflexivity.
Qed.

Lemma size_normalization_witness :
  memory (extractFromDescription "32 gib memory") = Some "32GIB"
  /\ memory (extractFromDescription "1000000000000000000000 GB RAM")
     = Some "1e+21Gi".
Proof.
  split.
  - destruct (size_normalization "32 gib memory") as (_ & H & _).
    destruct (H (mkMatch "32 gib memory"
                   [(3%nat, "memory"); (2%nat, "gib"); (1%nat, "32")])
                eq_refl) as (_ & _ & _ & E).
    apply E. vm_compute. discriminate.
  - destruct (size_normalization "1000000000000000000000 GB RAM")
      as (_ & H & _).
    destruct (exec true MEMORY_REGEX "1000000000000000000000 GB RAM")
      as [m|] eqn:Em; [|vm_compute in Em; discriminate].
    destruct (H m eq_refl) as (_ & _ & E & _).
    vm_compute in Em. injection Em as <-. exact E.
Defined.

(* ================================================================== *)
(** * The GPU model keyword *)
(* ================================================================== *)

(** A literal consumes the text it matches and goes on. *)
Lemma rmatch_lit_complete (ci : bool) (R : Type) (l w rest : string)
      (caps : list (nat * string))
      (k : string -> list (nat * string) -> option R) :
  Matches ci (lit l) w ->
  rmatch ci (lit l) (w ++ rest) caps k = k rest caps.
Proof.
  revert w. induction l as [|c l IH]; intros w M.
  - simpl in M. inversion M. reflexivity.
  - destruct l as [|c' l'].
    + simpl in M. inversion M as [|c0 x Hc| | | | | |]; subst.
      simpl. now rewrite Hc.
    + change (lit (String c (String c' l')))
        with (Seq (Chr c) (lit (String c' l'))) in *.
      inversion M as [| | |r1 r2 w1 w2 M1 M2| | | |]; subst.
      inversion M1 as [|c0 x Hc| | | | | |]; subst.
      cbn [rmatch append]. rewrite Hc. now apply IH.
Qed.

(** A successful search is a match anchored at some suffix. *)
Lemma exec_here (ci : bool) (r : regex) (s : string) (m : RegExpMatch) :
  exec ci r s = Some m -> exists s', match_here ci r s' = Some m.
Proof.
  induction s as [|x s IH]; simpl; intros H.
  - destruct (match_here ci r "") eqn:E; [|discriminate].
    injection H as <-. eauto.
  - destruct (match_here ci r (String x s)) eqn:E.
    + injection H as <-. eauto.
    + auto.
Qed.

(** An alternative that starts with a literal is never reached once the
    bare literal is an earlier alternative: under a continuation that
    accepts everything, the literal alone already matches. *)
Lemma literal_first (R : Type) (l : string) (r : regex) (s : string)
      (caps : list (nat * string))
      (k : string -> list (nat * string) -> option R) :
  (forall rest caps', k rest caps' <> None) ->
  rmatch true (lit l) s caps k = None ->
  rmatch true (Seq (lit l) r) s caps k = None.
Proof.
  intros Hk Hnone.
  destruct (rmatch true (Seq (lit l) r) s caps k) as [res|] eqn:E; [|reflexivity].
  exfalso. apply rmatch_sound in E.
  destruct E as (w & rest & new & -> & M & _).
  inversion M as [| | |r1 r2 w1 w2 M1 M2| | | |]; subst.
  rewrite append_assoc, (rmatch_lit_complete _ _ _ _ _ _ _ M1) in Hnone.
  exact (Hk _ _ Hnone).
Qed.

(** Peeling one literal alternative off an alternation. *)
Lemma alt_lit_cases (R : Type) (l : string) (r : regex) (s : string)
      (caps : list (nat * string))
      (k : string -> list (nat * string) -> option R) (res : R) :
  rmatch true (Alt (lit l) r) s caps k = Some res ->
  (exists w rest, s = w ++ rest /\ toLowerCase w = toLowerCase l
                  /\ k rest caps = Some res)
  \/ (rmatch true (lit l) s caps k = None /\ rmatch true r s caps k = Some res).
Proof.
  cbn [rmatch]. destruct (rmatch true (lit l) s caps k) as [res0|] eqn:E.
  - intros [= <-]. left. apply rmatch_sound in E.
    destruct E as (w & rest & new & -> & M & Hk & Hcaps & _).
    exists w, rest. split; [reflexivity|].
    split; [now apply matches_lit_lower|].
    assert (new = []) as ->.
    { destruct new as [|e new]; [reflexivity|].
      inversion Hcaps as [|? ? He _]; subst. clear -He.
      exfalso. revert He. generalize (fst e) (snd e). clear.
      induction l as [|c l IH]; intros i w He.
      - simpl in He. inversion He.
      - destruct l as [|c' l'].
        + simpl in He. inversion He.
        + change (lit (String c (String c' l')))
            with (Seq (Chr c) (lit (String c' l'))) in He.
          inversion He as [| |? ? ? ? C|? ? ? ? C| |]; subst.
          * inversion C.
          * exact (IH _ _ C). }
    exact Hk.
  - intros H. right. auto.
Qed.

(** Whatever the text, the keyword captured by [GPU_REGEX] is one of the
    seven bare words: the two "rtx NNNN" alternatives are never taken,
    since "rtx" alone comes first. *)
Lemma gpu_keyword (text : string) (m : RegExpMatch) :
  exec true GPU_REGEX text = Some m ->
  In (toLowerCase (group m 1))
     ["nvidia"; "rtx"; "gtx"; "a100"; "h100"; "t4"; "v100"].
Proof.
  intros H. apply exec_here in H. destruct H as [s H].
  set (k := fun (s' : string) (caps' : list (nat * string)) =>
              Some (mkMatch (consumed s s') ((1%nat, consumed s s') :: caps'))).
  change (rmatch true
            (alts [lit "nvidia"; lit "rtx"; lit "gtx"; lit "a100"; lit "h100";
                   lit "t4"; lit "v100";
                   seqs [lit "rtx"; spaces; digit4];
                   seqs [lit "rtx"; spaces; digit4; spaces; plus is_word]])
            s [] k = Some m) in H.
  cbn [alts seqs] in H.
  assert (Hk : forall rest caps', k rest caps' <> None) by (intros; discriminate).
  assert (Hword : forall l res,
             (exists w rest, s = w ++ rest /\ toLowerCase w = toLowerCase l
                             /\ k rest [] = Some res) ->
             toLowerCase (group res 1) = toLowerCase l).
  { intros l res (w & rest & -> & Hw & E). unfold k in E.
    injection E as <-. unfold group. cbn [captures lookup Nat.eqb].
    now rewrite consumed_append. }
  repeat match type of H with
         | rmatch true (Alt (lit ?l) _) _ _ _ = Some _ =>
             let Hn := fresh "Hn" in
             apply alt_lit_cases in H;
             destruct H as [H|[Hn H]];
             [ rewrite (Hword _ _ H); simpl; tauto | ]
         end.
  (* only the two "rtx NNNN" alternatives are left, with "rtx" refused *)
  exfalso.
  match goal with
  | Hrtx : rmatch true (lit "rtx") s [] k = None |- _ =>
      pose proof (literal_first _ "rtx" (Seq spaces digit4) s [] k Hk Hrtx) as N1;
      pose proof (literal_first _ "rtx"
                    (Seq spaces (Seq digit4 (Seq spaces (plus is_word))))
                    s [] k Hk Hrtx) as N2
  end.
  change (rmatch true (Alt (Seq (lit "rtx") (Seq spaces digit4))
                           (Seq (lit "rtx")
                                (Seq spaces (Seq digit4 (Seq spaces (plus is_word))))))
                 s [] k = Some m) in H.
  cbn [rmatch] in H. cbn [rmatch] in N1, N2.
  rewrite N1, N2 in H. discriminate.
Qed.

(** X8: the GPU model extraction yields is never "rtx4090": a text that
    names an "rtx", "nvidia" or "gtx" card, with whatever number after
    it, gets "rtx6000-ada"; "a100", "h100", "t4" and "v100" are kept. *)
Theorem gpu_model_never_rtx4090 (text : string) :
  (forall g m, gpu (extractFromDescription text) = Some g ->
               model g = Some m ->
               In m ["rtx6000-ada"; "a100"; "h100"; "t4"; "v100"])
  /\ (forall gm, exec true GPU_REGEX text = Some gm ->
        exists g, gpu (extractFromDescription text) = Some g
          /\ model g = Some (gpuModelOf (toLowerCase (group gm 1)))
          /\ In (toLowerCase (group gm 1))
                ["nvidia"; "rtx"; "gtx"; "a100"; "h100"; "t4"; "v100"])
  /\ map gpuModelOf ["nvidia"; "rtx"; "gtx"; "a100"; "h100"; "t4"; "v100"]
     = ["rtx6000-ada"; "rtx6000-ada"; "rtx6000-ada"; "a100"; "h100"; "t4"; "v100"].
Proof.
  rewrite extract_by_fields. unfold extractedFields. cbn [gpu].
  unfold extractGpuCount, extractGpuModel.
  split; [|split; [|reflexivity]].
  - intros g m.
    destruct (exec true GPU_REGEX text) as [gm|] eqn:G.
    + pose proof (gpu_keyword text gm G) as K. cbv zeta.
      assert (Hm : In (normalizeGpuModel (toLowerCase (group gm 1)))
                      ["rtx6000-ada"; "a100"; "h100"; "t4"; "v100"]).
      { simpl in K. decompose [or] K; try contradiction;
          match goal with E : _ = toLowerCase _ |- _ => rewrite <- E end;
          vm_compute; tauto. }
      destruct (exec true GPU_COUNT_REGEX text); cbn;
        intros [= <-]; cbn; intros [= <-]; exact Hm.
    + destruct (exec true GPU_COUNT_REGEX text); cbn.
      * intros [= <-]. discriminate.
      * discriminate.
  - intros gm G. rewrite G. pose proof (gpu_keyword text gm G) as K. cbv zeta.
    assert (E : normalizeGpuModel (toLowerCase (group gm 1))
                = gpuModelOf (toLowerCase (group gm 1))).
    { simpl in K. decompose [or] K; try contradiction;
        match goal with E : _ = toLowerCase _ |- _ => rewrite <- E end;
        reflexivity. }
    destruct (exec true GPU_COUNT_REGEX text); cbn;
      eexists; (split; [reflexivity|]); cbn; rewrite E; auto.
Qed.

Lemma gpu_model_never_rtx4090_witness :
  exists g, gpu (extractFromDescription "one RTX 4090 please") = Some g
            /\ model g = Some "rtx6000-ada".
Proof.
  destruct (gpu_model_never_rtx4090 "one RTX 4090 please") as (_ & H & _).
  destruct (H (mkMatch "RTX" [(1%nat, "RTX")]) eq_refl) as (g & Hg & Hm & _).
  exists g. split; [exact Hg|exact Hm].
Defined.
(* ================================================================== *)
(** * What is missing after extraction *)
(* ================================================================== *)

Lemma identifyMissingParams_in (p : ExtractedParams) :
  (In "CPU cores" (identifyMissingParams p) <-> truthy_num (cpu p) = false)
  /\ (In "memory (RAM)" (identifyMissingParams p) <-> truthy_str (memory p) = false)
  /\ (In "storage" (identifyMissingParams p) <-> truthy_str (storage p) = false)
  /\ (In "duration" (identifyMissingParams p) <-> truthy_str (duration p) = false)
  /\ (In "GPU model" (identifyMissingParams p)
      <-> isGpuWorkload p = true /\ gpu p = None).
Proof.
  unfold identifyMissingParams, push_if.
  destruct (isGpuWorkload p), (gpu p) as [g|],
    (truthy_num (cpu p)), (truthy_str (memory p)),
    (truthy_str (storage p)), (truthy_str (duration p));
    cbn [negb isSome app];
    (split; [|split; [|split; [|split]]]);
    (split; intros H; simpl in *;
     try (decompose [or and] H);
     try discriminate; try contradiction; try tauto).
Qed.

Lemma cpu_number (text : string) (m : RegExpMatch) :
  exec true CPU_REGEX text = Some m ->
  digitRun (group m 1)
  /\ parseInt (group m 1) = ofZ (numeralValue (group m 1)).
Proof.
  intros H.
  apply group_captured with (i := 1%nat) in H; [|left; left; reflexivity].
  unfold CPU_REGEX in H. cbn [seqs] in H.
  inversion H; subst; [|no_capture].
  match goal with
  | C : Captured _ (Grp 1 digits1) _ _ |- _ =>
      inversion C; subst; [|no_capture]
  end.
  eapply captured_number; eassumption.
Qed.

Lemma truthy_append_r (a b : string) :
  b <> "" -> truthy_str (Some (a ++ b)) = true.
Proof.
  intros H. unfold truthy_str.
  destruct a; [|reflexivity]. cbn [append].
  destruct (String.eqb_spec b ""); [contradiction|reflexivity].
Qed.

Lemma truthy_append (a b : string) :
  a <> "" -> truthy_str (Some (a ++ b)) = true.
Proof. intros H. unfold truthy_str. now rewrite append_nonempty. Qed.

(** X9: after extraction, "CPU cores" is missing exactly when the text
    has no core count or the count is 0; "memory (RAM)", "storage" and
    "duration" exactly when the text has no such phrase; and "GPU
    model" exactly when the text mentions the notebook workload and has
    neither a GPU keyword nor a GPU count. *)
Theorem missing_after_extraction (text : string) :
  let missing := identifyMissingParams (extractFromDescription text) in
  (In "CPU cores" missing
   <-> exec true CPU_REGEX text = None
       \/ exists m, exec true CPU_REGEX text = Some m
                    /\ parseInt (group m 1) = Int 0)
  /\ (In "memory (RAM)" missing <-> exec true MEMORY_REGEX text = None)
  /\ (In "storage" missing <-> exec true STORAGE_REGEX text = None)
  /\ (In "duration" missing <-> exec true DURATION_REGEX text = None)
  /\ (In "GPU model" missing
      <-> mentionsJupyter text = true
          /\ exec true GPU_REGEX text = None
          /\ exec true GPU_COUNT_REGEX text = None).
Proof.
  cbv zeta.
  destruct (identifyMissingParams_in (extractFromDescription text))
    as (Hc & Hm & Hs & Hd & Hg).
  rewrite Hc, Hm, Hs, Hd, Hg. clear Hc Hm Hs Hd Hg.
  rewrite extract_by_fields.
  unfold extractedFields, isGpuWorkload. cbn [cpu memory storage duration gpu image].
  split; [|split; [|split; [|split]]].
  - unfold extractCpu.
    destruct (exec true CPU_REGEX text) as [m|] eqn:E; cbn.
    + destruct (cpu_number text m E) as (Hrun & Hp). rewrite Hp.
      pose proof (numeralValue_nonneg (group m 1)) as Hn.
      cbn [cpu set_cpu truthy_num]. rewrite (ofZ_truthy _ Hn).
      split.
      * intros H. right. exists m. split; [reflexivity|].
        apply negb_false_iff, Z.eqb_eq in H. rewrite Hp, H. reflexivity.
      * intros [H|(m' & [= <-] & H)]; [discriminate|].
        apply negb_false_iff, Z.eqb_eq. rewrite Hp in H.
        now apply (ofZ_zero _ Hn).
    + split; auto.
  - unfold extractMemory.
    destruct (exec true MEMORY_REGEX text) as [m|] eqn:E; cbn [memory set_memory].
    + destruct (memory_groups text m E) as (_ & Hu).
      cbv zeta. rewrite truthy_append_r; [split; discriminate|].
      simpl in Hu. decompose [or] Hu; try contradiction;
        match goal with E : _ = toUpperCase _ |- _ => rewrite <- E end;
        discriminate.
    + split; auto.
  - unfold extractStorage.
    destruct (exec true STORAGE_REGEX text) as [m|] eqn:E; cbn [storage set_storage].
    + destruct (storage_groups text m E) as (_ & Hu).
      cbv zeta. rewrite truthy_append_r; [split; discriminate|].
      simpl in Hu. decompose [or] Hu; try contradiction;
        match goal with E : _ = toUpperCase _ |- _ => rewrite <- E end;
        discriminate.
    + split; auto.
  - destruct (exec true DURATION_REGEX text) as [m|] eqn:E.
    + destruct (duration_groups text m E) as (_ & (w & Hw & Hl)).
      unfold extractDuration. rewrite E. cbv zeta.
      assert (T : forall a b c d,
                 truthy_str
                   (duration
                      (if startsWith (toLowerCase (group m 2)) "hour"
                          || startsWith (toLowerCase (group m 2)) "hr"
                       then set_duration emptyParams (a ++ "h")
                       else if startsWith (toLowerCase (group m 2)) "day"
                       then set_duration emptyParams (b ++ "d")
                       else if startsWith (toLowerCase (group m 2)) "week"
                       then set_duration emptyParams (c ++ "d")
                       else if startsWith (toLowerCase (group m 2)) "month"
                       then set_duration emptyParams (d ++ "mon")
                       else emptyParams)) = true).
      { intros a b c d. simpl in Hw.
        decompose [or] Hw; subst; try contradiction;
          destruct Hl as [-> | ->];
          repeat match goal with
                 | |- context [if ?c then _ else _] =>
                     let v := eval vm_compute in c in change c with v; cbv iota
                 end;
          cbn [duration set_duration]; apply truthy_append_r; discriminate. }
      rewrite T. split; discriminate.
    + unfold extractDuration. rewrite E. split; auto.
  - unfold extractGpuCount, extractGpuModel.
    destruct (mentionsJupyter text); cbn [truthy_str or_else andb].
    + change (negb (String.eqb jupyterImage "")
              && (includes jupyterImage "cuda" || includes jupyterImage "pytorch"
                  || includes jupyterImage "tensorflow")) with true.
      destruct (exec true GPU_REGEX text), (exec true GPU_COUNT_REGEX text);
        cbn; split; intros H; decompose [and] H; try discriminate; auto.
    + split; intros H; decompose [and] H; discriminate.
Qed.

Lemma missing_after_extraction_witness :
  In "CPU cores" (identifyMissingParams (extractFromDescription "0 cores")).
Proof.
  destruct (missing_after_extraction "0 cores") as (H & _).
  apply H. right.
  exists (mkMatch "0 cores" [(2%nat, "cores"); (1%nat, "0")]).
  split; reflexivity.
Defined.

(* ================================================================== *)
(** * Merging with the defaults *)
(* ================================================================== *)

Section EnvFacts.

Lemma env_lookup_set_same (k v : string) (e : Env) :
  env_lookup k (env_set k v e) = Some v.
Proof.
  induction e as [|[k' v'] e IH]; simpl.
  - now rewrite String.eqb_refl.
  - destruct (String.eqb k k') eqn:E; simpl; rewrite E; auto.
Qed.

Lemma env_lookup_set_other (a k v : string) (e : Env) :
  a <> k -> env_lookup a (env_set k v e) = env_lookup a e.
Proof.
  intros Hne. apply String.eqb_neq in Hne.
  induction e as [|[k' v'] e IH]; simpl.
  - now rewrite Hne.
  - destruct (String.eqb k k') eqn:E; simpl.
    + apply String.eqb_eq in E. subst k'. now rewrite Hne.
    + now rewrite IH.
Qed.

Lemma env_lookup_none (k : string) (e : Env) :
  env_lookup k e = None <-> ~ In k (map fst e).
Proof.
  induction e as [|[k' v'] e IH]; simpl; [tauto|].
  destruct (String.eqb_spec k k') as [->|Hne].
  - split; [discriminate|]. intros H. exfalso. apply H. now left.
  - rewrite IH. split.
    + intros H [E|I]; [congruence|auto].
    + intros H I. apply H. now right.
Qed.

(** Looking a key up after a spread: the entry of the spread-in
    mapping when it has one, the entry of the base otherwise. *)
Lemma env_lookup_fold (k : string) (b : Env) :
  NoDup (map fst b) ->
  forall a,
    env_lookup k (fold_left (fun acc kv => env_set (fst kv) (snd kv) acc) b a)
    = match env_lookup k b with
      | Some v => Some v
      | None => env_lookup k a
      end.
Proof.
  induction b as [|[k' v'] b IH]; intros Hnd a; simpl; [reflexivity|].
  inversion Hnd as [|x l Hnot Hnd']; subst.
  rewrite (IH Hnd').
  destruct (String.eqb_spec k k') as [->|Hne].
  - assert (env_lookup k' b = None) as -> by now apply env_lookup_none.
    apply env_lookup_set_same.
  - destruct (env_lookup k b); [reflexivity|].
    now apply env_lookup_set_other.
Qed.

Lemma env_set_keys (k v : string) (e : Env) :
  map fst (env_set k v e)
  = if isSome (env_lookup k e) then map fst e else (map fst e ++ [k])%list.
Proof.
  induction e as [|[k' v'] e IH]; simpl; [reflexivity|].
  destruct (String.eqb k k') eqn:E; simpl; [reflexivity|].
  rewrite IH. now destruct (env_lookup k e).
Qed.

Lemma env_set_nodup (k v : string) (e : Env) :
  NoDup (map fst e) -> NoDup (map fst (env_set k v e)).
Proof.
  intros H. rewrite env_set_keys.
  destruct (env_lookup k e) eqn:G; simpl; [exact H|].
  apply env_lookup_none in G.
  apply NoDup_app; [exact H|repeat constructor; intros []|].
  intros x Hx [<-|[]]. contradiction.
Qed.

Lemma env_fold_nodup (b : Env) :
  forall a, NoDup (map fst a) ->
    NoDup (map fst (fold_left (fun acc kv => env_set (fst kv) (snd kv) acc) b a)).
Proof.
  induction b as [|[k v] b IH]; intros a H; simpl; [exact H|].
  apply IH. now apply env_set_nodup.
Qed.

Lemma env_set_fresh (k v : string) (e : Env) :
  ~ In k (map fst e) -> env_set k v e = (e ++ [(k, v)])%list.
Proof.
  induction e as [|[k' v'] e IH]; simpl; [reflexivity|].
  intros H. destruct (String.eqb_spec k k') as [->|_]; [tauto|].
  rewrite IH; tauto.
Qed.

(** Spreading a mapping whose keys are new appends it. *)
Lemma env_fold_fresh (b : Env) :
  forall a, NoDup (map fst (a ++ b)) ->
    fold_left (fun acc kv => env_set (fst kv) (snd kv) acc) b a = (a ++ b)%list.
Proof.
  induction b as [|[k v] b IH]; intros a H; simpl.
  - now rewrite List.app_nil_r.
  - assert (Hk : ~ In k (map fst a)).
    { rewrite map_app in H. apply NoDup_remove_2 in H.
      intros I. apply H. apply in_or_app. now left. }
    rewrite (env_set_fresh _ _ _ Hk), IH.
    + now rewrite <- List.app_assoc.
    + now rewrite <- List.app_assoc.
Qed.

Lemma env_set_head (k v0 v : string) (e : Env) :
  env_set k v ((k, v0) :: e) = (k, v) :: e.
Proof. simpl. now rewrite String.eqb_refl. Qed.

Lemma env_fold_head (k : string) (b : Env) :
  forall v0 rest, exists v rest',
    fold_left (fun acc kv => env_set (fst kv) (snd kv) acc) b ((k, v0) :: rest)
    = (k, v) :: rest'.
Proof.
  induction b as [|[k' v'] b IH]; intros v0 rest; simpl; [eauto|].
  destruct (String.eqb k' k); apply IH.
Qed.

End EnvFacts.

(** Merging twice is merging once, for the environment. *)
Lemma spreadEnv_idempotent (e : option Env) :
  spreadEnv (Some jupyterEnv) (Some (spreadEnv (Some jupyterEnv) e))
  = spreadEnv (Some jupyterEnv) e.
Proof.
  unfold spreadEnv. cbn [or_else].
  set (merged := fold_left (fun acc kv => env_set (fst kv) (snd kv) acc)
                           (or_else e []) jupyterEnv).
  assert (Hnd : NoDup (map fst merged)).
  { apply env_fold_nodup. repeat constructor. intros []. }
  destruct (env_fold_head "JUPYTER_TOKEN" (or_else e []) "test" [])
    as (v & rest & E).
  fold jupyterEnv in E. fold merged in E. rewrite E in *.
  unfold jupyterEnv. cbn [fold_left fst snd]. rewrite env_set_head.
  now apply (env_fold_fresh rest [("JUPYTER_TOKEN", v)]).
Qed.

Lemma spread_field_idempotent (A : Type) (d : A) (x : option A) :
  spread_field (Some d) (spread_field (Some d) x) = spread_field (Some d) x.
Proof. now destruct x. Qed.

Lemma spreadGpu_idempotent (d : Gpu) (g : option Gpu) :
  isSome (units d) = true -> isSome (model d) = true ->
  spreadGpu (Some d) (Some (spreadGpu (Some d) g)) = spreadGpu (Some d) g.
Proof.
  destruct d as [[du|] [dm|]]; try discriminate. intros _ _.
  destruct g as [[[u|] [gm|]]|]; reflexivity.
Qed.

Lemma isSome_spread_default (A : Type) (d : A) (x : option A) :
  isSome (spread_field (Some d) x) = true.
Proof. now destruct x. Qed.

(** X10: after [mergeWithDefaults] no field is unset, and merging again
    changes nothing. *)
Theorem merge_defaults_complete (p : ExtractedParams) :
  let merged := mergeWithDefaults p in
  (isSome (image merged) && isSome (pullPolicy merged) && isSome (ports merged)
   && isSome (env merged) && isSome (cpu merged) && isSome (memory merged)
   && isSome (storage merged) && isSome (gpu merged) && isSome (name merged)
   && isSome (duration merged) && isSome (mode merged) && isSome (region merged)
   && isSome (amount merged) && isSome (count merged) = true)
  /\ mergeWithDefaults merged = merged.
Proof.
  cbv zeta. split.
  - unfold mergeWithDefaults, spreadParams, DEFAULT_PARAMS.
    cbn [image pullPolicy ports env cpu memory storage gpu name duration mode
         region amount count].
    rewrite !isSome_spread_default. reflexivity.
  - destruct p as [i pp po e c m s g n d mo r a co].
    unfold mergeWithDefaults, spreadParams, DEFAULT_PARAMS.
    cbn [image pullPolicy ports env cpu memory storage gpu name duration mode
         region amount count].
    rewrite spreadEnv_idempotent, !spread_field_idempotent.
    rewrite spreadGpu_idempotent by reflexivity.
    reflexivity.
Qed.

(** X11: in the merged environment every variable of the parameters has
    the parameters' value, and the default variable JUPYTER_TOKEN=test
    is there unless the parameters give it another value. *)
Theorem merge_defaults_env (p : ExtractedParams) (k : string) :
  NoDup (map fst (or_else (env p) [])) ->
  exists merged,
    env (mergeWithDefaults p) = Some merged
    /\ env_lookup k merged
       = match env_lookup k (or_else (env p) []) with
         | Some v => Some v
         | None => if String.eqb k "JUPYTER_TOKEN" then Some "test" else None
         end.
Proof.
  intros Hnd. eexists. split; [reflexivity|].
  unfold spreadEnv. rewrite (env_lookup_fold k _ Hnd). reflexivity.
Qed.

Lemma merge_defaults_env_witness :
  exists merged,
    env (mergeWithDefaults (set_env emptyParams [("MODE", "fast")])) = Some merged
    /\ env_lookup "JUPYTER_TOKEN" merged = Some "test".
Proof.
  destruct (merge_defaults_env (set_env emptyParams [("MODE", "fast")])
              "JUPYTER_TOKEN") as (merged & E & L).
  - repeat constructor. intros [].
  - exists merged. split; [exact E|exact L].
Defined.

(* ================================================================== *)
(** * The follow-up question *)
(* ================================================================== *)

(** X12: with nothing missing the question is empty.  With labels
    missing, the question is the fixed template over the comma-joined
    labels whenever no API key is set, the request fails, or the reply
    has no content; otherwise it is read off the first block of the
    reply: its text, trimmed, when that is a text block, and the empty
    text when it is a block of another kind. *)
Theorem question_fallback
        (followup_request : list string -> string -> completion (list ContentBlock))
        (missingParams : list string) (description : string)
        (key : option string) :
  (missingParams = [] ->
   generateQuestion followup_request missingParams description key = "")
  /\ (missingParams <> [] ->
      truthy_str key = false
      \/ (exists message, followup_request missingParams description = Throw message)
      \/ followup_request missingParams description = Normal [] ->
      generateQuestion followup_request missingParams description key
      = "I need some additional information to complete your deployment. "
        ++ "Could you please provide: " ++ join ", " missingParams ++ "?")
  /\ (forall text rest,
        missingParams <> [] -> truthy_str key = true ->
        followup_request missingParams description
        = Normal (TextBlock text :: rest) ->
        generateQuestion followup_request missingParams description key
        = trim text)
  /\ (forall rest,
        missingParams <> [] -> truthy_str key = true ->
        followup_request missingParams description
        = Normal (OtherBlock :: rest) ->
        generateQuestion followup_request missingParams description key
        = "").
Proof.
  unfold generateQuestion, generateFollowUpQuestion.
  split; [|split; [|split]].
  - intros ->. reflexivity.
  - intros Hne H. destruct missingParams as [|l ls]; [congruence|].
    cbn [List.length Nat.eqb].
    destruct (truthy_str key); [|reflexivity].
    destruct H as [H|[[message H]|H]]; [discriminate| |]; rewrite H; reflexivity.
  - intros text rest Hne Hkey H. destruct missingParams as [|l ls]; [congruence|].
    cbn [List.length Nat.eqb]. rewrite Hkey, H. reflexivity.
  - intros rest Hne Hkey H. destruct missingParams as [|l ls]; [congruence|].
    cbn [List.length Nat.eqb]. rewrite Hkey, H. reflexivity.
Qed.

Lemma question_fallback_witness :
  generateQuestion noFollowup ["CPU cores"; "storage"] "a notebook" (Some "key")
  = "I need some additional information to complete your deployment. "
    ++ "Could you please provide: CPU cores, storage?".
Proof.
  destruct (question_fallback noFollowup ["CPU cores"; "storage"] "a notebook"
              (Some "key")) as (_ & H & _).
  apply H; [discriminate|]. right. left. eexists. reflexivity.
Defined.

(* ================================================================== *)
(** * What validation reports and what it guarantees *)
(* ================================================================== *)

(** X13: a text the codec cannot parse, and a text that parses to no
    value at all, are reported as exactly one "Invalid YAML" error. *)
Theorem validate_unparseable
        (yaml_load : string -> completion value) (yamlConfig : string) :
  (forall message, yaml_load yamlConfig = Throw message ->
     validateYaml yaml_load yamlConfig
     = mkValidation false ["Invalid YAML: " ++ message])
  /\ (yaml_load yamlConfig = Normal VUndef ->
      validateYaml yaml_load yamlConfig
      = mkValidation false
          ["Invalid YAML: Cannot read properties of undefined (reading 'version')"])
  /\ (yaml_load yamlConfig = Normal VNull ->
      validateYaml yaml_load yamlConfig
      = mkValidation false
          ["Invalid YAML: Cannot read properties of null (reading 'version')"]).
Proof.
  unfold validateYaml.
  split; [|split]; [intros message H|intros H|intros H]; rewrite H; reflexivity.
Qed.

Lemma validate_unparseable_witness :
  validateYaml sexpLoad ")" = mkValidation false ["Invalid YAML: bad syntax"].
Proof.
  destruct (validate_unparseable sexpLoad ")") as (H & _).
  apply (H "bad syntax"). vm_compute. reflexivity.
Defined.

Section Clean.









End Clean.








(* ================================================================== *)
(** * Updating: the fallback and the fixed point *)
(* ================================================================== *)

(** X15: when the existing text does not parse, or parses to no value
    at all, the update renders a fresh document from the patch. *)
Theorem update_fallback
        (yaml_dump : value -> string)
        (yaml_load : string -> completion value)
        (existingYaml : string) (params : ExtractedParams) :
  (exists message, yaml_load existingYaml = Throw message)
  \/ yaml_load existingYaml = Normal VUndef
  \/ yaml_load existingYaml = Normal VNull ->
  updateYaml yaml_dump yaml_load existingYaml params
  = generateYaml yaml_dump params.
Proof.
  unfold updateYaml.
  intros [[message H]|[H|H]]; rewrite H; reflexivity.
Qed.

Lemma update_fallback_witness :
  updateYaml sexpDump sexpLoad ")" DEFAULT_PARAMS
  = generateYaml sexpDump DEFAULT_PARAMS.
Proof.
  apply update_fallback. left. exists "bad syntax". vm_compute. reflexivity.
Defined.

Section Rendered.

Lemma assign_when_same (c : bool) (path : list string) (k : string)
      (x root : value) :
  x <> VUndef -> reachesObj path root ->
  (c = true -> Js.get_path (path ++ [k]) root = Normal x) ->
  assign_when c path k x root = Normal root.
Proof.
  intros Hx Hr Hg. unfold assign_when. destruct c; [|reflexivity].
  apply assign_in_same; auto.
Qed.

Lemma or_str_truthy (s : option string) (d : string) :
  truthy_str s = true -> or_str s d = or_else s "".
Proof.
  destruct s as [s|]; [|discriminate]. simpl.
  now destruct (String.eqb s "").
Qed.

Lemma or_num_truthy (n : option number) (d : number) :
  truthy_num n = true -> or_num n d = or_else n NaN.
Proof.
  destruct n as [n|]; [|discriminate]. simpl. now intros ->.
Qed.

Lemma assoc_head_or (k : string) (v : value) (fs : list (string * value)) :
  or_else (Js.assoc k ((k, v) :: fs)) VUndef = v.
Proof. now rewrite assoc_head. Qed.

End Rendered.

(** Reading a rendered document along a path, and reaching a mapping
    along it. *)
Ltac read_path :=
  cbn [Js.get_path Js.get app bind or_else];
  repeat (first [ rewrite assoc_head
                | rewrite String.eqb_refl
                | progress cbn [Js.get_path Js.get Js.assoc String.eqb
                                 Ascii.eqb Bool.eqb or_else bind] ]);
  try reflexivity.

Ltac reach_obj :=
  cbn [reachesObj];
  repeat (first [ eexists; reflexivity
                | do 2 eexists; split; [reflexivity|]; split;
                  [ first [apply assoc_head | reflexivity] | ] ]).

Lemma updateConfig_rendered (params : ExtractedParams) :
  updateConfig params (generateYamlConfig params)
  = Normal (generateYamlConfig params).
Proof.
  unfold generateYamlConfig. cbv zeta.
  remember (or_str (name params) "py-cuda") as n eqn:Hn.
  remember (or_str (region params) "westcoast") as r eqn:Hr.
  remember (generateResourcesConfig params) as res eqn:Hres.
  assert (Hobj : exists fs, res = VObj fs).
  { subst res. unfold generateResourcesConfig. eexists. reflexivity. }
  destruct Hobj as [fs Hfs].
  assert (Hcpu : truthy_num (cpu params) = true ->
                 Js.assoc "cpu" fs = Some (VObj [("units", VNum (or_else (cpu params) NaN))])).
  { intros T. rewrite Hfs in Hres. unfold generateResourcesConfig in Hres.
    injection Hres as ->. rewrite (or_num_truthy _ _ T).
    destruct (truthy_str (storage params)), (gpu params); reflexivity. }
  assert (Hmem : truthy_str (memory params) = true ->
                 Js.assoc "memory" fs = Some (VObj [("size", VStr (or_else (memory params) ""))])).
  { intros T. rewrite Hfs in Hres. unfold generateResourcesConfig in Hres.
    injection Hres as ->. rewrite (or_str_truthy _ _ T).
    destruct (truthy_str (storage params)), (gpu params); reflexivity. }
  assert (Hsto : truthy_str (storage params) = true ->
                 Js.assoc "storage" fs
                 = Some (VArr [VObj [("size", VStr (or_else (storage params) ""))]])).
  { intros T. rewrite Hfs in Hres. unfold generateResourcesConfig in Hres.
    injection Hres as ->. rewrite T.
    destruct (gpu params); reflexivity. }
  assert (Hgpu : isSome (gpu params) = true ->
                 Js.assoc "gpu" fs = Some (gpuResource (or_else (gpu params) emptyGpu))).
  { intros T. rewrite Hfs in Hres. unfold generateResourcesConfig in Hres.
    injection Hres as ->. destruct (gpu params) as [g|]; [|discriminate].
    destruct (truthy_str (storage params)); reflexivity. }
  clear Hres. subst res.
  unfold updateConfig.
  (* services *)
  unfold updateServices. cbn [Js.get Js.assoc String.eqb Ascii.eqb Bool.eqb or_else bind
                              Js.truthy Js.keys map fst Js.first_key].
  rewrite assign_when_same;
    [ | discriminate | reach_obj
      | intros T; rewrite <- (or_str_truthy _ jupyterImage T); read_path ].
  cbn [bind].
  rewrite assign_when_same; [ | discriminate | reach_obj | intros T; read_path ].
  cbn [bind].
  rewrite assign_when_same;
    [ | unfold generateExposeConfig; destruct (ports params) as [[|? ?]|]; discriminate
      | reach_obj | intros T; read_path ].
  cbn [bind].
  rewrite assign_when_same;
    [ | unfold generateEnvConfig; destruct (env params); discriminate
      | reach_obj | intros T; read_path ].
  cbn [bind].
  (* profiles *)
  unfold updateProfiles. cbn [Js.get Js.assoc String.eqb Ascii.eqb Bool.eqb or_else bind
                              Js.truthy].
  rewrite assign_when_same;
    [ | discriminate | reach_obj
      | intros T; rewrite Hn, (or_str_truthy _ _ T); read_path ].
  cbn [bind].
  rewrite assign_when_same;
    [ | discriminate | reach_obj
      | intros T; rewrite <- (or_str_truthy _ "2h" T); read_path ].
  cbn [bind].
  rewrite assign_when_same; [ | discriminate | reach_obj | intros T; read_path ].
  cbn [bind].
  (* compute *)
  unfold updateCompute.
  cbn [Js.get_path Js.get Js.assoc String.eqb Ascii.eqb Bool.eqb or_else bind
       Js.truthy Js.keys map fst Js.first_key].
  rewrite ?String.eqb_refl, ?assoc_head.
  cbn [Js.get_path Js.get Js.assoc String.eqb Ascii.eqb Bool.eqb or_else bind
       Js.truthy Js.keys map fst Js.first_key].
  rewrite assign_when_same;
    [ | discriminate | reach_obj
      | intros T; read_path; now rewrite (Hcpu T) ].
  cbn [bind].
  rewrite assign_when_same;
    [ | discriminate | reach_obj
      | intros T; read_path; now rewrite (Hmem T) ].
  cbn [bind].
  rewrite assign_when_same;
    [ | discriminate | reach_obj
      | intros T; read_path; now rewrite (Hsto T) ].
  cbn [bind].
  rewrite assign_when_same;
    [ | discriminate | reach_obj
      | intros T; read_path; now rewrite (Hgpu T) ].
  cbn [bind].
  (* placement *)
  unfold updatePlacement.
  cbn [Js.get_path Js.get Js.assoc String.eqb Ascii.eqb Bool.eqb or_else bind
       Js.truthy Js.keys map fst Js.first_key].
  rewrite ?String.eqb_refl, ?assoc_head.
  cbn [Js.get_path Js.get Js.assoc String.eqb Ascii.eqb Bool.eqb or_else bind
       Js.truthy Js.keys map fst Js.first_key].
  rewrite assign_in_same; [ | discriminate | reach_obj | read_path ].
  cbn [bind].
  rewrite assign_when_same;
    [ | discriminate | reach_obj
      | intros T; rewrite <- (or_num_truthy _ (Int 15) T); read_path ].
  cbn [bind].
  (* deployment *)
  unfold updateDeployment.
  cbn [Js.get_path Js.get Js.assoc String.eqb Ascii.eqb Bool.eqb or_else bind
       Js.truthy Js.keys map fst Js.first_key].
  rewrite ?String.eqb_refl, ?assoc_head.
  cbn [Js.get_path Js.get Js.assoc String.eqb Ascii.eqb Bool.eqb or_else bind
       Js.truthy Js.keys map fst Js.first_key].
  rewrite assign_when_same;
    [ | discriminate | reach_obj
      | intros T; rewrite Hn, (or_str_truthy _ _ T); read_path ].
  cbn [bind].
  rewrite assign_when_same;
    [ | discriminate | reach_obj
      | intros T; rewrite <- (or_num_truthy _ (Int 1) T); read_path ].
  reflexivity.
Qed.

(** X16: updating a rendered document with the parameters it was
    rendered from gives the same text again, whenever the codec reads
    the rendered document back unchanged. *)
Theorem update_rendered_same
        (yaml_dump : value -> string)
        (yaml_load : string -> completion value)
        (params : ExtractedParams) :
  yaml_load (yaml_dump (generateYamlConfig params))
  = Normal (generateYamlConfig params) ->
  updateYaml yaml_dump yaml_load (generateYaml yaml_dump params) params
  = generateYaml yaml_dump params.
Proof.
  intros Hload. unfold updateYaml, generateYaml. rewrite Hload. cbn [bind].
  now rewrite updateConfig_rendered.
Qed.

Lemma update_rendered_same_witness :
  updateYaml sexpDump sexpLoad (generateYaml sexpDump DEFAULT_PARAMS) DEFAULT_PARAMS
  = generateYaml sexpDump DEFAULT_PARAMS.
Proof.
  apply update_rendered_same. vm_compute. reflexivity.
Defined.

(* ================================================================== *)
(** * The natural_to_yaml operation *)
(* ================================================================== *)

Section HandlerFacts.
Variable yaml_dump : value -> string.
Variable yaml_load : string -> completion value.
Variable JSON_parse : string -> completion ExtractedParams.
Variable enhance_request :
  string -> ExtractedParams -> completion (list ContentBlock).
Variable followup_request :
  list string -> string -> completion (list ContentBlock).
Variable CLAUDE_API_KEY : option string.

Local Abbreviation handler :=
  (natural_to_yaml yaml_dump yaml_load JSON_parse enhance_request
                   followup_request CLAUDE_API_KEY).

Lemma length_pos_false (A : Type) (xs : list A) :
  (0 <? List.length xs)%nat = false -> xs = [].
Proof. destruct xs; [reflexivity|discriminate]. Qed.

Lemma length_pos_true (A : Type) (xs : list A) :
  (0 <? List.length xs)%nat = true -> xs <> [].
Proof. destruct xs; [discriminate|intros _; discriminate]. Qed.

Lemma length_zero_nil (A : Type) (xs : list A) :
  xs = [] -> Nat.eqb (List.length xs) 0 = true.
Proof. now intros ->. Qed.

Lemma length_zero_cons (A : Type) (xs : list A) :
  xs <> [] -> Nat.eqb (List.length xs) 0 = false.
Proof. destruct xs; [congruence|reflexivity]. Qed.

Lemma store_set_forall (P : string * ConversationState -> Prop)
      (k : string) (c : ConversationState) (st : Store) :
  (forall k', P (k', c)) -> Forall P st -> Forall P (store_set k c st).
Proof.
  intros Hc. induction st as [|[k' c'] rest IH]; intros H; simpl.
  - constructor; [apply Hc|constructor].
  - inversion H as [|x l Hx Hl]; subst x l.
    destruct (String.eqb k k'); constructor; auto.
Qed.

Lemma blank_get (k : string) (c : ConversationState) (st : Store) :
  blankQuestions st -> store_get k st = Some c ->
  Forall (fun qa => fst qa = "") (history c).
Proof.
  intros B G. apply store_get_in in G.
  unfold blankQuestions in B. rewrite Forall_forall in B.
  exact (B _ G).
Qed.

Lemma last_question_blank (h : list (string * string)) :
  Forall (fun qa => fst qa = "") h ->
  match rev h with (question, _) :: _ => question | [] => "" end = "".
Proof.
  intros B. destruct (rev h) as [|[q a] rest] eqn:E; [reflexivity|].
  rewrite Forall_forall in B.
  apply (B (q, a)). apply in_rev. rewrite E. now left.
Qed.

Lemma blank_update (k q a : string) (p : ExtractedParams) (m : list string)
      (st : Store) :
  blankQuestions st -> q = "" ->
  blankQuestions (snd (updateConversation k q a p m st)).
Proof.
  intros B Hq. rewrite Hq. clear Hq. unfold updateConversation.
  destruct (store_get k st) as [c|] eqn:G; [|exact B].
  cbn [snd]. apply store_set_forall; [|exact B].
  intros k0. cbn [snd history]. apply Forall_app. split.
  - exact (blank_get _ _ _ B G).
  - constructor; [reflexivity|constructor].
Qed.

Lemma blank_complete (k : string) (st : Store) :
  blankQuestions st -> blankQuestions (snd (completeConversation k st)).
Proof.
  intros B. unfold completeConversation.
  destruct (store_get k st) as [c|] eqn:G; [|exact B].
  cbn [snd]. apply store_set_forall; [|exact B].
  intros k0. cbn [snd history]. exact (blank_get _ _ _ B G).
Qed.

Lemma blank_create (k d : string) (p : ExtractedParams) (m : list string)
      (st : Store) :
  blankQuestions st -> blankQuestions (snd (createConversation k d p m st)).
Proof.
  intros B. unfold createConversation. cbn [snd].
  apply store_set_forall; [|exact B]. intros k0. constructor.
Qed.

Lemma get_after_update (k q a : string) (p : ExtractedParams) (m : list string)
      (st : Store) (c : ConversationState) :
  store_get k st = Some c ->
  let st' := snd (updateConversation k q a p m st) in
  (exists c', store_get k st' = Some c'
              /\ missing c' = m /\ currentParams c' = p
              /\ complete c' = Nat.eqb (List.length m) 0)
  /\ forall other, other <> k -> store_get other st' = store_get other st.
Proof.
  intros G. cbv zeta. unfold updateConversation. rewrite G. cbn [snd]. split.
  - eexists. split; [apply store_get_set_same|]. now repeat split.
  - intros other Hne. now apply store_get_set_other.
Qed.

Lemma get_after_complete (k : string) (st : Store) (c : ConversationState) :
  store_get k st = Some c ->
  let st' := snd (completeConversation k st) in
  (exists c', store_get k st' = Some c'
              /\ missing c' = missing c /\ currentParams c' = currentParams c
              /\ complete c' = true)
  /\ forall other, other <> k -> store_get other st' = store_get other st.
Proof.
  intros G. cbv zeta. unfold completeConversation. rewrite G. cbn [snd]. split.
  - eexists. split; [apply store_get_set_same|]. now repeat split.
  - intros other Hne. now apply store_get_set_other.
Qed.

(** The state and the store after a successful turn. *)
Lemma turn_outcome (freshId : string)
      (description conversationId answer existingYaml : option string)
      (st st' : Store) (response : ToolResponse) :
  handler freshId description conversationId answer existingYaml st
  = Normal (response, st') ->
  exists cid p m,
    (* which conversation, with which parameters and missing labels *)
    (exists c, store_get cid st' = Some c /\ missing c = m
               /\ currentParams c = p /\ complete c = Nat.eqb (List.length m) 0)
    /\ (forall other, other <> cid -> store_get other st' = store_get other st)
    /\ (m <> [] ->
        exists question, response = AskQuestion cid question m)
    /\ (m = [] ->
        let yamlContent :=
          renderDocument yaml_dump yaml_load existingYaml p in
        response = Document cid yamlContent
                            (valid (validateYaml yaml_load yamlContent))
                            (errors (validateYaml yaml_load yamlContent))).
Proof.
  unfold natural_to_yaml.
  destruct (truthy_str conversationId && truthy_str answer).
  - unfold answerTurn, getConversation.
    set (cid := or_else conversationId "").
    destruct (store_get cid st) as [c|] eqn:G; [|discriminate].
    cbv zeta.
    set (r := processDescription JSON_parse enhance_request
                (combinedDescription c (or_else answer "")) CLAUDE_API_KEY).
    set (p := updatedParams JSON_parse enhance_request CLAUDE_API_KEY c
                (or_else answer "")).
    set (q := match rev (history c) with (question, _) :: _ => question | [] => "" end).
    destruct (get_after_update cid q (or_else answer "") p (missingParams r) st c G)
      as [(c1 & G1 & M1 & P1 & C1) F1].
    destruct (0 <? List.length (missingParams r))%nat eqn:L; intros H;
      injection H as <- <-; exists cid, p, (missingParams r).
    + apply length_pos_true in L.
      split; [exists c1; now repeat split|].
      split; [exact F1|]. split; [eauto|congruence].
    + apply length_pos_false in L.
      destruct (get_after_complete cid _ c1 G1) as [(c2 & G2 & M2 & P2 & C2) F2].
      split.
      { exists c2. rewrite L. split; [exact G2|].
        split; [congruence|]. split; [congruence|exact C2]. }
      split.
      { intros other Hne.
        exact (eq_trans (F2 other Hne) (F1 other Hne)). }
      split; [congruence|]. intros _. reflexivity.
  - destruct (truthy_str description); [|discriminate].
    unfold startTurn. cbv zeta.
    set (d := or_else description "").
    set (r := processDescription JSON_parse enhance_request d CLAUDE_API_KEY).
    unfold createConversation. cbn [id].
    set (c := mkConversation freshId d (params r) (missingParams r) []
                (Nat.eqb (List.length (missingParams r)) 0)).
    destruct (0 <? List.length (missingParams r))%nat eqn:L; intros H;
      injection H as <- <-; exists freshId, (params r), (missingParams r).
    + apply length_pos_true in L.
      split; [exists c; split; [apply store_get_set_same|now repeat split]|].
      split; [intros other Hne; now apply store_get_set_other|].
      split; [eauto|congruence].
    + apply length_pos_false in L.
      destruct (get_after_complete freshId (store_set freshId c st) c
                  (store_get_set_same _ _ _)) as [(c2 & G2 & M2 & P2 & C2) F2].
      split.
      { exists c2. rewrite L. split; [exact G2|].
        split; [rewrite M2; exact L|]. split; [exact P2|exact C2]. }
      split.
      { intros other Hne.
        exact (eq_trans (F2 other Hne) (store_get_set_other _ _ _ _ Hne)). }
      split; [congruence|]. intros _. reflexivity.
Qed.

End HandlerFacts.

(** X17: the operation fails in exactly two cases: an id and an answer
    are given but the id names no stored conversation, or neither an
    id with an answer nor a description is given.  An id without an
    answer is ignored when a description is present. *)
Theorem handler_errors
        (yaml_dump : value -> string)
        (yaml_load : string -> completion value)
        (JSON_parse : string -> completion ExtractedParams)
        (enhance_request : string -> ExtractedParams -> completion (list ContentBlock))
        (followup_request : list string -> string -> completion (list ContentBlock))
        (CLAUDE_API_KEY : option string)
        (freshId : string)
        (description conversationId answer existingYaml : option string)
        (st : Store) :
  let outcome :=
    natural_to_yaml yaml_dump yaml_load JSON_parse enhance_request
                    followup_request CLAUDE_API_KEY
                    freshId description conversationId answer existingYaml st in
  ((exists message, outcome = Throw message) <->
   (truthy_str conversationId = true /\ truthy_str answer = true
    /\ getConversation (or_else conversationId "") st = None)
   \/ ((truthy_str conversationId = false \/ truthy_str answer = false)
       /\ truthy_str description = false))
  /\ (truthy_str answer = false -> truthy_str description = true ->
      outcome
      = startTurn yaml_dump yaml_load JSON_parse enhance_request
                  followup_request CLAUDE_API_KEY
                  freshId (or_else description "") existingYaml st).
Proof.
  cbv zeta. unfold natural_to_yaml. split.
  - destruct (truthy_str conversationId), (truthy_str answer); cbn [andb].
    + unfold answerTurn, getConversation.
      destruct (store_get (or_else conversationId "") st) as [c|] eqn:G.
      * cbv zeta.
        match goal with
        | |- context [if ?b then _ else _] => destruct b
        end;
          (split; [intros [message H]; discriminate
                  |intros [(_ & _ & H)|([H|H] & _)]; discriminate]).
      * split; [intros _; left; now repeat split|intros _; eauto].
    + destruct (truthy_str description).
      * unfold startTurn. cbv zeta. unfold createConversation. cbn [id].
        match goal with
        | |- context [if ?b then _ else _] => destruct b
        end;
          (split; [intros [message H]; discriminate
                  |intros [(_ & H & _)|(_ & H)]; discriminate]).
      * split; [intros _; right; split; [now right|reflexivity]|intros _; eauto].
    + destruct (truthy_str description).
      * unfold startTurn. cbv zeta. unfold createConversation. cbn [id].
        match goal with
        | |- context [if ?b then _ else _] => destruct b
        end;
          (split; [intros [message H]; discriminate
                  |intros [(H & _)|(_ & H)]; discriminate]).
      * split; [intros _; right; split; [now left|reflexivity]|intros _; eauto].
    + destruct (truthy_str description).
      * unfold startTurn. cbv zeta. unfold createConversation. cbn [id].
        match goal with
        | |- context [if ?b then _ else _] => destruct b
        end;
          (split; [intros [message H]; discriminate
                  |intros [(H & _)|(_ & H)]; discriminate]).
      * split; [intros _; right; split; [now left|reflexivity]|intros _; eauto].
  - intros -> ->. now rewrite andb_false_r.
Qed.

Lemma handler_errors_witness :
  natural_to_yaml sexpDump sexpLoad noParse noEnhance noFollowup None
                  "conv_2" (Some "4 cores") (Some "conv_1") None None
                  [("conv_1", a100Conversation)]
  = startTurn sexpDump sexpLoad noParse noEnhance noFollowup None
              "conv_2" "4 cores" None [("conv_1", a100Conversation)].
Proof.
  destruct (handler_errors sexpDump sexpLoad noParse noEnhance noFollowup None
              "conv_2" (Some "4 cores") (Some "conv_1") None None
              [("conv_1", a100Conversation)]) as [_ H].
  apply H; reflexivity.
Defined.

(** X18: the question put to the user is never recorded: if every
    question in the stored histories is empty before a turn, so it is
    afterwards, whatever question the turn asked. *)
Theorem history_questions_blank
        (yaml_dump : value -> string)
        (yaml_load : string -> completion value)
        (JSON_parse : string -> completion ExtractedParams)
        (enhance_request : string -> ExtractedParams -> completion (list ContentBlock))
        (followup_request : list string -> string -> completion (list ContentBlock))
        (CLAUDE_API_KEY : option string)
        (freshId : string)
        (description conversationId answer existingYaml : option string)
        (st st' : Store) (response : ToolResponse) :
  blankQuestions st ->
  natural_to_yaml yaml_dump yaml_load JSON_parse enhance_request
                  followup_request CLAUDE_API_KEY
                  freshId description conversationId answer existingYaml st
  = Normal (response, st') ->
  blankQuestions st'.
Proof.
  intros B. unfold natural_to_yaml.
  destruct (truthy_str conversationId && truthy_str answer).
  - unfold answerTurn, getConversation.
    destruct (store_get (or_else conversationId "") st) as [c|] eqn:G;
      [|discriminate].
    cbv zeta.
    pose proof (last_question_blank _ (blank_get _ _ _ B G)) as Hq.
    match goal with
    | |- context [if ?b then _ else _] => destruct b
    end; intros H; injection H as _ <-.
    + now apply blank_update.
    + apply blank_complete. now apply blank_update.
  - destruct (truthy_str description); [|discriminate].
    unfold startTurn. cbv zeta.
    match goal with
    | |- context [createConversation ?a ?b ?c ?d ?e] =>
        pose proof (blank_create a b c d e B) as Hc;
        destruct (createConversation a b c d e) as [conv st1]
    end.
    cbn [snd] in Hc.
    match goal with
    | |- context [if ?b then _ else _] => destruct b
    end; intros H; injection H as _ <-.
    + exact Hc.
    + now apply blank_complete.
Qed.

Lemma history_questions_blank_witness :
  exists response st',
    natural_to_yaml sexpDump sexpLoad noParse noEnhance noFollowup None
                    "conv_2" None (Some "conv_1") (Some "2 gpus") None
                    [("conv_1", a100Conversation)]
    = Normal (response, st')
    /\ blankQuestions st'.
Proof.
  do 2 eexists. split.
  - vm_compute. reflexivity.
  - eapply (history_questions_blank sexpDump sexpLoad noParse noEnhance
              noFollowup None "conv_2" None (Some "conv_1") (Some "2 gpus") None
              [("conv_1", a100Conversation)]);
      [|vm_compute; reflexivity].
    repeat constructor.
Defined.

(** X19: after a successful turn the store holds the conversation the
    reply names, in the state the reply reports: a question comes with
    a non-empty list of missing labels, stored with the conversation
    left open; a document comes with nothing missing, the conversation
    marked complete, and the verdict of the validator on that very
    text.  Every other conversation is untouched. *)
Theorem turn_reply
        (yaml_dump : value -> string)
        (yaml_load : string -> completion value)
        (JSON_parse : string -> completion ExtractedParams)
        (enhance_request : string -> ExtractedParams -> completion (list ContentBlock))
        (followup_request : list string -> string -> completion (list ContentBlock))
        (CLAUDE_API_KEY : option string)
        (freshId : string)
        (description conversationId answer existingYaml : option string)
        (st st' : Store) (response : ToolResponse) :
  natural_to_yaml yaml_dump yaml_load JSON_parse enhance_request
                  followup_request CLAUDE_API_KEY
                  freshId description conversationId answer existingYaml st
  = Normal (response, st') ->
  match response with
  | AskQuestion cid question m =>
      m <> []
      /\ exists c, getConversation cid st' = Some c
                   /\ missing c = m /\ complete c = false
  | Document cid yaml v errs =>
      (exists c, getConversation cid st' = Some c
                 /\ missing c = [] /\ complete c = true)
      /\ v = valid (validateYaml yaml_load yaml)
      /\ errs = errors (validateYaml yaml_load yaml)
  end
  /\ (forall other, other <> conversationOf response ->
        getConversation other st' = getConversation other st).
Proof.
  intros H. apply turn_outcome in H.
  destruct H as (cid & p & m & (c & G & M & P & C) & F & Hask & Hdoc).
  unfold getConversation.
  destruct m as [|l ls].
  - rewrite (Hdoc eq_refl). cbv zeta. cbn [conversationOf].
    split; [|exact F]. split; [|split; reflexivity].
    exists c. now repeat split.
  - destruct Hask as [question ->]; [discriminate|]. cbn [conversationOf].
    split; [|exact F]. split; [discriminate|].
    exists c. now repeat split.
Qed.

Lemma turn_reply_witness :
  exists question c,
    natural_to_yaml sexpDump sexpLoad noParse noEnhance noFollowup None
                    "conv_2" None (Some "conv_1") (Some "2 gpus") None
                    [("conv_1", a100Conversation)]
    = Normal (AskQuestion "conv_1" question
                          ["memory (RAM)"; "storage"; "duration"],
              [("conv_1", c)])
    /\ complete c = false.
Proof.
  do 2 eexists. split.
  - vm_compute. reflexivity.
  - destruct (turn_reply sexpDump sexpLoad noParse noEnhance noFollowup None
                "conv_2" None (Some "conv_1") (Some "2 gpus") None
                [("conv_1", a100Conversation)] _ _
                ltac:(vm_compute; reflexivity))
      as [(_ & c & G & _ & C) _].
    vm_compute in G. injection G as <-. exact C.
Defined.

Section FreshDocument.

Lemma validateYaml_rendered (yaml_dump : value -> string)
      (yaml_load : string -> completion value) (params : ExtractedParams) :
  yaml_load (generateYaml yaml_dump params) = Normal (generateYamlConfig params) ->
  validateYaml yaml_load (generateYaml yaml_dump params) = mkValidation true [].
Proof.
  intros Hround. unfold validateYaml.
  rewrite Hround, mbind_lift_normal, validateConfig_rendered. reflexivity.
Qed.

End FreshDocument.

(** X20: a document produced without an existing text is the rendering
    of the parameters stored with its conversation, and it is reported
    valid with no error whenever the codec reads it back as rendered. *)
Theorem fresh_document_valid
        (yaml_dump : value -> string)
        (yaml_load : string -> completion value)
        (JSON_parse : string -> completion ExtractedParams)
        (enhance_request : string -> ExtractedParams -> completion (list ContentBlock))
        (followup_request : list string -> string -> completion (list ContentBlock))
        (CLAUDE_API_KEY : option string)
        (freshId : string)
        (description conversationId answer existingYaml : option string)
        (st st' : Store) (cid yaml : string) (v : bool) (errs : list string) :
  truthy_str existingYaml = false ->
  natural_to_yaml yaml_dump yaml_load JSON_parse enhance_request
                  followup_request CLAUDE_API_KEY
                  freshId description conversationId answer existingYaml st
  = Normal (Document cid yaml v errs, st') ->
  exists c,
    getConversation cid st' = Some c
    /\ yaml = generateYaml yaml_dump (currentParams c)
    /\ (yaml_load yaml = Normal (generateYamlConfig (currentParams c)) ->
        v = true /\ errs = []).
Proof.
  intros Hnone H. apply turn_outcome in H.
  destruct H as (cid' & p & m & (c & G & M & P & C) & F & Hask & Hdoc).
  destruct m as [|l ls].
  - specialize (Hdoc eq_refl). cbv zeta in Hdoc.
    unfold renderDocument in Hdoc. rewrite Hnone in Hdoc.
    injection Hdoc as -> -> -> ->.
    exists c. unfold getConversation. split; [exact G|].
    rewrite P. split; [reflexivity|].
    intros Hround. rewrite (validateYaml_rendered _ _ _ Hround). now split.
  - destruct Hask as [question Hq]; [discriminate|discriminate].
Qed.

Lemma fresh_document_valid_witness :
  exists cid yaml st',
    natural_to_yaml sexpDump sexpLoad noParse noEnhance noFollowup None
                    "conv_2" (Some sizedDescription) None None None []
    = Normal (Document cid yaml true [], st').
Proof.
  destruct (natural_to_yaml sexpDump sexpLoad noParse noEnhance noFollowup None
              "conv_2" (Some sizedDescription) None None None [])
    as [[[cid0 q0 m0|cid0 yaml0 v0 errs0] st0]|message] eqn:E;
    try (vm_compute in E; discriminate).
  destruct (fresh_document_valid sexpDump sexpLoad noParse noEnhance noFollowup
              None "conv_2" (Some sizedDescription) None None None [] st0
              cid0 yaml0 v0 errs0 eq_refl E) as (c & G & Hy & Hv).
  destruct Hv as [-> ->].
  - vm_compute in E. injection E as <- <- _ _ <-.
    vm_compute in G. injection G as <-. vm_compute. reflexivity.
  - exists cid0, yaml0, st0. reflexivity.
Defined.

(* ================================================================== *)
(** * The version check *)
(* ================================================================== *)

Section VersionFacts.
Variable toNumber : string -> number.

Lemma gtb_ltb (x y : number) : Version.gtb x y = Version.ltb y x.
Proof. destruct x as [|x|[]], y as [|y|[]]; reflexivity. Qed.

Lemma ltb_asym (x y : number) :
  Version.ltb x y = true -> Version.ltb y x = false.
Proof.
  destruct x as [|x|[]], y as [|y|[]]; cbn; try discriminate; try reflexivity.
  intros H. apply Z.ltb_lt in H. apply Z.ltb_ge. lia.
Qed.

Lemma ltb_irrefl (x : number) : Version.ltb x x = false.
Proof. destruct x as [|x|[]]; cbn; try reflexivity. apply Z.ltb_irrefl. Qed.

Lemma compareFrom_swap (a b : list number) (steps : nat) :
  forall i, Version.compareFrom b a i steps
            = (- Version.compareFrom a b i steps)%Z.
Proof.
  induction steps as [|steps IH]; intros i; cbn [Version.compareFrom];
    [reflexivity|].
  cbv zeta. rewrite !gtb_ltb.
  set (x := or_num (nth_error a i) (Int 0)).
  set (y := or_num (nth_error b i) (Int 0)).
  destruct (Version.ltb x y) eqn:Exy.
  - rewrite (ltb_asym _ _ Exy). reflexivity.
  - destruct (Version.ltb y x); [reflexivity|apply IH].
Qed.

Lemma compareFrom_range (a b : list number) (steps : nat) :
  forall i, In (Version.compareFrom a b i steps) [(-1)%Z; 0%Z; 1%Z].
Proof.
  induction steps as [|steps IH]; intros i; cbn [Version.compareFrom].
  - right. now left.
  - cbv zeta.
    destruct (Version.gtb _ _); [right; right; now left|].
    destruct (Version.ltb _ _); [now left|apply IH].
Qed.

Lemma compareFrom_same (a : list number) (steps : nat) :
  forall i, Version.compareFrom a a i steps = 0%Z.
Proof.
  induction steps as [|steps IH]; intros i; cbn [Version.compareFrom];
    [reflexivity|].
  cbv zeta. rewrite gtb_ltb, ltb_irrefl. apply IH.
Qed.




End VersionFacts.

(** X21: the comparison is a three-way order test: it returns -1, 0 or
    1, swapping the arguments negates the result, and a version
    compares equal to itself, whatever the texts are. *)
Theorem compare_versions_antisymmetric
        (toNumber : string -> number) (v1 v2 : string) :
  In (Version.compareVersions toNumber v1 v2) [(-1)%Z; 0%Z; 1%Z]
  /\ Version.compareVersions toNumber v2 v1
     = (- Version.compareVersions toNumber v1 v2)%Z
  /\ Version.compareVersions toNumber v1 v1 = 0%Z.
Proof.
  unfold Version.compareVersions. cbv zeta. split; [|split].
  - apply compareFrom_range.
  - rewrite Nat.max_comm. apply compareFrom_swap.
  - apply compareFrom_same.
Qed.



(* ================================================================== *)
(** * Token decimals *)
(* ================================================================== *)

Section TokenFacts.

Lemma upper_upper_char (c : ascii) : upper_char (upper_char c) = upper_char c.
Proof.
  pose proof (for_all_ascii
    (fun c => Ascii.eqb (upper_char (upper_char c)) (upper_char c))
    ltac:(vm_compute; reflexivity) c) as A.
  cbv beta in A. now apply Ascii.eqb_eq.
Qed.

Lemma upper_upper (s : string) : toUpperCase (toUpperCase s) = toUpperCase s.
Proof.
  unfold toUpperCase.
  induction s as [|c s IH]; simpl; [reflexivity|].
  now rewrite upper_upper_char, IH.
Qed.

Lemma decimals_by_name (u : string) :
  or_num (property u tokenDecimals) (Int 6)
  = if String.eqb u "ETH" || String.eqb u "MATIC" then Int 18 else Int 6.
Proof.
  unfold tokenDecimals. cbn [property].
  destruct (String.eqb_spec u "CST") as [->|_]; [reflexivity|].
  destruct (String.eqb_spec u "USDC") as [->|_]; [reflexivity|].
  destruct (String.eqb u "ETH"); [reflexivity|].
  destruct (String.eqb u "MATIC"); reflexivity.
Qed.

End TokenFacts.

(** X23: the number of decimals is 6 or 18; it is 18 exactly for the
    tokens spelled ETH or MATIC in any letter case, and the letter case
    of the token never matters. *)
Theorem token_decimals (token : string) :
  In (getTokenDecimals token) [Int 6; Int 18]
  /\ (getTokenDecimals token = Int 18 <->
      toUpperCase token = "ETH" \/ toUpperCase token = "MATIC")
  /\ getTokenDecimals (toLowerCase token) = getTokenDecimals token
  /\ getTokenDecimals (toUpperCase token) = getTokenDecimals token.
Proof.
  unfold getTokenDecimals. rewrite upper_lower, upper_upper.
  rewrite decimals_by_name.
  split; [|split; [|split; reflexivity]].
  - destruct (_ || _); [right|]; now left.
  - destruct (String.eqb_spec (toUpperCase token) "ETH") as [E|E];
      [split; [now left|reflexivity]|].
    destruct (String.eqb_spec (toUpperCase token) "MATIC") as [M|M];
      [split; [now right|reflexivity]|].
    split; [discriminate|intros [H|H]; contradiction].
Qed.

(* ================================================================== *)
(** * Log levels *)
(* ================================================================== *)

Section LoggerFacts.

Lemma lower_named (level name : string) :
  name <> "" -> toLowerCase level = name -> String.eqb level "" = false.
Proof.
  intros Hn <-. destruct level; [now contradiction Hn|reflexivity].
Qed.

Lemma getLogLevel_range (envLevel : option string) :
  (0 <= getLogLevel envLevel <= 3)%Z.
Proof.
  unfold getLogLevel, DEFAULT_LOG_LEVEL, LogLevel.ERROR, LogLevel.WARN,
    LogLevel.INFO, LogLevel.DEBUG.
  destruct envLevel as [level|]; [|lia].
  destruct (negb (String.eqb level "")); [|lia]. cbv zeta.
  repeat match goal with
         | |- context [if String.eqb ?a ?b then _ else _] =>
             destruct (String.eqb a b); [lia|]
         end.
  destruct (parseInt level) as [|n|sign]; [lia| |lia].
  destruct (Z.leb_spec 0 n), (Z.leb_spec n 3); cbn [andb]; lia.
Qed.

End LoggerFacts.

(** X24: the log level is always one of 0..3.  The four level names
    are read in any letter case; a numeral 0..3 is read as that level;
    an unset or empty setting gives INFO (2). *)
Theorem log_level (envLevel : option string) :
  (0 <= getLogLevel envLevel <= 3)%Z
  /\ (forall level,
        envLevel = Some level ->
        (toLowerCase level = "error" -> getLogLevel envLevel = 0%Z)
        /\ (toLowerCase level = "warn" -> getLogLevel envLevel = 1%Z)
        /\ (toLowerCase level = "info" -> getLogLevel envLevel = 2%Z)
        /\ (toLowerCase level = "debug" -> getLogLevel envLevel = 3%Z))
  /\ (forall n, (0 <= n <= 3)%Z ->
        envLevel = Some (toString (Int n)) -> getLogLevel envLevel = n)
  /\ (truthy_str envLevel = false -> getLogLevel envLevel = 2%Z).
Proof.
  split; [apply getLogLevel_range|]. split; [|split].
  - intros level ->. unfold getLogLevel.
    assert (N : forall name, toLowerCase level = name -> name <> "" ->
                  negb (String.eqb level "") = true).
    { intros name H Hn. now rewrite (lower_named level name Hn H). }
    split; [|split; [|split]]; intros H;
      rewrite (N _ H) by discriminate; cbv zeta; rewrite H; reflexivity.
  - intros n Hn ->.
    assert (C : n = 0%Z \/ n = 1%Z \/ n = 2%Z \/ n = 3%Z) by lia.
    destruct C as [-> | [-> | [-> | ->]]]; reflexivity.
  - unfold getLogLevel. destruct envLevel as [level|]; [|reflexivity].
    cbn [truthy_str]. now intros ->.
Qed.

Lemma log_level_witness :
  getLogLevel (Some "WARN") = 1%Z.
Proof.
  destruct (log_level (Some "WARN")) as (_ & H & _).
  destruct (H "WARN" eq_refl) as (_ & Hwarn & _).
  apply Hwarn. reflexivity.
Defined.

(** X25: errors are logged whatever the setting, with the formatted
    message as first argument of the first call; what is logged at a
    level is logged at every more verbose level (a debug line implies
    the info line, an info line the warning); with no setting info is
    logged and debug is not. *)
Theorem log_verbosity (SPHERON_LOG_LEVEL : option string)
        (timestamp category message : string) (err : option Thrown) :
  (exists rest more,
     Logger.error SPHERON_LOG_LEVEL timestamp category message err
     = console_error
         (VStr (Logger.formatLogMessage timestamp category message) :: rest)
       :: more)
  /\ (Logger.debug SPHERON_LOG_LEVEL timestamp category message <> [] ->
      Logger.info SPHERON_LOG_LEVEL timestamp category message <> [])
  /\ (Logger.info SPHERON_LOG_LEVEL timestamp category message <> [] ->
      Logger.warn SPHERON_LOG_LEVEL timestamp category message <> [])
  /\ (truthy_str SPHERON_LOG_LEVEL = false ->
      Logger.info SPHERON_LOG_LEVEL timestamp category message
      = [console_error [VStr (Logger.formatLogMessage timestamp category message)]]
      /\ Logger.debug SPHERON_LOG_LEVEL timestamp category message = []).
Proof.
  pose proof (getLogLevel_range SPHERON_LOG_LEVEL) as R.
  unfold Logger.error, Logger.debug, Logger.info, Logger.warn,
    Logger.currentLogLevel, LogLevel.ERROR, LogLevel.WARN, LogLevel.INFO,
    LogLevel.DEBUG.
  split; [|split; [|split]].
  - destruct (Z.geb_spec (getLogLevel SPHERON_LOG_LEVEL) 0); [|lia].
    cbv zeta. destruct err as [[errorMessage stack|v]|].
    + do 2 eexists. reflexivity.
    + destruct (Js.truthy v); do 2 eexists; reflexivity.
    + do 2 eexists. reflexivity.
  - destruct (Z.geb_spec (getLogLevel SPHERON_LOG_LEVEL) 3); [|congruence].
    destruct (Z.geb_spec (getLogLevel SPHERON_LOG_LEVEL) 2); [discriminate|lia].
  - destruct (Z.geb_spec (getLogLevel SPHERON_LOG_LEVEL) 2); [|congruence].
    destruct (Z.geb_spec (getLogLevel SPHERON_LOG_LEVEL) 1); [discriminate|lia].
  - intros H.
    assert (E : getLogLevel SPHERON_LOG_LEVEL = 2%Z).
    { unfold getLogLevel. destruct SPHERON_LOG_LEVEL as [level|]; [|reflexivity].
      cbn [truthy_str] in H. now rewrite H. }
    rewrite E. split; reflexivity.
Qed.

Lemma log_verbosity_witness :
  Logger.debug None "t" "Setup" "ready" = []
  /\ Logger.warn (Some "debug") "t" "Setup" "ready" <> [].
Proof.
  split.
  - destruct (log_verbosity None "t" "Setup" "ready" None) as (_ & _ & _ & H).
    exact (proj2 (H eq_refl)).
  - destruct (log_verbosity (Some "debug") "t" "Setup" "ready" None)
      as (_ & Hd & Hi & _).
    apply Hi, Hd. discriminate.
Defined.

(* ================================================================== *)
(** * Updating a rendered document *)
(* ================================================================== *)

Section Patch.

Lemma generateYamlConfig_by (p : ExtractedParams) :
  generateYamlConfig p
  = documentBy (or_str (name p) "py-cuda") (or_str (region p) "westcoast")
               (serviceFields p)
               (VStr (or_str (duration p) "2h"))
               (VStr (Mode_str (or_else (mode p) provider)))
               (resourceFields p)
               (VStr "CST") (VNum (or_num (amount p) (Int 15)))
               (VNum (or_num (count p) (Int 1))).
Proof. reflexivity. Qed.

Variables (n r : string) (sfs : list (string * value)) (dur mo : value)
          (rfs : list (string * value)) (tok amt cnt : value).

Local Abbreviation doc := (documentBy n r sfs dur mo rfs tok amt cnt).

Ltac assign_by :=
  unfold assign_when, documentBy;
  cbn [Js.assign_in Js.assign Js.child Js.get Js.with_child Js.replace_field
       Js.assoc Js.put String.eqb Ascii.eqb Bool.eqb or_else bind];
  rewrite ?String.eqb_refl;
  cbn [Js.assign_in Js.assign Js.child Js.get Js.with_child Js.replace_field
       Js.assoc Js.put String.eqb Ascii.eqb Bool.eqb or_else bind];
  rewrite ?String.eqb_refl;
  cbn [Js.assign_in Js.assign Js.child Js.get Js.with_child Js.replace_field
       Js.assoc Js.put String.eqb Ascii.eqb Bool.eqb or_else bind];
  rewrite ?String.eqb_refl;
  cbn [Js.assign_in Js.assign Js.child Js.get Js.with_child Js.replace_field
       Js.assoc Js.put String.eqb Ascii.eqb Bool.eqb or_else bind];
  rewrite ?String.eqb_refl;
  cbn [Js.assign_in Js.assign Js.child Js.get Js.with_child Js.replace_field
       Js.assoc Js.put String.eqb Ascii.eqb Bool.eqb or_else bind];
  rewrite ?String.eqb_refl;
  try reflexivity.

Lemma service_assign (c : bool) (k : string) (x : value) :
  assign_when c ["services"; n] k x doc
  = Normal (documentBy n r (if c then Js.put k x sfs else sfs)
                       dur mo rfs tok amt cnt).
Proof. destruct c; [|reflexivity]. assign_by. Qed.

Lemma duration_assign (c : bool) (x : value) :
  assign_when c ["profiles"] "duration" x doc
  = Normal (documentBy n r sfs (if c then x else dur) mo rfs tok amt cnt).
Proof. destruct c; [|reflexivity]. assign_by. Qed.

Lemma mode_assign (c : bool) (x : value) :
  assign_when c ["profiles"] "mode" x doc
  = Normal (documentBy n r sfs dur (if c then x else mo) rfs tok amt cnt).
Proof. destruct c; [|reflexivity]. assign_by. Qed.

Lemma resource_assign (c : bool) (k : string) (x : value) :
  assign_when c ["profiles"; "compute"; n; "resources"] k x doc
  = Normal (documentBy n r sfs dur mo (if c then Js.put k x rfs else rfs)
                       tok amt cnt).
Proof. destruct c; [|reflexivity]. assign_by. Qed.

Lemma token_assign (x : value) :
  Js.assign_in ["profiles"; "placement"; r; "pricing"; n] "token" x doc
  = Normal (documentBy n r sfs dur mo rfs x amt cnt).
Proof. assign_by. Qed.

Lemma amount_assign (c : bool) (x : value) :
  assign_when c ["profiles"; "placement"; r; "pricing"; n] "amount" x doc
  = Normal (documentBy n r sfs dur mo rfs tok (if c then x else amt) cnt).
Proof. destruct c; [|reflexivity]. assign_by. Qed.

Lemma count_assign (c : bool) (x : value) :
  assign_when c ["deployment"; n; r] "count" x doc
  = Normal (documentBy n r sfs dur mo rfs tok amt (if c then x else cnt)).
Proof. destruct c; [|reflexivity]. assign_by. Qed.

Lemma read_services : Js.get doc "services" = Normal (VObj [(n, VObj sfs)]).
Proof. reflexivity. Qed.

Lemma read_profiles :
  exists fs, Js.get doc "profiles" = Normal (VObj fs).
Proof. eexists. reflexivity. Qed.

Lemma read_compute :
  Js.get_path ["profiles"; "compute"] doc
  = Normal (VObj [(n, VObj [("resources", VObj rfs)])]).
Proof. reflexivity. Qed.

Lemma read_placement :
  Js.get_path ["profiles"; "placement"] doc
  = Normal (VObj [(r, VObj [("pricing",
              VObj [(n, VObj [("token", tok); ("amount", amt)])])])]).
Proof. reflexivity. Qed.

Lemma read_deployment :
  Js.get doc "deployment"
  = Normal (VObj [(n, VObj [(r, VObj [("profile", VStr n); ("count", cnt)])])]).
Proof. reflexivity. Qed.

End Patch.

Section PatchEffect.
Variable q : ExtractedParams.
Hypothesis unnamed : truthy_str (name q) = false.

Lemma updateServices_by (n r : string) (sfs : list (string * value))
      (dur mo : value) (rfs : list (string * value)) (tok amt cnt : value) :
  updateServices q (documentBy n r sfs dur mo rfs tok amt cnt)
  = Normal (documentBy n r (patchedService q sfs) dur mo rfs tok amt cnt).
Proof.
  unfold updateServices. rewrite read_services.
  cbn [bind Js.truthy Js.keys map fst Js.first_key].
  rewrite service_assign. cbn [bind].
  rewrite service_assign. cbn [bind].
  rewrite service_assign. cbn [bind].
  rewrite service_assign. reflexivity.
Qed.

Lemma updateCompute_by (n r : string) (sfs : list (string * value))
      (dur mo : value) (rfs : list (string * value)) (tok amt cnt : value) :
  updateCompute q (documentBy n r sfs dur mo rfs tok amt cnt)
  = Normal (documentBy n r sfs dur mo (patchedResources q rfs) tok amt cnt).
Proof.
  unfold updateCompute. rewrite read_compute.
  cbn [bind Js.truthy Js.keys map fst Js.first_key].
  rewrite get_head. cbn [bind Js.get Js.assoc String.eqb Ascii.eqb Bool.eqb
                         or_else Js.truthy].
  rewrite resource_assign. cbn [bind].
  rewrite resource_assign. cbn [bind].
  rewrite resource_assign. cbn [bind].
  rewrite resource_assign. reflexivity.
Qed.

Lemma updatePlacement_by (n r : string) (sfs : list (string * value))
      (dur mo : value) (rfs : list (string * value)) (tok amt cnt : value) :
  updatePlacement q (documentBy n r sfs dur mo rfs tok amt cnt)
  = Normal (documentBy n r sfs dur mo rfs (VStr "CST")
              (if truthy_num (amount q) then VNum (or_else (amount q) NaN) else amt)
              cnt).
Proof.
  unfold updatePlacement. rewrite read_placement.
  cbn [bind Js.truthy Js.keys map fst Js.first_key].
  rewrite get_head. cbn [bind Js.get Js.assoc String.eqb Ascii.eqb Bool.eqb
                         or_else Js.truthy Js.keys map fst Js.first_key].
  rewrite token_assign. cbn [bind].
  rewrite amount_assign. reflexivity.
Qed.

Lemma updateProfiles_by (n r : string) (sfs : list (string * value))
      (dur mo : value) (rfs : list (string * value)) (tok amt cnt : value) :
  updateProfiles q (documentBy n r sfs dur mo rfs tok amt cnt)
  = Normal (documentBy n r sfs
              (if truthy_str (duration q) then VStr (or_else (duration q) "") else dur)
              (if isSome (mode q)
               then VStr (Mode_str (or_else (mode q) provider)) else mo)
              (patchedResources q rfs) (VStr "CST")
              (if truthy_num (amount q) then VNum (or_else (amount q) NaN) else amt)
              cnt).
Proof.
  unfold updateProfiles.
  destruct (read_profiles n r sfs dur mo rfs tok amt cnt) as [fs ->].
  cbn [bind Js.truthy]. rewrite unnamed.
  unfold assign_when at 1. cbn [bind].
  rewrite duration_assign. cbn [bind].
  rewrite mode_assign. cbn [bind].
  rewrite updateCompute_by. cbn [bind].
  apply updatePlacement_by.
Qed.

Lemma updateDeployment_by (n r : string) (sfs : list (string * value))
      (dur mo : value) (rfs : list (string * value)) (tok amt cnt : value) :
  updateDeployment q (documentBy n r sfs dur mo rfs tok amt cnt)
  = Normal (documentBy n r sfs dur mo rfs tok amt
              (if truthy_num (count q) then VNum (or_else (count q) NaN) else cnt)).
Proof.
  unfold updateDeployment. rewrite read_deployment.
  cbn [bind Js.truthy Js.keys map fst Js.first_key].
  rewrite get_head. cbn [bind Js.keys map fst Js.first_key].
  rewrite unnamed. unfold assign_when at 1. cbn [bind].
  apply count_assign.
Qed.

Lemma updateConfig_by (n r : string) (sfs : list (string * value))
      (dur mo : value) (rfs : list (string * value)) (tok amt cnt : value) :
  updateConfig q (documentBy n r sfs dur mo rfs tok amt cnt)
  = Normal (documentBy n r (patchedService q sfs)
              (if truthy_str (duration q) then VStr (or_else (duration q) "") else dur)
              (if isSome (mode q)
               then VStr (Mode_str (or_else (mode q) provider)) else mo)
              (patchedResources q rfs) (VStr "CST")
              (if truthy_num (amount q) then VNum (or_else (amount q) NaN) else amt)
              (if truthy_num (count q) then VNum (or_else (count q) NaN) else cnt)).
Proof.
  unfold updateConfig.
  rewrite updateServices_by. cbn [bind].
  rewrite updateProfiles_by. cbn [bind].
  apply updateDeployment_by.
Qed.

End PatchEffect.

Section PlainPatch.
Variables p q : ExtractedParams.
Hypothesis plain : plainPatch q = true.

Lemma plain_unnamed : name q = None /\ region q = None.
Proof.
  unfold plainPatch in plain.
  destruct (name q), (region q); try discriminate. now split.
Qed.

Lemma plain_str (field : ExtractedParams -> option string) :
  negb (isSome (field q)) || truthy_str (field q) = true ->
  forall d, or_str (spread_field (field p) (field q)) d
            = if truthy_str (field q) then or_else (field q) ""
              else or_str (field p) d.
Proof.
  intros H d. destruct (field q) as [s|]; [|reflexivity].
  cbn [isSome negb orb] in H. rewrite H. cbn [spread_field or_else].
  now apply (or_str_truthy (Some s)).
Qed.

Lemma plain_num (field : ExtractedParams -> option number) :
  negb (isSome (field q)) || truthy_num (field q) = true ->
  forall d, or_num (spread_field (field p) (field q)) d
            = if truthy_num (field q) then or_else (field q) NaN
              else or_num (field p) d.
Proof.
  intros H d. destruct (field q) as [s|]; [|reflexivity].
  cbn [isSome negb orb] in H. rewrite H. cbn [spread_field or_else].
  now apply (or_num_truthy (Some s)).
Qed.

Lemma plain_truthy_str (field : ExtractedParams -> option string) :
  negb (isSome (field q)) || truthy_str (field q) = true ->
  truthy_str (spread_field (field p) (field q))
  = if truthy_str (field q) then true else truthy_str (field p).
Proof.
  intros H. destruct (field q) as [s|]; [|reflexivity].
  cbn [isSome negb orb] in H. now rewrite H.
Qed.

Lemma updateConfig_plain :
  updateConfig q (generateYamlConfig p)
  = Normal (generateYamlConfig (spreadParams p q)).
Proof.
  destruct plain_unnamed as [Hname Hregion].
  pose proof plain as P. unfold plainPatch in P.
  repeat (apply andb_prop in P; let H := fresh "F" in destruct P as [P H]).
  rewrite !generateYamlConfig_by.
  rewrite updateConfig_by by (now rewrite Hname).
  f_equal.
  cbn [name region duration mode amount count spreadParams].
  rewrite Hname, Hregion. cbn [spread_field].
  rewrite (plain_str duration) by assumption.
  rewrite (plain_num amount), (plain_num count) by assumption.
  f_equal.
  { (* the service *)
    unfold patchedService, serviceFields, generateExposeConfig, generateEnvConfig.
    cbn [image pullPolicy ports env spreadParams].
    rewrite (plain_str image) by assumption.
    destruct (truthy_str (image q)), (pullPolicy q), (ports q), (env q);
      reflexivity. }
  { destruct (truthy_str (duration q)); reflexivity. }
  { destruct (mode q); reflexivity. }
  { (* the resources *)
    unfold patchedResources, resourceFields, generateResourcesConfig.
    cbn [cpu memory storage gpu spreadParams].
    rewrite (plain_num cpu), (plain_str memory) by assumption.
    rewrite (plain_truthy_str storage) by assumption.
    match goal with
    | H : negb (isSome (storage q)) || truthy_str (storage q) = true |- _ =>
        revert H
    end.
    destruct (storage q) as [s|]; cbn [isSome negb orb truthy_str spread_field or_else];
      intros Hs; rewrite ?Hs;
      destruct (truthy_num (cpu q)), (truthy_str (memory q)), (gpu q), (gpu p),
               (truthy_str (storage p));
      reflexivity. }
  { destruct (truthy_num (amount q)); reflexivity. }
  { destruct (truthy_num (count q)); reflexivity. }
Qed.

End PlainPatch.

(** X26: updating a rendered document with a patch that gives no name
    and no region, and no empty or zero value, is rendering the merged
    parameters: update after render equals render after merge, whenever
    the codec reads the rendered document back unchanged. *)
Theorem update_rendered_patch
        (yaml_dump : value -> string)
        (yaml_load : string -> completion value)
        (p q : ExtractedParams) :
  plainPatch q = true ->
  yaml_load (yaml_dump (generateYamlConfig p)) = Normal (generateYamlConfig p) ->
  updateYaml yaml_dump yaml_load (generateYaml yaml_dump p) q
  = generateYaml yaml_dump (spreadParams p q).
Proof.
  intros Hplain Hload. unfold updateYaml, generateYaml.
  rewrite Hload. cbn [bind]. now rewrite (updateConfig_plain p q Hplain).
Qed.

Lemma update_rendered_patch_witness :
  updateYaml sexpDump sexpLoad (generateYaml sexpDump DEFAULT_PARAMS) cpuPatch
  = generateYaml sexpDump (spreadParams DEFAULT_PARAMS cpuPatch).
Proof.
  apply update_rendered_patch.
  - reflexivity.
  - vm_compute. reflexivity.
Defined.

(* ================================================================== *)
(** * The lists of a rendered service *)
(* ================================================================== *)

(** X27: the rendered expose list is never empty: it has one entry per
    given port, and the two default entries when no port or an empty
    port list is given.  The rendered env list has one line per given
    variable, in order, so an empty env object renders an empty list;
    only an absent env gives the default line. *)
Theorem render_service_lists (p : ExtractedParams) :
  (exists entries,
     generateExposeConfig p = VArr entries
     /\ entries <> []
     /\ List.length entries
        = match ports p with
          | Some ((_ :: _) as ps) => List.length ps
          | _ => 2%nat
          end)
  /\ (exists lines,
        generateEnvConfig p = VArr lines
        /\ List.length lines
           = match env p with
             | Some e => List.length e
             | None => 1%nat
             end
        /\ forall i k v,
             nth_error (or_else (env p) jupyterEnv) i = Some (k, v) ->
             nth_error lines i = Some (VStr (k ++ "=" ++ v))).
Proof.
  split.
  - unfold generateExposeConfig.
    destruct (ports p) as [[|pt ps]|]; eexists;
      (split; [reflexivity|split; [cbn [map]; discriminate|]]);
      try reflexivity.
    cbn [List.length map]. now rewrite length_map.
  - unfold generateEnvConfig.
    destruct (env p) as [e|]; eexists; (split; [reflexivity|split]).
    + apply length_map.
    + intros i k v H. cbn [or_else] in H.
      rewrite nth_error_map, H. reflexivity.
    + reflexivity.
    + intros i k v H. cbn [or_else] in H. unfold jupyterEnv in H.
      destruct i as [|[|i]]; cbn in H; try discriminate.
      injection H as <- <-. reflexivity.
Qed.
